(** * Clock-domain-crossing generators of [nmigen.lib.cdc]

    A shallow embedding of [src/nmigen/lib/cdc.py]: the stage-count
    validator, the four generators ([FFSynchronizer],
    [AsyncFFSynchronizer], [ResetSynchronizer], [PulseSynchronizer]),
    their constructors and their [elaborate] methods, followed by a
    small clocked semantics of the statements they emit and by the
    properties of the generated structures. *)

From Stdlib Require Import ZArith List String Bool Arith Lia DecimalString
  DecimalNat.
Import ListNotations.
Local Open Scope string_scope.
Local Open Scope list_scope.

(** ** Python values and exceptions *)

(** The dynamically typed values a caller may pass where the code
    inspects the type ([isinstance(stages, int)], [is not None]).  A
    float is kept as mantissa and binary exponent: the code never
    computes with one. *)
Inductive PyVal : Type :=
| PyInt (z : Z)
| PyBool (b : bool)
| PyFloat (mantissa exponent : Z)
| PyStr (s : string)
| PyNone.

(** [isinstance(v, int)]; [bool] is a subclass of [int]. *)
Definition isinstance_int (v : PyVal) : bool :=
  match v with
  | PyInt _ | PyBool _ => true
  | _ => false
  end.

(** The integer an [int] instance compares as ([True] is 1, [False] is 0). *)
Definition int_value (v : PyVal) : Z :=
  match v with
  | PyInt z => z
  | PyBool true => 1%Z
  | _ => 0%Z
  end.

Definition is_None (v : PyVal) : bool :=
  match v with
  | PyNone => true
  | _ => false
  end.

Inductive ExcClass : Type :=
| TypeError
| ValueError
| NotImplementedError
| IndexError.

(** An exception: its class, the message template and the values
    substituted in it by [str.format]. *)
Record Exception : Type := mkExc {
  exc_class : ExcClass;
  exc_format : string;
  exc_args : list PyVal
}.

(** Outcome of a call that returns or raises. *)
Inductive Result (A : Type) : Type :=
| Return (a : A)
| Raise (e : Exception).
Arguments Return {A} a.
Arguments Raise {A} e.

Definition bind {A B : Type} (r : Result A) (k : A -> Result B) : Result B :=
  match r with
  | Return a => k a
  | Raise e => Raise e
  end.

Notation "x <- c ;; k" := (bind c (fun x => k))
  (at level 61, c at next level, right associativity).

(** ** The hardware description objects the generators build

    These are the host framework's types ([Signal], [Const],
    [ClockSignal], [ResetSignal], the operators [~] and [^], [Assign],
    [ClockDomain], [Module]); only the parts [cdc.py] uses appear. *)

Record Shape : Type := mkShape {
  width : nat;
  signed : bool
}.

Definition unsigned (w : nat) : Shape := mkShape w false.

(** A signal is an object with an identity: [uid] stands for the
    identity of the Python object, allocated from a counter that every
    [Signal(...)] call advances. *)
Record Signal : Type := mkSignal {
  uid : nat;
  sig_shape : Shape;
  sig_name : string;
  sig_reset : Z;
  sig_reset_less : bool
}.

Inductive Value : Type :=
| Const (v : Z)
| Sig (s : Signal)
| ClockSignal (domain : string)
| ResetSignal (domain : string)
| Not (a : Value)
| Xor (a b : Value).

(** [lhs.eq(rhs)] is [Assign lhs rhs]; an integer on the right is cast
    to a [Const]. *)
Inductive Statement : Type :=
| Assign (lhs rhs : Value).

(** A clock domain owns its clock and its reset signal: the objects
    [ClockSignal(name)] and [ResetSignal(name)] stand for. *)
Record ClockDomain : Type := mkClockDomain {
  cd_name : string;
  cd_clk : Signal;
  cd_rst : Signal;
  cd_async_reset : bool;
  cd_local : bool
}.

(** [Signal(shape, name=..., reset=..., reset_less=...)]: a new signal,
    and the advanced counter. *)
Definition new_Signal (shape : Shape) (name : string) (reset : Z)
    (reset_less : bool) (next : nat) : Signal * nat :=
  (mkSignal next shape name reset reset_less, S next).

(** The name [ClockDomain] gives the clock or reset signal of a domain:
    the bare signal name in ["sync"], prefixed by the domain name
    elsewhere. *)
Definition _name_for (domain_name signal_name : string) : string :=
  if String.eqb domain_name "sync" then signal_name
  else domain_name ++ "_" ++ signal_name.

(** [ClockDomain(name, async_reset=..., local=...)]: the constructor
    creates the clock signal, then the reset signal, so the counter
    advances by two. *)
Definition new_ClockDomain (name : string) (async_reset local : bool)
    (next : nat) : ClockDomain * nat :=
  let (clk, next1) :=
    new_Signal (unsigned 1) (_name_for name "clk") 0 false next in
  let (rst, next2) :=
    new_Signal (unsigned 1) (_name_for name "rst") 0 false next1 in
  (mkClockDomain name clk rst async_reset local, next2).

(** [ClockSignal(domain)] and [ResetSignal(domain)]: the constructors
    refuse the combinational domain, which has neither. *)
Definition ClockSignal_init (domain : string) : Result Value :=
  if String.eqb domain "comb" then
    Raise (mkExc ValueError "Domain '{}' does not have a clock"
                 [PyStr domain])
  else Return (ClockSignal domain).

Definition ResetSignal_init (domain : string) : Result Value :=
  if String.eqb domain "comb" then
    Raise (mkExc ValueError "Domain '{}' does not have a reset"
                 [PyStr domain])
  else Return (ResetSignal domain).

(** [Signal()] with every default; the name is the one of the variable
    or attribute the signal is bound to. *)
Definition default_Signal (name : string) (next : nat) : Signal * nat :=
  new_Signal (unsigned 1) name 0 false next.

(** [[f(x) for x in xs]] where [f] creates objects. *)
Fixpoint comprehension {A B : Type} (f : A -> nat -> B * nat) (xs : list A)
    (next : nat) : list B * nat :=
  match xs with
  | [] => ([], next)
  | x :: xs' =>
      let (b, next1) := f x next in
      let (bs, next2) := comprehension f xs' next1 in
      (b :: bs, next2)
  end.

(** [range(n)] *)
Definition range (n : Z) : list nat := seq 0 (Z.to_nat n).

(** ["stage{}".format(index)] *)
Definition stage_name (index : nat) : string :=
  "stage" ++ NilZero.string_of_uint (Nat.to_uint index).

(** [xs[-1]] *)
Definition last_item {A : Type} (xs : list A) : Result A :=
  match rev xs with
  | x :: _ => Return x
  | [] => Raise (mkExc IndexError "list index out of range" [])
  end.

(** ** Generators: configuration records

    A stage count is stored once [_check_stages] accepted it; the
    accepted values are the [int] objects from 2 up (no [bool] passes),
    so the three generators that call it keep an integer.
    [PulseSynchronizer] has a check of its own and keeps the object.
    The inputs and [FFSynchronizer]'s output are signals, as documented
    ([Signal(n)], [Signal(1)]); [AsyncFFSynchronizer]'s output is any
    assignable value, since [ResetSynchronizer] binds it to a
    [ResetSignal]. *)

Record FFSynchronizer : Type := mkFFSynchronizer {
  ff_i : Signal;
  ff_o : Signal;
  ff_reset : Z;
  ff_reset_less : bool;
  ff_o_domain : string;
  ff_stages : Z;
  ff_max_input_delay : PyVal
}.

Record AsyncFFSynchronizer : Type := mkAsyncFFSynchronizer {
  af_i : Signal;
  af_o : Value;
  af_domain : string;
  af_stages : Z;
  af_edge : string;
  af_max_input_delay : PyVal
}.

Record ResetSynchronizer : Type := mkResetSynchronizer {
  rs_arst : Signal;
  rs_domain : string;
  rs_stages : Z;
  rs_max_input_delay : PyVal
}.

Record PulseSynchronizer : Type := mkPulseSynchronizer {
  ps_i : Signal;
  ps_o : Signal;
  ps_i_domain : string;
  ps_o_domain : string;
  ps_sync_stages : PyVal
}.

Inductive Elaboratable : Type :=
| EFFSynchronizer (f : FFSynchronizer)
| EAsyncFFSynchronizer (a : AsyncFFSynchronizer)
| EResetSynchronizer (r : ResetSynchronizer)
| EPulseSynchronizer (p : PulseSynchronizer).

(** [Module()]: the declared domains, the statements in the order they
    were added, each under the name of the domain it was added to
    ([m.d.comb] is [m.d["comb"]]), and the named submodules. *)
Record Module : Type := mkModule {
  domains : list ClockDomain;
  d : list (string * Statement);
  submodules : list (string * Elaboratable)
}.

Definition new_Module : Module := mkModule [] [] [].

(** [m.domains += cd] *)
Definition add_domain (m : Module) (cd : ClockDomain) : Module :=
  mkModule (domains m ++ [cd]) (d m) (submodules m).

(** [m.d[domain] += stmts] *)
Definition add_statements (m : Module) (domain : string)
    (stmts : list Statement) : Module :=
  mkModule (domains m) (d m ++ map (fun s => (domain, s)) stmts)
           (submodules m).

(** [m.submodules.name = e] *)
Definition add_submodule (m : Module) (name : string) (e : Elaboratable)
    : Module :=
  mkModule (domains m) (d m) (submodules m ++ [(name, e)]).

(** ** [_check_stages] and the constructors *)

Definition _check_stages (stages : PyVal) : Result unit :=
  if negb (isinstance_int stages) || (int_value stages <? 1)%Z then
    Raise (mkExc TypeError
      "Synchronization stage count must be a positive integer, not {!r}"
      [stages])
  else if (int_value stages <? 2)%Z then
    Raise (mkExc ValueError
      "Synchronization stage count may not safely be less than 2" [])
  else Return tt.

Definition FFSynchronizer_init (i o : Signal) (o_domain : string)
    (reset : Z) (reset_less : bool) (stages : PyVal)
    (max_input_delay : PyVal) : Result FFSynchronizer :=
  _ <- _check_stages stages ;;
  Return (mkFFSynchronizer i o reset reset_less o_domain (int_value stages)
                           max_input_delay).

Definition AsyncFFSynchronizer_init (i : Signal) (o : Value)
    (domain : string) (stages : PyVal) (async_edge : string)
    (max_input_delay : PyVal) : Result AsyncFFSynchronizer :=
  _ <- _check_stages stages ;;
  if negb (String.eqb async_edge "pos" || String.eqb async_edge "neg") then
    Raise (mkExc ValueError
      "AsyncFFSynchronizer async edge must be one of 'pos' or 'neg', not {!r}"
      [PyStr async_edge])
  else
    Return (mkAsyncFFSynchronizer i o domain (int_value stages) async_edge
                                  max_input_delay).

Definition ResetSynchronizer_init (arst : Signal) (domain : string)
    (stages : PyVal) (max_input_delay : PyVal) : Result ResetSynchronizer :=
  _ <- _check_stages stages ;;
  Return (mkResetSynchronizer arst domain (int_value stages) max_input_delay).

Definition PulseSynchronizer_init (i_domain o_domain : string)
    (sync_stages : PyVal) (next : nat) : Result (PulseSynchronizer * nat) :=
  if negb (isinstance_int sync_stages) || (int_value sync_stages <? 1)%Z then
    Raise (mkExc TypeError
      "sync_stages must be a positive integer, not '{!r}'" [sync_stages])
  else
    let (i, next1) := default_Signal "i" next in
    let (o, next2) := default_Signal "o" next1 in
    Return (mkPulseSynchronizer i o i_domain o_domain sync_stages, next2).

(** ** Elaboration *)

Section Elaboration.

(** What a platform's override hook evaluates to; it belongs to the
    back end and is opaque here. *)
Variable Custom : Type.

(** The platform handle: [type(platform).__name__], the two hooks
    [cdc.py] looks up with [hasattr], and [get_reset_sync], which the
    docstring of [ResetSynchronizer] names; [None] is an absent
    attribute. *)
Record Platform : Type := mkPlatform {
  type_name : string;
  get_ff_sync : option (FFSynchronizer -> Custom);
  get_async_ff_sync : option (AsyncFFSynchronizer -> Custom);
  get_reset_sync : option (ResetSynchronizer -> Custom)
}.

(** Outcome of [elaborate]: the structure it built itself together
    with the advanced signal counter, an exception it raised, or the
    outcome of the platform hook it returned control to. *)
Inductive Elaboration (A : Type) : Type :=
| Built (a : A) (next : nat)
| Failed (e : Exception)
| Override (c : Custom).
Arguments Built {A} a next.
Arguments Failed {A} e.
Arguments Override {A} c.

(** The statements of [for i, o in zip(srcs, flops): ... o.eq(i)]. *)
Definition zip_eq (srcs : list Value) (flops : list Signal)
    : list Statement :=
  map (fun io => Assign (Sig (snd io)) (fst io)) (combine srcs flops).

Definition FFSynchronizer_elaborate (self : FFSynchronizer)
    (platform : Platform) (next : nat) : Elaboration Module :=
  match get_ff_sync platform with
  | Some hook => Override (hook self)
  | None =>
      if negb (is_None (ff_max_input_delay self)) then
        Failed (mkExc NotImplementedError
          "Platform '{}' does not support constraining input delay for FFSynchronizer"
          [PyStr (type_name platform)])
      else
        let m := new_Module in
        let (flops, next1) :=
          comprehension
            (fun index =>
               new_Signal (sig_shape (ff_i self)) (stage_name index)
                          (ff_reset self) (ff_reset_less self))
            (range (ff_stages self)) next in
        let m := add_statements m (ff_o_domain self)
                   (zip_eq (Sig (ff_i self) :: map Sig flops) flops) in
        match last_item flops with
        | Raise e => Failed e
        | Return final =>
            let m := add_statements m "comb"
                       [Assign (Sig (ff_o self)) (Sig final)] in
            Built m next1
        end
  end.

Definition AsyncFFSynchronizer_elaborate (self : AsyncFFSynchronizer)
    (platform : Platform) (next : nat) : Elaboration Module :=
  match get_async_ff_sync platform with
  | Some hook => Override (hook self)
  | None =>
      if negb (is_None (af_max_input_delay self)) then
        Failed (mkExc NotImplementedError
          "Platform '{}' does not support constraining input delay for AsyncFFSynchronizer"
          [PyStr (type_name platform)])
      else
        let m := new_Module in
        let (async_ff, next0) := new_ClockDomain "async_ff" true true next in
        let m := add_domain m async_ff in
        let (flops, next1) :=
          comprehension
            (fun index => new_Signal (unsigned 1) (stage_name index) 1 false)
            (range (af_stages self)) next0 in
        let m := add_statements m "async_ff"
                   (zip_eq (Const 0 :: map Sig flops) flops) in
        let m :=
          if String.eqb (af_edge self) "pos" then
            add_statements m "comb"
              [Assign (ResetSignal "async_ff") (Sig (af_i self))]
          else
            add_statements m "comb"
              [Assign (ResetSignal "async_ff") (Not (Sig (af_i self)))] in
        (* the elements of the list literal are evaluated in order:
           [ClockSignal(self._domain)] before [flops[-1]] *)
        match ClockSignal_init (af_domain self) with
        | Raise e => Failed e
        | Return clock =>
            match last_item flops with
            | Raise e => Failed e
            | Return final =>
                let m := add_statements m "comb"
                           [Assign (ClockSignal "async_ff") clock;
                            Assign (af_o self) (Sig final)] in
                Built m next1
            end
        end
  end.

(** [ResetSynchronizer.elaborate] returns another generator, which the
    framework elaborates in turn; the platform is not consulted.  The
    argument [ResetSignal(self._domain)] is evaluated before the
    constructor is entered. *)
Definition ResetSynchronizer_elaborate (self : ResetSynchronizer)
    (platform : Platform) : Result AsyncFFSynchronizer :=
  o <- ResetSignal_init (rs_domain self) ;;
  AsyncFFSynchronizer_init (rs_arst self) o
    (rs_domain self) (PyInt (rs_stages self)) "pos"
    (rs_max_input_delay self).

Definition PulseSynchronizer_elaborate (self : PulseSynchronizer)
    (platform : Platform) (next : nat) : Elaboration Module :=
  let m := new_Module in
  let (itoggle, next1) := default_Signal "itoggle" next in
  let (otoggle, next2) := default_Signal "otoggle" next1 in
  match FFSynchronizer_init itoggle otoggle (ps_o_domain self) 0 true
          (ps_sync_stages self) PyNone with
  | Raise e => Failed e
  | Return ff_sync =>
      let m := add_submodule m "ff_sync" (EFFSynchronizer ff_sync) in
      let (otoggle_prev, next3) := default_Signal "otoggle_prev" next2 in
      let m := add_statements m (ps_i_domain self)
                 [Assign (Sig itoggle) (Xor (Sig itoggle) (Sig (ps_i self)))] in
      let m := add_statements m (ps_o_domain self)
                 [Assign (Sig otoggle_prev) (Sig otoggle)] in
      let m := add_statements m "comb"
                 [Assign (Sig (ps_o self))
                         (Xor (Sig otoggle) (Sig otoggle_prev))] in
      Built m next3
  end.

End Elaboration.

Arguments mkPlatform {Custom}.
Arguments type_name {Custom}.
Arguments get_ff_sync {Custom}.
Arguments get_async_ff_sync {Custom}.
Arguments get_reset_sync {Custom}.
Arguments Built {Custom A}.
Arguments Failed {Custom A}.
Arguments Override {Custom A}.
Arguments FFSynchronizer_elaborate {Custom}.
Arguments AsyncFFSynchronizer_elaborate {Custom}.
Arguments ResetSynchronizer_elaborate {Custom}.
Arguments PulseSynchronizer_elaborate {Custom}.

(** ** The framework's side: inlining and a clocked semantics *)

(** A flat design: the domain declarations and the statements of a
    fragment and of everything inlined into it, and the generators
    whose implementation the platform supplies in place of the default
    structure ([overridden]); for such a generator [g] the fragment is
    the one the platform's hook returns for [g]. *)
Record Design : Type := mkDesign {
  decls : list ClockDomain;
  stmts : list (string * Statement);
  overridden : list Elaboratable
}.

Definition design_of (m : Module) : Design := mkDesign (domains m) (d m) [].

Definition inline (parent child : Design) : Design :=
  mkDesign (decls parent ++ decls child) (stmts parent ++ stmts child)
           (overridden parent ++ overridden child).

(** The declarations of the enclosing design ([ctx]) come after the
    fragment's own, so a local domain shadows an outer one. *)
Definition in_context (ctx : list ClockDomain) (D : Design) : Design :=
  mkDesign (decls D ++ ctx) (stmts D) (overridden D).

Section Inlining.

Variable Custom : Type.

(** Modelled from the spec: the host framework's elaboration loop,
    which is not under [src/] ("each generator ... produces a
    self-contained hardware fragment ... that the caller's elaboration
    framework inlines into the final design").  It calls [elaborate]
    until a module is returned, then elaborates and inlines the
    submodules against the same platform.  A generator whose
    [elaborate] hands over to a platform hook contributes the hook's
    fragment in place of a structure of its own: it is recorded under
    [overridden], and what the enclosing module declared and assigned
    is kept.  The counter follows the signals [cdc.py] creates; what a
    hook creates is the back end's business.  [fuel] bounds the
    nesting depth. *)
Fixpoint Fragment_get (fuel : nat) (obj : Elaboratable)
    (platform : Platform Custom) (next : nat) : Elaboration Custom Design :=
  match fuel with
  | 0 => Failed (mkExc NotImplementedError "elaboration nested too deeply" [])
  | S fuel' =>
      let inline_submodules (r : Elaboration Custom Module) :=
        match r with
        | Failed e => Failed e
        | Override _ => Built (mkDesign [] [] [obj]) next
        | Built m next1 =>
            fold_left
              (fun (acc : Elaboration Custom Design) (sub : string * Elaboratable) =>
                 match acc with
                 | Built D n1 =>
                     match Fragment_get fuel' (snd sub) platform n1 with
                     | Built Dsub n2 => Built (inline D Dsub) n2
                     | other => other
                     end
                 | other => other
                 end)
              (submodules m) (Built (design_of m) next1)
        end in
      match obj with
      | EFFSynchronizer f =>
          inline_submodules (FFSynchronizer_elaborate f platform next)
      | EAsyncFFSynchronizer a =>
          inline_submodules (AsyncFFSynchronizer_elaborate a platform next)
      | EResetSynchronizer r =>
          match ResetSynchronizer_elaborate r platform with
          | Raise e => Failed e
          | Return a =>
              Fragment_get fuel' (EAsyncFFSynchronizer a) platform next
          end
      | EPulseSynchronizer p =>
          inline_submodules (PulseSynchronizer_elaborate p platform next)
      end
  end.

End Inlining.

Arguments Fragment_get {Custom}.

(** Storage locations: a signal, or the clock or reset wire of a
    domain. *)
Inductive Loc : Type :=
| LSig (uid : nat)
| LClk (domain : string)
| LRst (domain : string).

Definition Loc_eqb (a b : Loc) : bool :=
  match a, b with
  | LSig x, LSig y => Nat.eqb x y
  | LClk x, LClk y => String.eqb x y
  | LRst x, LRst y => String.eqb x y
  | _, _ => false
  end.

Definition Env : Type := Loc -> Z.

Definition upd (env : Env) (l : Loc) (v : Z) : Env :=
  fun l' => if Loc_eqb l l' then v else env l'.

Fixpoint eval (env : Env) (e : Value) : Z :=
  match e with
  | Const v => v
  | Sig s => env (LSig (uid s))
  | ClockSignal dom => env (LClk dom)
  | ResetSignal dom => env (LRst dom)
  | Not a => Z.lnot (eval env a)
  | Xor a b => Z.lxor (eval env a) (eval env b)
  end.

(** The value a wire of the given shape holds when [v] is assigned to
    it: reduction modulo [2^width], two's complement when signed. *)
Definition wrap (sh : Shape) (v : Z) : Z :=
  let m := (2 ^ Z.of_nat (width sh))%Z in
  if signed sh then (((v + m / 2) mod m) - m / 2)%Z else (v mod m)%Z.

(** The location an assignable value names, and its shape. *)
Definition target (lhs : Value) : option (Loc * Shape) :=
  match lhs with
  | Sig s => Some (LSig (uid s), sig_shape s)
  | ClockSignal dom => Some (LClk dom, unsigned 1)
  | ResetSignal dom => Some (LRst dom, unsigned 1)
  | _ => None
  end.

Definition drives (l : Loc) (st : Statement) : bool :=
  match st with
  | Assign lhs _ =>
      match target lhs with
      | Some (l', _) => Loc_eqb l' l
      | None => false
      end
  end.

(** The statement that determines [l] among those in a domain
    selected by [sel]: the last one added wins. *)
Fixpoint driver (sel : string -> bool) (l : Loc)
    (sts : list (string * Statement)) : option (string * Statement) :=
  match sts with
  | [] => None
  | st :: rest =>
      match driver sel l rest with
      | Some found => Some found
      | None => if sel (fst st) && drives l (snd st) then Some st else None
      end
  end.

Definition is_comb (dom : string) : bool := String.eqb dom "comb".

Definition is_async (D : Design) (dom : string) : bool :=
  match find (fun cd => String.eqb (cd_name cd) dom) (decls D) with
  | Some cd => cd_async_reset cd
  | None => false
  end.

(** Modelled from the spec: which clock reaches a domain ("a private
    domain whose clock equals the destination domain's clock"); the
    resolution of domain names belongs to the host framework.  A clock
    wire no statement of the design drives is driven from outside, by
    the clock of its name.  [ClockSignal(a).eq(ClockSignal(b))] ties
    the clock of [a] to the one of [b], so [a] runs on whatever [b]
    runs on; a clock tied to itself, directly or around a cycle, runs
    on nothing, and neither does a clock driven by anything but another
    clock.  Every tie uses up a statement, so one more step than there
    are statements reaches the end of every chain of ties that has
    one. *)
Fixpoint clock_root (D : Design) (fuel : nat) (dom : string)
    : option string :=
  match fuel with
  | 0 => None
  | S fuel' =>
      match driver is_comb (LClk dom) (stmts D) with
      | Some (_, Assign _ (ClockSignal src)) => clock_root D fuel' src
      | Some _ => None
      | None => Some dom
      end
  end.

Definition clocked_by (D : Design) (clk dom : string) : bool :=
  negb (is_comb dom) &&
  match clock_root D (S (List.length (stmts D))) dom with
  | Some root => String.eqb root clk
  | None => false
  end.

(** The reset value a register is forced to while the reset of its
    domain is asserted, unless the register is reset-exempt. *)
Definition in_reset (env : Env) (dom : string) (lhs : Value) : option Z :=
  match lhs with
  | Sig s =>
      if negb (sig_reset_less s) && negb (env (LRst dom) =? 0)%Z
      then Some (wrap (sig_shape s) (sig_reset s))
      else None
  | _ => None
  end.

Definition assigned (env : Env) (lhs rhs : Value) (old : Z) : Z :=
  match target lhs with
  | Some (_, sh) => wrap sh (eval env rhs)
  | None => old
  end.

(** Modelled from the spec: the semantics of synchronous statements,
    which belongs to the host framework ("within one clock domain, the
    described register chain updates once per clock edge").  On an edge
    of [clk] every register of a domain running on [clk] takes the value
    of its right-hand side before the edge, or its reset value when the
    domain's reset is asserted and the register is not exempt ("a
    non-exempt chain is cleared whenever the destination domain resets",
    "a reset-exempt chain ... ignores the destination domain's runtime
    reset"). *)
Definition clock_edge (D : Design) (clk : string) (env : Env) : Env :=
  fun l =>
    match driver (clocked_by D clk) l (stmts D) with
    | Some (dom, Assign lhs rhs) =>
        match in_reset env dom lhs with
        | Some r => r
        | None => assigned env lhs rhs (env l)
        end
    | None => env l
    end.

(** Modelled from the spec: a domain whose reset is asynchronous holds
    its registers at their reset values for as long as the reset is
    asserted, without waiting for a clock edge ("assertion of the source
    immediately forces every stage back to 1"). *)
Definition async_reset (D : Design) (env : Env) : Env :=
  fun l =>
    match driver (fun dom => negb (is_comb dom) && is_async D dom) l
                 (stmts D) with
    | Some (dom, Assign lhs _) =>
        match in_reset env dom lhs with
        | Some r => r
        | None => env l
        end
    | None => env l
    end.

Definition comb_step (env : Env) (st : string * Statement) : Env :=
  match st with
  | (dom, Assign lhs rhs) =>
      if is_comb dom then
        match target lhs with
        | Some (l, sh) => upd env l (wrap sh (eval env rhs))
        | None => env
        end
      else env
  end.

Definition comb_pass (D : Design) (env : Env) : Env :=
  fold_left comb_step (stmts D) env.

(** Modelled from the spec: "combinational outputs settle immediately
    in the same cycle".  The combinational statements are applied in
    order, as many times as there are statements, which lets a value
    cross any acyclic chain of them. *)
Definition settle (D : Design) (env : Env) : Env :=
  Nat.iter (List.length (stmts D)) (comb_pass D) env.

Definition react (D : Design) (env : Env) : Env :=
  settle D (async_reset D (settle D env)).

(** What can happen to a design: a rising edge of a clock, or a change
    of a wire driven from outside. *)
Inductive Event : Type :=
| Tick (clk : string)
| Drive (l : Loc) (v : Z).

Definition step (D : Design) (env : Env) (ev : Event) : Env :=
  match ev with
  | Tick clk => react D (clock_edge D clk env)
  | Drive l v => react D (upd env l v)
  end.

Definition run (D : Design) (evs : list Event) (env : Env) : Env :=
  fold_left (step D) evs env.

(** The value a signal holds as long as nothing drives it: its reset
    value. *)
Definition at_rest (s : Signal) : Z := wrap (sig_shape s) (sig_reset s).

(** Modelled from the spec: the power-on state.  Every register
    holds its reset value ("a reset-exempt chain holds
    power-on/configuration-time initialization"), every wire the design
    has no register for holds what the surrounding design [ext] puts
    on it (for a signal nothing drives that is its own reset value,
    [at_rest]), and the combinational statements have settled. *)
Definition power_on (D : Design) (ext : Env) : Env :=
  settle D (fun l =>
    match driver (fun dom => negb (is_comb dom)) l (stmts D) with
    | Some (_, Assign (Sig s) _) => at_rest s
    | _ => ext l
    end).

(** ** The structures the generators are expected to build *)

(** A register chain in [dom]: stage 0 is fed by [first], every later
    stage by the stage before it. *)
Definition chain (dom : string) (first : Value) (stage : nat -> Signal)
    (n : nat) : list (string * Statement) :=
  map (fun k => (dom, Assign (Sig (stage k))
                        match k with
                        | 0 => first
                        | S j => Sig (stage j)
                        end))
      (seq 0 n).

(** Stage [k] of an [FFSynchronizer] elaborated from counter [next]. *)
Definition ff_stage (self : FFSynchronizer) (next k : nat) : Signal :=
  mkSignal (next + k) (sig_shape (ff_i self)) (stage_name k)
           (ff_reset self) (ff_reset_less self).

(** The private domain of an [AsyncFFSynchronizer] elaborated from
    counter [next], with its clock and reset signals. *)
Definition af_domain_decl (next : nat) : ClockDomain :=
  mkClockDomain "async_ff"
    (mkSignal next (unsigned 1) "async_ff_clk" 0 false)
    (mkSignal (S next) (unsigned 1) "async_ff_rst" 0 false)
    true true.

(** Stage [k] of an [AsyncFFSynchronizer] whose first register is the
    signal [base]: two past the counter the elaboration starts from. *)
Definition af_stage (base k : nat) : Signal :=
  mkSignal (base + k) (unsigned 1) (stage_name k) 1 false.

(** The signal that resets the private domain: the source, inverted
    unless the edge is ["pos"]. *)
Definition af_trigger (self : AsyncFFSynchronizer) : Value :=
  if String.eqb (af_edge self) "pos" then Sig (af_i self)
  else Not (Sig (af_i self)).

Definition ff_module (self : FFSynchronizer) (next : nat) : Module :=
  let n := Z.to_nat (ff_stages self) in
  mkModule []
    (chain (ff_o_domain self) (Sig (ff_i self)) (ff_stage self next) n ++
     [("comb", Assign (Sig (ff_o self)) (Sig (ff_stage self next (n - 1))))])
    [].

Definition af_module (self : AsyncFFSynchronizer) (next : nat) : Module :=
  let n := Z.to_nat (af_stages self) in
  let base := S (S next) in
  mkModule [af_domain_decl next]
    (chain "async_ff" (Const 0) (af_stage base) n ++
     [("comb", Assign (ResetSignal "async_ff") (af_trigger self));
      ("comb", Assign (ClockSignal "async_ff") (ClockSignal (af_domain self)));
      ("comb", Assign (af_o self) (Sig (af_stage base (n - 1))))])
    [].

(** The three signals [PulseSynchronizer.elaborate] creates. *)
Definition ps_itoggle (next : nat) : Signal :=
  mkSignal next (unsigned 1) "itoggle" 0 false.
Definition ps_otoggle (next : nat) : Signal :=
  mkSignal (S next) (unsigned 1) "otoggle" 0 false.
Definition ps_otoggle_prev (next : nat) : Signal :=
  mkSignal (S (S next)) (unsigned 1) "otoggle_prev" 0 false.

(** The internal synchronizer of a [PulseSynchronizer] with [n]
    stages. *)
Definition ps_ff_sync (self : PulseSynchronizer) (next : nat) (n : Z)
    : FFSynchronizer :=
  mkFFSynchronizer (ps_itoggle next) (ps_otoggle next) 0 true
                   (ps_o_domain self) n PyNone.

Definition ps_module (self : PulseSynchronizer) (next : nat) (n : Z)
    : Module :=
  mkModule []
    [(ps_i_domain self,
      Assign (Sig (ps_itoggle next))
             (Xor (Sig (ps_itoggle next)) (Sig (ps_i self))));
     (ps_o_domain self,
      Assign (Sig (ps_otoggle_prev next)) (Sig (ps_otoggle next)));
     ("comb",
      Assign (Sig (ps_o self))
             (Xor (Sig (ps_otoggle next)) (Sig (ps_otoggle_prev next))))]
    [("ff_sync", EFFSynchronizer (ps_ff_sync self next n))].

(** Whether a clock edge or an asynchronous reset puts the chain in its
    reset state. *)
Definition ff_resetting (self : FFSynchronizer) (env : Env) : bool :=
  negb (ff_reset_less self) && negb (env (LRst (ff_o_domain self)) =? 0)%Z.

(** The source levels that assert and release an
    [AsyncFFSynchronizer]: high asserts when the edge is ["pos"], low
    otherwise. *)
Definition af_assert_level (self : AsyncFFSynchronizer) : Z :=
  if String.eqb (af_edge self) "pos" then 1%Z else 0%Z.
Definition af_release_level (self : AsyncFFSynchronizer) : Z :=
  if String.eqb (af_edge self) "pos" then 0%Z else 1%Z.

(** The value the private domain's reset wire settles to. *)
Definition af_reset_wire (self : AsyncFFSynchronizer) (env : Env) : Z :=
  wrap (unsigned 1) (eval env (af_trigger self)).

(** Wires the combinational statements of an [AsyncFFSynchronizer]
    whose output is [out] do not write. *)
Definition af_untouched (out l : Loc) : Prop :=
  l <> LRst "async_ff" /\ l <> LClk "async_ff" /\ l <> out.

(** The flat design of a [PulseSynchronizer] with [n] stages elaborated
    from counter [next]: its own module, then the default structure of
    its internal synchronizer. *)
Definition ps_design (self : PulseSynchronizer) (next : nat) (n : Z)
    : Design :=
  inline (design_of (ps_module self next n))
         (design_of (ff_module (ps_ff_sync self next n) (S (S (S next))))).

(** The events of a list of clock edges. *)
Definition ticks (clks : list string) : list Event := map Tick clks.

(** How many edges of [clk] a list of clock edges holds. *)
Definition edges_of (clk : string) (clks : list string) : nat :=
  List.length (filter (String.eqb clk) clks).

(** The state of a [PulseSynchronizer] design with [n] stages whose
    toggle went from [told] to [tnew], [k] destination edges ago: the
    input is at [iv], no reset is asserted, the new value has entered
    the first [k] stages, reaches the resynchronized toggle at edge [n]
    and its delayed copy one edge later. *)
Definition ps_state (self : PulseSynchronizer) (next n : nat)
    (iv told tnew : Z) (k : nat) (env : Env) : Prop :=
  env (LSig (uid (ps_i self))) = iv /\
  env (LRst (ps_i_domain self)) = 0%Z /\
  env (LRst (ps_o_domain self)) = 0%Z /\
  env (LSig next) = tnew /\
  (forall j, j < n ->
     env (LSig (S (S (S next)) + j)) = if Nat.ltb j k then tnew else told) /\
  env (LSig (S (S next))) = (if Nat.ltb n k then tnew else told) /\
  env (LSig (S next)) = (if Nat.leb n k then tnew else told) /\
  env (LSig (uid (ps_o self))) =
    wrap (unsigned 1)
      (Z.lxor (env (LSig (S next))) (env (LSig (S (S next))))).

(** A quiescent [PulseSynchronizer]: input low, every register at the
    toggle value [t]. *)
Definition ps_idle (self : PulseSynchronizer) (next n : nat) (t : Z)
    (env : Env) : Prop :=
  ps_state self next n 0 t t 0 env.

(** A platform without hooks, such as the [None] a simulation passes. *)
Definition no_platform : Platform unit :=
  mkPlatform "NoneType" None None None.

(** ** Sample inputs *)

Definition sample_i : Signal := mkSignal 0 (unsigned 1) "i" 0 false.
Definition sample_o : Signal := mkSignal 1 (unsigned 1) "o" 0 false.

(** A source signal that rests high. *)
Definition sample_high : Signal := mkSignal 0 (unsigned 1) "i" 1 false.

(** Every wire low. *)
Definition quiet : Env := fun _ => 0%Z.

(** Every wire low but the source, which rests high. *)
Definition source_high : Env :=
  fun l => match l with LSig 0 => 1%Z | _ => 0%Z end.

(** A back end that overrides both synchronizers with named cells,
    and offers a reset synchronizer cell as well. *)
Definition vendor_platform : Platform string :=
  mkPlatform "VendorPlatform"
    (Some (fun _ => "vendor ff_sync cell"))
    (Some (fun _ => "vendor async_ff_sync cell"))
    (Some (fun _ => "vendor reset_sync cell")).

(** A back end whose only hook is the one the docstring of
    [ResetSynchronizer] names. *)
Definition reset_only_platform : Platform string :=
  mkPlatform "ResetOnlyPlatform" None None
             (Some (fun _ => "reset_sync cell")).

(** Back ends that override one synchronizer only. *)
Definition ff_only_platform : Platform string :=
  mkPlatform "FFOnlyPlatform" (Some (fun _ => "ff_sync cell")) None None.
Definition async_only_platform : Platform string :=
  mkPlatform "AsyncOnlyPlatform" None (Some (fun _ => "async_ff_sync cell"))
             None.

(** Input low, no reset asserted, every other signal high. *)
Definition charged : Env :=
  fun l =>
    match l with
    | LSig 0 => 0%Z
    | LSig _ => 1%Z
    | _ => 0%Z
    end.

(** The generators of the scenarios: three stages, reset value 1, not
    reset-exempt; three asynchronous stages; a reset synchronizer and a
    pulse synchronizer of two stages. *)
Definition sample_ff : FFSynchronizer :=
  mkFFSynchronizer sample_i sample_o 1 false "sync" 3 PyNone.
Definition sample_af : AsyncFFSynchronizer :=
  mkAsyncFFSynchronizer sample_i (Sig sample_o) "sync" 3 "pos" PyNone.
Definition sample_rs : ResetSynchronizer :=
  mkResetSynchronizer sample_i "sync" 2 PyNone.
Definition sample_ps : PulseSynchronizer :=
  mkPulseSynchronizer sample_i sample_o "a" "b" (PyInt 2).

(** The same synchronizers with a max-input-delay of 1e-9 s requested. *)
Definition delayed_ff : FFSynchronizer :=
  mkFFSynchronizer sample_i sample_o 0 true "sync" 2 (PyFloat 1 (-30)).
Definition delayed_af : AsyncFFSynchronizer :=
  mkAsyncFFSynchronizer sample_i (Sig sample_o) "sync" 2 "pos"
                        (PyFloat 1 (-30)).


(** Synchronizers whose source rests high. *)
Definition high_af : AsyncFFSynchronizer :=
  mkAsyncFFSynchronizer sample_high (Sig sample_o) "sync" 3 "pos" PyNone.
Definition high_rs : ResetSynchronizer :=
  mkResetSynchronizer sample_high "sync" 2 PyNone.

(** ** Further vocabulary for the properties *)

(** The signals a module assigns under a clocked domain: its
    registers, in the order of their statements. *)
Definition registers (m : Module) : list Signal :=
  flat_map (fun st =>
              match st with
              | (dom, Assign (Sig s) _) => if is_comb dom then [] else [s]
              | _ => []
              end)
           (d m).

(** The events of an input that takes the values [vs] one after the
    other, each sampled by one edge of [clk]. *)
Definition sampled (i : Signal) (clk : string) (vs : list Z) : list Event :=
  flat_map (fun v => [Drive (LSig (uid i)) v; Tick clk]) vs.

(** The events of an input pulse of a [PulseSynchronizer]: the input
    is raised, the clock edges [pre] pass, one source edge samples the
    input, the edges [mid] pass, the input is lowered, the edges [post]
    pass.  The pulse lasts one source cycle when no source edge is among
    [pre] and [mid]; destination edges may fall anywhere. *)
Definition pulse (self : PulseSynchronizer) (pre mid post : list string)
    : list Event :=
  Drive (LSig (uid (ps_i self))) 1 :: ticks pre ++
  Tick (ps_i_domain self) :: ticks mid ++
  Drive (LSig (uid (ps_i self))) 0 :: ticks post.

(** The events of an input held high over two source edges in a row. *)
Definition double_pulse (self : PulseSynchronizer) : list Event :=
  [Drive (LSig (uid (ps_i self))) 1; Tick (ps_i_domain self);
   Tick (ps_i_domain self); Drive (LSig (uid (ps_i self))) 0].

(** * Properties *)

(** ** Lists, signals and the chain *)

Lemma comprehension_seq (sh : Shape) (nm : nat -> string) (r : Z)
    (rl : bool) (n a c : nat) :
  comprehension (fun index => new_Signal sh (nm index) r rl) (seq a n) c =
  (map (fun k => mkSignal (c + k) sh (nm (a + k)) r rl) (seq 0 n), c + n).
Proof.
  revert a c. induction n as [|n IH]; intros a c; simpl.
  - now rewrite Nat.add_0_r.
  - rewrite IH. unfold new_Signal. rewrite !Nat.add_0_r. f_equal.
    + f_equal. rewrite <- seq_shift, map_map. apply map_ext. intros k.
      now rewrite !Nat.add_succ_r.
    + lia.
Qed.

Lemma zip_eq_chain (dom : string) (first : Value) (stage : nat -> Signal)
    (n : nat) :
  map (fun s => (dom, s))
      (zip_eq (first :: map Sig (map stage (seq 0 n))) (map stage (seq 0 n))) =
  chain dom first stage n.
Proof.
  unfold chain, zip_eq.
  assert (G : forall a src,
    map (fun s => (dom, s))
      (map (fun io => Assign (Sig (snd io)) (fst io))
         (combine (src :: map Sig (map stage (seq a n))) (map stage (seq a n)))) =
    map (fun k => (dom, Assign (Sig (stage k))
                          (if Nat.eqb k a then src else Sig (stage (k - 1)))))
        (seq a n)).
  { induction n as [|n IH]; intros a src; [reflexivity|].
    cbn [seq map combine fst snd]. rewrite Nat.eqb_refl. f_equal.
    change (map (fun s => (dom, s))
              (map (fun io : Value * Signal => Assign (Sig (snd io)) (fst io))
                 (combine (Sig (stage a) :: map Sig (map stage (seq (S a) n)))
                    (map stage (seq (S a) n)))) =
            map (fun k => (dom, Assign (Sig (stage k))
                     (if Nat.eqb k a then src else Sig (stage (k - 1)))))
                (seq (S a) n)).
    rewrite (IH (S a) (Sig (stage a))).
    apply map_ext_in. intros k Hk. apply in_seq in Hk.
    destruct (Nat.eqb_spec k a); [lia|].
    destruct (Nat.eqb_spec k (S a)) as [->|Hne]; [|reflexivity].
    simpl. now rewrite Nat.sub_0_r. }
  rewrite G. apply map_ext. intros [|k]; simpl; [reflexivity|].
  now rewrite Nat.sub_0_r.
Qed.

Lemma last_item_stages (stage : nat -> Signal) (n : nat) :
  last_item (map stage (seq 0 (S n))) = Return (stage n).
Proof.
  unfold last_item. rewrite seq_S, map_app, rev_app_distr. reflexivity.
Qed.

Lemma chain_length dom first stage n :
  List.length (chain dom first stage n) = n.
Proof. unfold chain. now rewrite length_map, length_seq. Qed.

Lemma chain_S dom first stage n :
  chain dom first stage (S n) =
  chain dom first stage n ++
  [(dom, Assign (Sig (stage n))
           match n with 0 => first | S j => Sig (stage j) end)].
Proof. unfold chain. now rewrite seq_S, map_app. Qed.

(** ** [_check_stages] *)

Lemma check_stages_accepts (stages : PyVal) :
  _check_stages stages = Return tt <->
  exists z, stages = PyInt z /\ (2 <= z)%Z.
Proof.
  unfold _check_stages. split.
  - destruct stages as [z|[|]| | |]; simpl; try discriminate.
    destruct (Z.ltb_spec z 1); simpl; [discriminate|].
    destruct (Z.ltb_spec z 2); [discriminate|]. intros _. now exists z.
  - intros (z & -> & Hz). simpl.
    destruct (Z.ltb_spec z 1); [lia|]. simpl.
    destruct (Z.ltb_spec z 2); [lia|reflexivity].
Qed.

Lemma check_stages_int (z : Z) :
  _check_stages (PyInt z) =
  if (z <? 1)%Z then
    Raise (mkExc TypeError
      "Synchronization stage count must be a positive integer, not {!r}"
      [PyInt z])
  else if (z <? 2)%Z then
    Raise (mkExc ValueError
      "Synchronization stage count may not safely be less than 2" [])
  else Return tt.
Proof. reflexivity. Qed.

(** ** Default elaboration, in closed form *)

Lemma FFSynchronizer_elaborate_default {Custom : Type}
    (self : FFSynchronizer) (platform : Platform Custom) (next : nat) :
  get_ff_sync platform = None ->
  ff_max_input_delay self = PyNone ->
  (1 <= ff_stages self)%Z ->
  FFSynchronizer_elaborate self platform next =
  Built (ff_module self next) (next + Z.to_nat (ff_stages self)).
Proof.
  intros Hhook Hmid Hn. unfold FFSynchronizer_elaborate, ff_module.
  rewrite Hhook, Hmid. cbn [is_None negb]. unfold range.
  rewrite comprehension_seq.
  destruct (Z.to_nat (ff_stages self)) as [|n] eqn:En; [lia|].
  change (map (fun k : nat => mkSignal (next + k) (sig_shape (ff_i self))
            (stage_name (0 + k)) (ff_reset self) (ff_reset_less self)))
    with (map (ff_stage self next)).
  rewrite last_item_stages. unfold add_statements, new_Module. cbn [d domains submodules].
  rewrite zip_eq_chain. simpl app at 1. rewrite Nat.sub_succ, Nat.sub_0_r.
  reflexivity.
Qed.

Lemma AsyncFFSynchronizer_elaborate_default {Custom : Type}
    (self : AsyncFFSynchronizer) (platform : Platform Custom) (next : nat) :
  get_async_ff_sync platform = None ->
  af_max_input_delay self = PyNone ->
  af_domain self <> "comb" ->
  (1 <= af_stages self)%Z ->
  AsyncFFSynchronizer_elaborate self platform next =
  Built (af_module self next) (S (S next) + Z.to_nat (af_stages self)).
Proof.
  intros Hhook Hmid Hdom Hn.
  unfold AsyncFFSynchronizer_elaborate, af_module, ClockSignal_init.
  rewrite Hhook, Hmid. cbn [is_None negb]. unfold range.
  destruct (String.eqb_spec (af_domain self) "comb") as [E|_]; [easy|].
  change (new_ClockDomain "async_ff" true true next)
    with (af_domain_decl next, S (S next)).
  cbv beta iota. rewrite comprehension_seq.
  destruct (Z.to_nat (af_stages self)) as [|n] eqn:En; [lia|].
  change (map (fun k : nat => mkSignal (S (S next) + k) (unsigned 1)
            (stage_name (0 + k)) 1 false))
    with (map (af_stage (S (S next)))).
  rewrite last_item_stages. unfold af_trigger.
  destruct (String.eqb (af_edge self) "pos");
    unfold add_statements, add_domain, new_Module;
    cbn [d domains submodules]; rewrite zip_eq_chain;
    simpl app at 1; rewrite Nat.sub_succ, Nat.sub_0_r;
    rewrite <- !app_assoc; reflexivity.
Qed.

(** ** Locations, environments and wrapping *)

Lemma Loc_eqb_spec (a b : Loc) : reflect (a = b) (Loc_eqb a b).
Proof.
  destruct a as [x|x|x], b as [y|y|y]; simpl; try (constructor; discriminate).
  - destruct (Nat.eqb_spec x y); constructor; congruence.
  - destruct (String.eqb_spec x y); constructor; congruence.
  - destruct (String.eqb_spec x y); constructor; congruence.
Qed.

Lemma Loc_eqb_refl (a : Loc) : Loc_eqb a a = true.
Proof. destruct (Loc_eqb_spec a a); congruence. Qed.

Lemma Loc_eqb_neq (a b : Loc) : a <> b -> Loc_eqb a b = false.
Proof. destruct (Loc_eqb_spec a b); congruence. Qed.

Lemma upd_same (env : Env) l v : upd env l v l = v.
Proof. unfold upd. now rewrite Loc_eqb_refl. Qed.

Lemma upd_other (env : Env) l v l' : l <> l' -> upd env l v l' = env l'.
Proof. intros H. unfold upd. now rewrite Loc_eqb_neq. Qed.

Lemma wrap_idem (sh : Shape) (v : Z) : wrap sh (wrap sh v) = wrap sh v.
Proof.
  unfold wrap. set (m := (2 ^ Z.of_nat (width sh))%Z).
  assert (Hm : (0 < m)%Z) by (apply Z.pow_pos_nonneg; lia).
  destruct (signed sh).
  - rewrite Z.sub_add. now rewrite Z.mod_mod by lia.
  - now rewrite Z.mod_mod by lia.
Qed.

Lemma wrap_bit (v : Z) : wrap (unsigned 1) v = (v mod 2)%Z.
Proof. reflexivity. Qed.

Lemma wrap_fits (sh : Shape) (v : Z) :
  signed sh = false -> (0 <= v < 2 ^ Z.of_nat (width sh))%Z -> wrap sh v = v.
Proof. intros Hs Hv. unfold wrap. rewrite Hs. now apply Z.mod_small. Qed.

(** ** The driver of a location *)

Lemma driver_app sel l (A B : list (string * Statement)) :
  driver sel l (A ++ B) =
  match driver sel l B with
  | Some found => Some found
  | None => driver sel l A
  end.
Proof.
  induction A as [|st A IH]; simpl.
  - now destruct (driver sel l B).
  - rewrite IH. now destruct (driver sel l B).
Qed.

Lemma driver_single sel l (st : string * Statement) :
  driver sel l [st] =
  if sel (fst st) && drives l (snd st) then Some st else None.
Proof. reflexivity. Qed.

Lemma clocked_by_comb (D : Design) (clk : string) :
  clocked_by D clk "comb" = false.
Proof. reflexivity. Qed.

Lemma driver_unselected sel l (sts : list (string * Statement)) :
  (forall st, In st sts -> sel (fst st) = false) -> driver sel l sts = None.
Proof.
  induction sts as [|st sts IH]; intros H; simpl; [reflexivity|].
  rewrite IH by (intros; apply H; now right).
  now rewrite (H st (or_introl Logic.eq_refl)).
Qed.

Lemma driver_undriven sel l (sts : list (string * Statement)) :
  (forall st, In st sts -> drives l (snd st) = false) -> driver sel l sts = None.
Proof.
  induction sts as [|st sts IH]; intros H; simpl; [reflexivity|].
  rewrite IH by (intros; apply H; now right).
  rewrite (H st (or_introl Logic.eq_refl)). now rewrite andb_false_r.
Qed.

Lemma in_chain dom first stage n st :
  In st (chain dom first stage n) ->
  exists k, k < n /\
    st = (dom, Assign (Sig (stage k))
                 match k with 0 => first | S j => Sig (stage j) end).
Proof.
  unfold chain. rewrite in_map_iff. intros (k & <- & Hk).
  apply in_seq in Hk. exists k. split; [lia|reflexivity].
Qed.

Section ChainDriver.

Variables (dom : string) (first : Value) (stage : nat -> Signal) (c : nat).
Hypothesis stage_uid : forall k, uid (stage k) = c + k.

Lemma driver_chain_hit sel n k :
  k < n -> sel dom = true ->
  driver sel (LSig (c + k)) (chain dom first stage n) =
  Some (dom, Assign (Sig (stage k))
               match k with 0 => first | S j => Sig (stage j) end).
Proof.
  intros Hk Hsel. induction n as [|n IH]; [lia|].
  rewrite chain_S, driver_app. simpl driver at 1.
  cbn [fst snd drives target]. rewrite Hsel, stage_uid. cbn [Loc_eqb andb].
  destruct (Nat.eqb_spec (c + n) (c + k)) as [E|E].
  - assert (n = k) by lia. now subst.
  - apply IH. lia.
Qed.

Lemma driver_chain_miss sel n l :
  (forall k, k < n -> l <> LSig (c + k)) ->
  driver sel l (chain dom first stage n) = None.
Proof.
  intros H. apply driver_undriven. intros st Hst.
  apply in_chain in Hst. destruct Hst as (k & Hk & ->).
  cbn [snd drives target]. rewrite stage_uid.
  apply Loc_eqb_neq. intros E. now apply (H k Hk).
Qed.

Lemma driver_chain_unselected sel n l :
  sel dom = false -> driver sel l (chain dom first stage n) = None.
Proof.
  intros H. apply driver_unselected. intros st Hst.
  apply in_chain in Hst. now destruct Hst as (k & Hk & ->).
Qed.

Lemma comb_chain n env :
  is_comb dom = false ->
  fold_left comb_step (chain dom first stage n) env = env.
Proof.
  intros H. induction n as [|n IH]; [reflexivity|].
  rewrite chain_S, fold_left_app, IH. simpl. now rewrite H.
Qed.

End ChainDriver.

(** ** The default [FFSynchronizer] structure, clocked *)

Section FFDesign.

Variables (f : FFSynchronizer) (c : nat) (ctx : list ClockDomain).

Let n := Z.to_nat (ff_stages f).
Let dom := ff_o_domain f.
Let D := in_context ctx (design_of (ff_module f c)).
Let sh := sig_shape (ff_i f).
Let final := LSig (c + (n - 1)).
Let out := LSig (uid (ff_o f)).

Hypothesis stages_pos : 1 <= n.
Hypothesis i_outside : uid (ff_i f) < c.
Hypothesis o_outside : uid (ff_o f) < c.
Hypothesis clocked_domain : is_comb dom = false.

Lemma FF_stmts :
  stmts D =
  chain dom (Sig (ff_i f)) (ff_stage f c) n ++
  [("comb", Assign (Sig (ff_o f)) (Sig (ff_stage f c (n - 1))))].
Proof. reflexivity. Qed.

Lemma FF_stage_uid k : uid (ff_stage f c k) = c + k.
Proof. reflexivity. Qed.

Lemma FF_no_clock_driver dom' :
  driver is_comb (LClk dom') (stmts D) = None.
Proof.
  rewrite FF_stmts, driver_app. simpl driver at 1.
  now apply driver_chain_unselected.
Qed.

Lemma FF_clocked clk dom' :
  clocked_by D clk dom' = negb (is_comb dom') && String.eqb dom' clk.
Proof.
  unfold clocked_by. f_equal. cbn [clock_root].
  now rewrite FF_no_clock_driver.
Qed.

Lemma FF_in_reset env k :
  in_reset env dom (Sig (ff_stage f c k)) =
  if ff_resetting f env then Some (wrap sh (ff_reset f)) else None.
Proof. reflexivity. Qed.

Lemma FF_clock_edge_stage env k :
  k < n ->
  clock_edge D dom env (LSig (c + k)) =
  if ff_resetting f env then wrap sh (ff_reset f)
  else wrap sh (eval env match k with
                         | 0 => Sig (ff_i f)
                         | S j => Sig (ff_stage f c j)
                         end).
Proof.
  intros Hk. unfold clock_edge. rewrite FF_stmts, driver_app.
  rewrite driver_single. cbn [fst snd]. rewrite clocked_by_comb. cbn [andb].
  rewrite (driver_chain_hit dom _ _ c FF_stage_uid) by
    (try rewrite FF_clocked; try rewrite clocked_domain, String.eqb_refl; auto).
  rewrite FF_in_reset. destruct (ff_resetting f env); reflexivity.
Qed.

Lemma FF_clock_edge_other env clk l :
  (forall k, k < n -> l <> LSig (c + k)) ->
  clock_edge D clk env l = env l.
Proof.
  intros Hl. unfold clock_edge. rewrite FF_stmts, driver_app.
  rewrite driver_single. cbn [fst snd]. rewrite clocked_by_comb. cbn [andb].
  now rewrite (driver_chain_miss dom _ _ c FF_stage_uid).
Qed.

Lemma FF_comb_pass env :
  comb_pass D env = upd env out (wrap (sig_shape (ff_o f)) (env final)).
Proof.
  unfold comb_pass. rewrite FF_stmts, fold_left_app.
  rewrite comb_chain by assumption. reflexivity.
Qed.

Lemma FF_settle env l :
  settle D env l =
  if Loc_eqb out l then wrap (sig_shape (ff_o f)) (env final) else env l.
Proof.
  unfold settle. rewrite FF_stmts, length_app, chain_length.
  replace (n + List.length [("comb", Assign (Sig (ff_o f)) (Sig (ff_stage f c (n - 1))))])
    with (S n) by (simpl; lia).
  assert (Hne : Loc_eqb out final = false).
  { apply Loc_eqb_neq. unfold out, final. intros E. injection E. lia. }
  generalize n at 1. intros k. revert l.
  induction k as [|k IH]; intros l.
  - simpl. now rewrite FF_comb_pass.
  - change (Nat.iter (S (S k)) (comb_pass D) env)
      with (comb_pass D (Nat.iter (S k) (comb_pass D) env)).
    rewrite FF_comb_pass. unfold upd at 1.
    destruct (Loc_eqb out l) eqn:El.
    + rewrite IH. now rewrite Hne.
    + rewrite IH. now rewrite El.
Qed.

Lemma FF_async_reset_stage env k :
  k < n ->
  async_reset D env (LSig (c + k)) =
  if is_async D dom && ff_resetting f env then wrap sh (ff_reset f)
  else env (LSig (c + k)).
Proof.
  intros Hk. unfold async_reset. rewrite FF_stmts, driver_app.
  simpl driver at 1.
  destruct (is_async D dom) eqn:Ea.
  - rewrite (driver_chain_hit dom _ _ c FF_stage_uid) by
      (try rewrite clocked_domain; auto).
    rewrite FF_in_reset. now destruct (ff_resetting f env).
  - rewrite (driver_chain_unselected dom) by (rewrite Ea; apply andb_false_r).
    reflexivity.
Qed.

Lemma FF_async_reset_other env l :
  (forall k, k < n -> l <> LSig (c + k)) -> async_reset D env l = env l.
Proof.
  intros Hl. unfold async_reset. rewrite FF_stmts, driver_app.
  simpl driver at 1.
  now rewrite (driver_chain_miss dom _ _ c FF_stage_uid).
Qed.

Lemma FF_out_not_stage k : k < n -> Loc_eqb out (LSig (c + k)) = false.
Proof.
  intros _. apply Loc_eqb_neq. unfold out. intros E. injection E. lia.
Qed.

Lemma FF_resetting_ext env env' :
  env' (LRst dom) = env (LRst dom) -> ff_resetting f env' = ff_resetting f env.
Proof. intros E. unfold ff_resetting. fold dom. now rewrite E. Qed.

Lemma FF_react_stage env k :
  k < n ->
  react D env (LSig (c + k)) =
  if is_async D dom && ff_resetting f env then wrap sh (ff_reset f)
  else env (LSig (c + k)).
Proof.
  intros Hk. unfold react. rewrite FF_settle, FF_out_not_stage by assumption.
  rewrite FF_async_reset_stage by assumption.
  rewrite (FF_resetting_ext env (settle D env)) by now rewrite FF_settle.
  now rewrite FF_settle, FF_out_not_stage.
Qed.

Lemma FF_react_out env :
  react D env out = wrap (sig_shape (ff_o f)) (react D env final).
Proof.
  unfold react. rewrite (FF_settle _ out), Loc_eqb_refl.
  rewrite (FF_settle _ final). unfold final.
  now rewrite FF_out_not_stage by lia.
Qed.

Lemma FF_react_other env l :
  l <> out -> (forall k, k < n -> l <> LSig (c + k)) -> react D env l = env l.
Proof.
  intros Ho Hs. unfold react.
  rewrite FF_settle, Loc_eqb_neq by congruence.
  rewrite FF_async_reset_other by assumption.
  now rewrite FF_settle, Loc_eqb_neq by congruence.
Qed.

(** One edge of the destination clock. *)
Lemma FF_tick_stage env k :
  k < n ->
  step D env (Tick dom) (LSig (c + k)) =
  if ff_resetting f env then wrap sh (ff_reset f)
  else wrap sh (eval env match k with
                         | 0 => Sig (ff_i f)
                         | S j => Sig (ff_stage f c j)
                         end).
Proof.
  intros Hk. cbn [step]. rewrite FF_react_stage by assumption.
  rewrite (FF_resetting_ext env (clock_edge D dom env)) by
    (apply FF_clock_edge_other; intros; discriminate).
  rewrite FF_clock_edge_stage by assumption.
  destruct (ff_resetting f env); [|now rewrite andb_false_r].
  now destruct (is_async D dom).
Qed.

Lemma FF_step_out env ev :
  step D env ev out = wrap (sig_shape (ff_o f)) (step D env ev final).
Proof. destruct ev; cbn [step]; apply FF_react_out. Qed.

Lemma FF_tick_other env clk l :
  l <> out -> (forall k, k < n -> l <> LSig (c + k)) ->
  step D env (Tick clk) l = env l.
Proof.
  intros Ho Hs. cbn [step]. rewrite FF_react_other by assumption.
  now apply FF_clock_edge_other.
Qed.

Lemma run_snoc (G : Design) evs ev env :
  run G (evs ++ [ev]) env = step G (run G evs env) ev.
Proof. unfold run. now rewrite fold_left_app. Qed.

Lemma repeat_snoc {A : Type} (x : A) k : repeat x (S k) = repeat x k ++ [x].
Proof. induction k as [|k IH]; [reflexivity|]. simpl in *. now rewrite <- IH. Qed.

(** [k] edges with the input held and no reset: the input has reached
    the first [k] stages, the others hold what was [k] stages before
    them. *)
Lemma FF_shift env v k :
  uid (ff_i f) <> uid (ff_o f) ->
  ff_resetting f env = false ->
  env (LSig (uid (ff_i f))) = v ->
  let env' := run D (repeat (Tick dom) k) env in
  env' (LSig (uid (ff_i f))) = v /\
  env' (LRst dom) = env (LRst dom) /\
  (forall j, j < n -> j < k -> env' (LSig (c + j)) = wrap sh v) /\
  (forall j, j < n -> k <= j ->
     wrap sh (env' (LSig (c + j))) = wrap sh (env (LSig (c + (j - k))))).
Proof.
  intros Hio Hres Hv. induction k as [|k IH]; cbn zeta.
  - cbn [repeat run fold_left]. repeat split; auto; intros j Hj Hk; [lia|].
    now rewrite Nat.sub_0_r.
  - rewrite repeat_snoc, run_snoc. cbn zeta in IH.
    set (envk := run D (repeat (Tick dom) k) env) in *.
    destruct IH as (IHi & IHr & IHlo & IHhi).
    assert (Hresk : ff_resetting f envk = false)
      by (rewrite (FF_resetting_ext env envk); auto).
    repeat split.
    + rewrite FF_tick_other; auto.
      * unfold out. intros E. injection E. congruence.
      * intros j Hj E. injection E. lia.
    + rewrite FF_tick_other; auto; intros; discriminate.
    + intros j Hj Hjk. rewrite FF_tick_stage, Hresk by assumption.
      destruct j as [|j]; cbn [eval uid ff_stage].
      * now rewrite IHi.
      * rewrite IHlo by lia. apply wrap_idem.
    + intros j Hj Hjk. rewrite FF_tick_stage, Hresk by assumption.
      destruct j as [|j]; [lia|]. cbn [eval uid ff_stage].
      rewrite wrap_idem, IHhi by lia. reflexivity.
Qed.

(** The output after [k] edges with the input held at [v]. *)
Lemma FF_delay env v k :
  uid (ff_i f) <> uid (ff_o f) ->
  ff_resetting f env = false ->
  env (LSig (uid (ff_i f))) = v ->
  1 <= k ->
  run D (repeat (Tick dom) k) env out =
  wrap (sig_shape (ff_o f))
    (wrap sh (if Nat.leb n k then v else env (LSig (c + (n - 1 - k))))).
Proof.
  intros Hio Hres Hv Hk. destruct k as [|k]; [lia|].
  rewrite repeat_snoc, run_snoc, FF_step_out. f_equal.
  destruct (FF_shift env v k Hio Hres Hv) as (Hi & Hr & Hlo & Hhi).
  cbn zeta in *. set (envk := run D (repeat (Tick dom) k) env) in *.
  assert (Hresk : ff_resetting f envk = false)
    by (rewrite (FF_resetting_ext env envk); auto).
  unfold final. rewrite FF_tick_stage, Hresk by lia.
  destruct (Nat.leb_spec n (S k)) as [Hnk|Hnk].
  - destruct (n - 1) as [|j] eqn:En; cbn [eval uid ff_stage].
    + now rewrite Hi.
    + rewrite Hlo by lia. apply wrap_idem.
  - destruct (n - 1) as [|j] eqn:En; [lia|]. cbn [eval uid ff_stage].
    rewrite Hhi by lia. reflexivity.
Qed.

(** A change of the input, no reset asserted. *)
Lemma FF_drive env v :
  uid (ff_i f) <> uid (ff_o f) ->
  ff_resetting f env = false ->
  let env' := step D env (Drive (LSig (uid (ff_i f))) v) in
  env' (LSig (uid (ff_i f))) = v /\
  env' (LRst dom) = env (LRst dom) /\
  (forall k, k < n -> env' (LSig (c + k)) = env (LSig (c + k))).
Proof.
  intros Hio Hres. cbn zeta. cbn [step]. repeat split.
  - rewrite FF_react_other.
    + apply upd_same.
    + unfold out. intros E. injection E. congruence.
    + intros k Hk E. injection E. lia.
  - rewrite FF_react_other by (intros; discriminate).
    apply upd_other. discriminate.
  - intros k Hk. rewrite FF_react_stage by assumption.
    rewrite (FF_resetting_ext env) by (apply upd_other; discriminate).
    rewrite Hres, andb_false_r. apply upd_other.
    intros E. injection E. lia.
Qed.

Lemma run_app (G : Design) evs evs' env :
  run G (evs ++ evs') env = run G evs' (run G evs env).
Proof. unfold run. apply fold_left_app. Qed.

Lemma run_two (G : Design) ev ev' env :
  run G [ev; ev'] env = step G (step G env ev) ev'.
Proof. reflexivity. Qed.

Lemma sampled_snoc i clk vs v :
  sampled i clk (vs ++ [v]) =
  sampled i clk vs ++ [Drive (LSig (uid i)) v; Tick clk].
Proof. unfold sampled. now rewrite flat_map_app. Qed.

(** The chain as a delay line: after the samples [vs], stage [j] holds
    the sample taken [j] edges before the last one. *)
Lemma FF_delay_line env :
  uid (ff_i f) <> uid (ff_o f) ->
  ff_resetting f env = false ->
  forall vs,
  let env' := run D (sampled (ff_i f) dom vs) env in
  ff_resetting f env' = false /\
  (forall j, j < n -> j < List.length vs ->
     env' (LSig (c + j)) = wrap sh (nth j (rev vs) 0%Z)) /\
  (vs <> [] -> env' out = wrap (sig_shape (ff_o f)) (env' final)).
Proof.
  intros Hio Hres vs. induction vs as [|v vs IH] using rev_ind; cbn zeta.
  - cbn. repeat split; auto; intros; (lia || congruence).
  - rewrite sampled_snoc, run_app, run_two.
    cbn zeta in IH. set (e0 := run D (sampled (ff_i f) dom vs) env) in *.
    destruct IH as (Hr0 & Hs0 & _).
    destruct (FF_drive e0 v Hio Hr0) as (Di & Dr & Ds). cbn zeta in *.
    set (e1 := step D e0 (Drive (LSig (uid (ff_i f))) v)) in *.
    assert (Hr1 : ff_resetting f e1 = false)
      by (rewrite (FF_resetting_ext e0 e1); auto).
    repeat split.
    + rewrite (FF_resetting_ext e1); auto.
      apply FF_tick_other; intros; discriminate.
    + intros j Hj Hlen. rewrite FF_tick_stage, Hr1 by assumption.
      rewrite rev_app_distr. cbn [rev app nth]. rewrite length_app in Hlen.
      cbn [List.length] in Hlen. destruct j as [|j]; cbn [eval uid ff_stage].
      * now rewrite Di.
      * rewrite Ds, Hs0 by lia. apply wrap_idem.
    + intros _. apply FF_step_out.
Qed.

(** The power-on state of the structure. *)
Lemma FF_power_on (ext : Env) :
  (forall l, (forall k, k < n -> l <> LSig (c + k)) -> l <> out ->
     power_on D ext l = ext l) /\
  (forall k, k < n -> power_on D ext (LSig (c + k)) = wrap sh (ff_reset f)) /\
  power_on D ext out = wrap (sig_shape (ff_o f)) (wrap sh (ff_reset f)).
Proof.
  unfold power_on, at_rest.
  assert (Hmiss : forall l, (forall k, k < n -> l <> LSig (c + k)) ->
    driver (fun dom0 => negb (is_comb dom0)) l (stmts D) = None).
  { intros l Hl. rewrite FF_stmts, driver_app, driver_single.
    cbn [fst snd]. change (is_comb "comb") with true. cbn [negb andb].
    now rewrite (driver_chain_miss dom _ _ c FF_stage_uid). }
  assert (Hhit : forall k, k < n ->
    driver (fun dom0 => negb (is_comb dom0)) (LSig (c + k)) (stmts D) =
    Some (dom, Assign (Sig (ff_stage f c k))
                 match k with
                 | 0 => Sig (ff_i f)
                 | S j => Sig (ff_stage f c j)
                 end)).
  { intros k Hk. rewrite FF_stmts, driver_app, driver_single.
    cbn [fst snd]. change (is_comb "comb") with true. cbn [negb andb].
    apply (driver_chain_hit dom _ _ c FF_stage_uid); [assumption|].
    now rewrite clocked_domain. }
  repeat split.
  - intros l Hl Ho. rewrite FF_settle.
    destruct (Loc_eqb_spec out l); [congruence|]. now rewrite Hmiss.
  - intros k Hk. rewrite FF_settle, FF_out_not_stage by assumption.
    now rewrite Hhit.
  - rewrite FF_settle, Loc_eqb_refl. unfold final. now rewrite Hhit by lia.
Qed.

End FFDesign.


(** ** The default [AsyncFFSynchronizer] structure, clocked *)

Ltac loc_neq :=
  let E := fresh "E" in
  intros E; try discriminate E; try congruence; injection E; intros; subst;
  try lia; try congruence.

Section AsyncFFDesign.

(** The generator is elaborated from counter [next]; its registers
    start at [c], past the two signals of the private domain. *)
Variables (a : AsyncFFSynchronizer) (next : nat) (ctx : list ClockDomain).
Variable out : Loc.

Let c := S (S next).
Let n := Z.to_nat (af_stages a).
Let D := in_context ctx (design_of (af_module a next)).
Let final := LSig (c + (n - 1)).
Let rst := LRst "async_ff".
Let clk := LClk "async_ff".

Hypothesis stages_pos : 1 <= n.
Hypothesis i_outside : uid (af_i a) < c.
Hypothesis o_target : target (af_o a) = Some (out, unsigned 1).
Hypothesis o_outside : forall u, out = LSig u -> u < c.
Hypothesis o_not_i : out <> LSig (uid (af_i a)).
Hypothesis o_not_rst : out <> rst.
Hypothesis o_not_clk : out <> clk.

Lemma AF_stmts :
  stmts D =
  chain "async_ff" (Const 0) (af_stage c) n ++
  [("comb", Assign (ResetSignal "async_ff") (af_trigger a));
   ("comb", Assign (ClockSignal "async_ff") (ClockSignal (af_domain a)));
   ("comb", Assign (af_o a) (Sig (af_stage c (n - 1))))].
Proof. reflexivity. Qed.

Lemma AF_stage_uid k : uid (af_stage c k) = c + k.
Proof. reflexivity. Qed.

Lemma AF_out_not_stage k : out <> LSig (c + k).
Proof. intros E. apply o_outside in E. lia. Qed.

Lemma AF_drives_out l rhs : drives l (Assign (af_o a) rhs) = Loc_eqb out l.
Proof. unfold drives. now rewrite o_target. Qed.

Lemma AF_in_reset env k :
  in_reset env "async_ff" (Sig (af_stage c k)) =
  if negb (env rst =? 0)%Z then Some 1%Z else None.
Proof. reflexivity. Qed.

Lemma AF_clock_edge_other env clk' l :
  (forall k, k < n -> l <> LSig (c + k)) ->
  clock_edge D clk' env l = env l.
Proof.
  intros Hl. unfold clock_edge. rewrite AF_stmts, driver_app.
  cbn [driver fst snd]. rewrite !clocked_by_comb. cbn [andb].
  now rewrite (driver_chain_miss "async_ff" _ _ c AF_stage_uid).
Qed.

Lemma AF_async_reset_stage env k :
  k < n ->
  async_reset D env (LSig (c + k)) =
  if negb (env rst =? 0)%Z then 1%Z else env (LSig (c + k)).
Proof.
  intros Hk. unfold async_reset. rewrite AF_stmts, driver_app.
  cbn [driver fst snd]. change (is_comb "comb") with true. cbn [negb andb].
  rewrite (driver_chain_hit "async_ff" _ _ c AF_stage_uid) by auto.
  rewrite AF_in_reset. now destruct (negb (env rst =? 0)%Z).
Qed.

Lemma AF_async_reset_other env l :
  (forall k, k < n -> l <> LSig (c + k)) -> async_reset D env l = env l.
Proof.
  intros Hl. unfold async_reset. rewrite AF_stmts, driver_app.
  cbn [driver fst snd]. change (is_comb "comb") with true. cbn [negb andb].
  now rewrite (driver_chain_miss "async_ff" _ _ c AF_stage_uid).
Qed.

Lemma AF_reset_wire_ext env env' :
  env' (LSig (uid (af_i a))) = env (LSig (uid (af_i a))) ->
  af_reset_wire a env' = af_reset_wire a env.
Proof.
  intros E. unfold af_reset_wire, af_trigger.
  destruct (String.eqb (af_edge a) "pos"); cbn [eval]; now rewrite E.
Qed.

Lemma AF_comb_step_out env rhs :
  comb_step env ("comb", Assign (af_o a) rhs) =
  upd env out (wrap (unsigned 1) (eval env rhs)).
Proof. unfold comb_step. rewrite o_target. reflexivity. Qed.

Lemma AF_comb_pass env :
  comb_pass D env =
  let e1 := upd env rst (af_reset_wire a env) in
  let e2 := upd e1 clk (wrap (unsigned 1) (e1 (LClk (af_domain a)))) in
  upd e2 out (wrap (unsigned 1) (e2 final)).
Proof.
  unfold comb_pass. rewrite AF_stmts, fold_left_app.
  rewrite comb_chain by reflexivity. cbn [fold_left].
  rewrite AF_comb_step_out. reflexivity.
Qed.

Lemma AF_untouched_i : af_untouched out (LSig (uid (af_i a))).
Proof. repeat split; try discriminate. congruence. Qed.

Lemma AF_untouched_stage k : af_untouched out (LSig (c + k)).
Proof.
  repeat split; try discriminate. intros E. symmetry in E.
  now apply AF_out_not_stage in E.
Qed.

Lemma AF_comb_pass_spec env e :
  (forall l, af_untouched out l -> e l = env l) ->
  comb_pass D e rst = af_reset_wire a env /\
  comb_pass D e out = wrap (unsigned 1) (env final) /\
  (forall l, af_untouched out l -> comb_pass D e l = env l).
Proof.
  intros HQ. rewrite AF_comb_pass. cbn zeta. repeat split.
  - rewrite upd_other by congruence. rewrite upd_other by discriminate.
    rewrite upd_same. apply AF_reset_wire_ext, HQ, AF_untouched_i.
  - rewrite upd_same. f_equal. unfold final.
    rewrite upd_other by discriminate. rewrite upd_other by discriminate.
    apply HQ, AF_untouched_stage.
  - intros l (H1 & H2 & H3).
    rewrite !upd_other by (unfold rst, clk; congruence).
    apply HQ. now repeat split.
Qed.

Lemma AF_settle env :
  settle D env rst = af_reset_wire a env /\
  settle D env out = wrap (unsigned 1) (env final) /\
  (forall l, af_untouched out l -> settle D env l = env l).
Proof.
  unfold settle. rewrite AF_stmts, length_app, chain_length.
  cbn [List.length]. replace (n + 3) with (S (n + 2)) by lia.
  generalize (n + 2). intros k. induction k as [|k IH].
  - apply AF_comb_pass_spec. reflexivity.
  - change (Nat.iter (S (S k)) (comb_pass D) env)
      with (comb_pass D (Nat.iter (S k) (comb_pass D) env)).
    apply AF_comb_pass_spec. apply IH.
Qed.

Lemma AF_settle_other env l : af_untouched out l -> settle D env l = env l.
Proof. apply AF_settle. Qed.

Lemma AF_stage_other k l :
  (forall j, j < n -> l <> LSig (c + j)) -> k < n -> LSig (c + k) <> l.
Proof. intros H Hk E. now apply (H k Hk). Qed.

(** The state once an event has been absorbed. *)
Lemma AF_react env :
  react D env rst = af_reset_wire a env /\
  (forall k, k < n ->
     react D env (LSig (c + k)) =
     if negb (af_reset_wire a env =? 0)%Z then 1%Z else env (LSig (c + k))) /\
  react D env out = wrap (unsigned 1) (react D env final) /\
  (forall l, af_untouched out l -> (forall k, k < n -> l <> LSig (c + k)) ->
     react D env l = env l).
Proof.
  unfold react.
  destruct (AF_settle env) as (S1r & S1o & S1x).
  destruct (AF_settle (async_reset D (settle D env))) as (S3r & S3o & S3x).
  repeat split.
  - rewrite S3r. apply AF_reset_wire_ext.
    rewrite AF_async_reset_other by (intros; loc_neq).
    apply S1x, AF_untouched_i.
  - intros k Hk. rewrite S3x by apply AF_untouched_stage.
    rewrite AF_async_reset_stage by assumption.
    rewrite S1r, S1x by apply AF_untouched_stage. reflexivity.
  - rewrite S3o. f_equal. unfold final. symmetry.
    apply S3x, AF_untouched_stage.
  - intros l Hl Hs. rewrite S3x by assumption.
    rewrite AF_async_reset_other by assumption. now apply S1x.
Qed.

Lemma AF_wire_assert env :
  env (LSig (uid (af_i a))) = af_assert_level a -> af_reset_wire a env = 1%Z.
Proof.
  intros E. unfold af_reset_wire, af_trigger, af_assert_level in *.
  destruct (String.eqb (af_edge a) "pos"); cbn [eval]; now rewrite E.
Qed.

Lemma AF_wire_release env :
  env (LSig (uid (af_i a))) = af_release_level a -> af_reset_wire a env = 0%Z.
Proof.
  intros E. unfold af_reset_wire, af_trigger, af_release_level in *.
  destruct (String.eqb (af_edge a) "pos"); cbn [eval]; now rewrite E.
Qed.

Lemma AF_step_i env ev :
  (forall v, ev <> Drive (LSig (uid (af_i a))) v) ->
  (forall l v, ev = Drive l v -> af_untouched out l /\
     forall k, k < n -> l <> LSig (c + k)) ->
  step D env ev (LSig (uid (af_i a))) = env (LSig (uid (af_i a))).
Proof.
  intros Hni Hdrive.
  assert (Hi : forall e, react D e (LSig (uid (af_i a))) = e (LSig (uid (af_i a)))).
  { intros e. apply (AF_react e); [apply AF_untouched_i|intros; loc_neq]. }
  destruct ev as [clk'|l v]; cbn [step]; rewrite Hi.
  - apply AF_clock_edge_other. intros; loc_neq.
  - apply upd_other. intros ->. now apply (Hni v).
Qed.

(** While the source is at its asserting level every event leaves the
    chain and the output at 1. *)
Lemma AF_asserted env ev :
  step D env ev (LSig (uid (af_i a))) = af_assert_level a ->
  (forall k, k < n -> step D env ev (LSig (c + k)) = 1%Z) /\
  step D env ev out = 1%Z.
Proof.
  intros Hi.
  assert (G : forall e, react D e (LSig (uid (af_i a))) = af_assert_level a ->
    (forall k, k < n -> react D e (LSig (c + k)) = 1%Z) /\ react D e out = 1%Z).
  { intros e He. destruct (AF_react e) as (Rr & Rs & Ro & Rx).
    rewrite Rx in He by (try apply AF_untouched_i; intros; loc_neq).
    assert (Hs : forall k, k < n -> react D e (LSig (c + k)) = 1%Z).
    { intros k Hk. rewrite Rs, (AF_wire_assert e He) by assumption.
      reflexivity. }
    split; [exact Hs|]. rewrite Ro. unfold final. rewrite Hs by lia.
    reflexivity. }
  destruct ev; cbn [step] in *; now apply G.
Qed.

Lemma AF_drive_i env v :
  step D env (Drive (LSig (uid (af_i a))) v) (LSig (uid (af_i a))) = v.
Proof.
  cbn [step]. destruct (AF_react (upd env (LSig (uid (af_i a))) v))
    as (_ & _ & _ & Rx).
  rewrite Rx by (try apply AF_untouched_i; intros; loc_neq).
  apply upd_same.
Qed.

(** The state right after the source is released from its asserting
    level: the chain and the output are still at 1, the private reset
    is low. *)
Lemma AF_release env :
  let env1 := step D env (Drive (LSig (uid (af_i a))) (af_assert_level a)) in
  let env2 := step D env1 (Drive (LSig (uid (af_i a))) (af_release_level a)) in
  env1 out = 1%Z /\
  (forall j, j < n -> env1 (LSig (c + j)) = 1%Z) /\
  env2 rst = 0%Z /\
  (forall j, j < n -> env2 (LSig (c + j)) = 1%Z) /\
  env2 out = 1%Z.
Proof.
  cbn zeta.
  set (env1 := step D env (Drive (LSig (uid (af_i a))) (af_assert_level a))).
  destruct (AF_asserted env (Drive (LSig (uid (af_i a))) (af_assert_level a))
              (AF_drive_i env _)) as (Hs1 & Ho1).
  fold env1 in Hs1, Ho1. split; [exact Ho1|]. split; [exact Hs1|].
  set (e := upd env1 (LSig (uid (af_i a))) (af_release_level a)).
  assert (Hwire : af_reset_wire a e = 0%Z)
    by (apply AF_wire_release; apply upd_same).
  destruct (AF_react e) as (Rr & Rs & Ro & Rx).
  assert (Hs2 : forall j, j < n -> react D e (LSig (c + j)) = 1%Z).
  { intros j Hj. rewrite Rs, Hwire by assumption. cbn [Z.eqb negb]. unfold e.
    rewrite upd_other by loc_neq. now apply Hs1. }
  cbn [step]. fold e. repeat split.
  - now rewrite Rr.
  - exact Hs2.
  - rewrite Ro. unfold final. rewrite Hs2 by lia. reflexivity.
Qed.






(** The destination domain is an outer one, and its clock is not the
    output of the generator. *)
Hypothesis domain_outer : af_domain a <> "async_ff".
Hypothesis o_not_domain_clk : out <> LClk (af_domain a).

(** The private domain runs on the destination clock. *)
Lemma AF_clocked clk' :
  clocked_by D clk' "async_ff" = String.eqb (af_domain a) clk'.
Proof.
  unfold clocked_by. change (negb (is_comb "async_ff")) with true.
  cbn [andb].
  assert (Halias : driver is_comb clk (stmts D) =
    Some ("comb", Assign (ClockSignal "async_ff") (ClockSignal (af_domain a)))).
  { rewrite AF_stmts, driver_app. cbn [driver fst snd].
    rewrite AF_drives_out, (Loc_eqb_neq out clk) by assumption.
    change (is_comb "comb") with true. cbn [andb drives target].
    unfold clk. now rewrite Loc_eqb_refl. }
  assert (Hroot : driver is_comb (LClk (af_domain a)) (stmts D) = None).
  { rewrite AF_stmts, driver_app. cbn [driver fst snd].
    rewrite AF_drives_out, (Loc_eqb_neq out _ o_not_domain_clk).
    change (is_comb "comb") with true. cbn [andb drives target Loc_eqb].
    rewrite (proj2 (String.eqb_neq "async_ff" (af_domain a))) by congruence.
    now rewrite (driver_chain_unselected "async_ff") by reflexivity. }
  rewrite AF_stmts, length_app, chain_length. cbn [List.length].
  replace (S (n + 3)) with (S (S (n + 2))) by lia.
  cbn [clock_root]. fold clk. rewrite Halias, Hroot. reflexivity.
Qed.

Lemma AF_clock_edge_stage env k :
  k < n ->
  clock_edge D (af_domain a) env (LSig (c + k)) =
  if negb (env rst =? 0)%Z then 1%Z
  else wrap (unsigned 1) (eval env match k with
                                   | 0 => Const 0
                                   | S j => Sig (af_stage c j)
                                   end).
Proof.
  intros Hk. unfold clock_edge. rewrite AF_stmts, driver_app.
  cbn [driver fst snd]. rewrite !clocked_by_comb. cbn [andb].
  rewrite (driver_chain_hit "async_ff" _ _ c AF_stage_uid) by
    (try rewrite AF_clocked; try apply String.eqb_refl; auto).
  rewrite AF_in_reset. destruct (negb (env rst =? 0)%Z); reflexivity.
Qed.

(** A destination edge with the source released. *)
Lemma AF_tick_released env :
  env (LSig (uid (af_i a))) = af_release_level a ->
  env rst = 0%Z ->
  let env' := step D env (Tick (af_domain a)) in
  env' (LSig (uid (af_i a))) = af_release_level a /\
  env' rst = 0%Z /\
  (forall k, k < n ->
     env' (LSig (c + k)) =
     match k with
     | 0 => 0%Z
     | S j => (env (LSig (c + j)) mod 2)%Z
     end) /\
  env' out = wrap (unsigned 1) (env' final).
Proof.
  intros Hi Hr. cbn zeta. cbn [step].
  destruct (AF_react (clock_edge D (af_domain a) env)) as (Rr & Rs & Ro & Rx).
  assert (Hi' : clock_edge D (af_domain a) env (LSig (uid (af_i a))) =
                af_release_level a).
  { rewrite AF_clock_edge_other by (intros; loc_neq). exact Hi. }
  repeat split.
  - rewrite Rx by (try apply AF_untouched_i; intros; loc_neq). exact Hi'.
  - rewrite Rr. now apply AF_wire_release.
  - intros k Hk. rewrite Rs, (AF_wire_release _ Hi') by assumption.
    cbn [Z.eqb negb]. rewrite AF_clock_edge_stage, Hr by assumption.
    cbn [Z.eqb negb]. destruct k; reflexivity.
  - exact Ro.
Qed.

(** [k] destination edges after the release: zeros have entered the
    first [k] stages. *)
Lemma AF_release_run env k :
  env (LSig (uid (af_i a))) = af_release_level a ->
  env rst = 0%Z ->
  (forall j, j < n -> env (LSig (c + j)) = 1%Z) ->
  env out = 1%Z ->
  let env' := run D (repeat (Tick (af_domain a)) k) env in
  env' (LSig (uid (af_i a))) = af_release_level a /\
  env' rst = 0%Z /\
  (forall j, j < n -> env' (LSig (c + j)) = if Nat.ltb j k then 0%Z else 1%Z) /\
  env' out = if Nat.ltb k n then 1%Z else 0%Z.
Proof.
  intros Hi Hr Hs Ho. induction k as [|k IH]; cbn zeta.
  - cbn [repeat run fold_left]. repeat split; auto.
    destruct (Nat.ltb_spec 0 n); [assumption|lia].
  - rewrite repeat_snoc, run_snoc. cbn zeta in IH.
    set (envk := run D (repeat (Tick (af_domain a)) k) env) in *.
    destruct IH as (IHi & IHr & IHs & IHo).
    destruct (AF_tick_released envk IHi IHr) as (Ti & Tr & Ts & To).
    cbn zeta in *.
    assert (Hst : forall j, j < n ->
      step D envk (Tick (af_domain a)) (LSig (c + j)) =
      if Nat.ltb j (S k) then 0%Z else 1%Z).
    { intros j Hj. rewrite Ts by assumption. destruct j as [|j].
      - reflexivity.
      - rewrite IHs by lia.
        destruct (Nat.ltb_spec j k), (Nat.ltb_spec (S j) (S k));
          try lia; reflexivity. }
    repeat split; auto.
    rewrite To. unfold final. rewrite Hst by lia.
    destruct (Nat.ltb_spec (n - 1) (S k)), (Nat.ltb_spec (S k) n);
      try lia; reflexivity.
Qed.

(** Clock edges do not matter while the source stays asserted. *)
Lemma AF_asserted_run clks : forall env,
  env (LSig (uid (af_i a))) = af_assert_level a ->
  env out = 1%Z ->
  run D (ticks clks) env out = 1%Z.
Proof.
  induction clks as [|clk' clks IH]; intros env Hi Ho; [exact Ho|].
  cbn [ticks map run fold_left]. apply IH.
  - rewrite AF_step_i by (intros; discriminate). exact Hi.
  - apply AF_asserted. rewrite AF_step_i by (intros; discriminate). exact Hi.
Qed.

(** Assertion is immediate; after the release the output falls at the
    [n]-th destination edge. *)
Lemma AF_assert_release env k :
  let env1 := step D env (Drive (LSig (uid (af_i a))) (af_assert_level a)) in
  let env2 := step D env1 (Drive (LSig (uid (af_i a))) (af_release_level a)) in
  env1 out = 1%Z /\
  (forall j, j < n -> env1 (LSig (c + j)) = 1%Z) /\
  run D (repeat (Tick (af_domain a)) k) env2 out =
    if Nat.ltb k n then 1%Z else 0%Z.
Proof.
  cbn zeta. destruct (AF_release env) as (Ho1 & Hs1 & Hr2 & Hs2 & Ho2).
  cbn zeta in *. repeat split; auto.
  apply AF_release_run; auto. apply AF_drive_i.
Qed.

(** The power-on state: the source wire as the surrounding design
    leaves it, every stage and the output at 1. *)
Lemma AF_power_on (ext : Env) :
  power_on D ext (LSig (uid (af_i a))) = ext (LSig (uid (af_i a))) /\
  power_on D ext rst = af_reset_wire a ext /\
  (forall k, k < n -> power_on D ext (LSig (c + k)) = 1%Z) /\
  power_on D ext out = 1%Z.
Proof.
  unfold power_on, at_rest.
  set (init := fun l : Loc =>
         match driver (fun dom0 => negb (is_comb dom0)) l (stmts D) with
         | Some (_, Assign (Sig s) _) => wrap (sig_shape s) (sig_reset s)
         | _ => ext l
         end).
  assert (Htail : forall l,
    driver (fun dom0 => negb (is_comb dom0)) l
      [("comb", Assign (ResetSignal "async_ff") (af_trigger a));
       ("comb", Assign (ClockSignal "async_ff") (ClockSignal (af_domain a)));
       ("comb", Assign (af_o a) (Sig (af_stage c (n - 1))))] = None).
  { intros l. apply driver_unselected. intros st [<-|[<-|[<-|[]]]]; reflexivity. }
  assert (Hmiss : forall l, (forall k, k < n -> l <> LSig (c + k)) ->
                            init l = ext l).
  { intros l Hl. unfold init. rewrite AF_stmts, driver_app, Htail.
    now rewrite (driver_chain_miss "async_ff" _ _ c AF_stage_uid). }
  assert (Hhit : forall k, k < n -> init (LSig (c + k)) = 1%Z).
  { intros k Hk. unfold init. rewrite AF_stmts, driver_app, Htail.
    now rewrite (driver_chain_hit "async_ff" _ _ c AF_stage_uid). }
  assert (Hi : init (LSig (uid (af_i a))) = ext (LSig (uid (af_i a))))
    by (apply Hmiss; intros; loc_neq).
  destruct (AF_settle init) as (Sr & So & Sx).
  repeat split.
  - rewrite Sx by apply AF_untouched_i. exact Hi.
  - rewrite Sr. now apply AF_reset_wire_ext.
  - intros k Hk. rewrite Sx by apply AF_untouched_stage. now apply Hhit.
  - rewrite So. unfold final. now rewrite Hhit by lia.
Qed.

(** From power-on with the source at its releasing level, the output
    falls at the [n]-th destination edge. *)
Lemma AF_power_on_released (ext : Env) k :
  ext (LSig (uid (af_i a))) = af_release_level a ->
  run D (repeat (Tick (af_domain a)) k) (power_on D ext) out =
  if Nat.leb n k then 0%Z else 1%Z.
Proof.
  intros Hext. destruct (AF_power_on ext) as (Hi & Hr & Hs & Ho).
  rewrite Hext in Hi.
  rewrite (AF_wire_release ext Hext) in Hr.
  destruct (AF_release_run (power_on D ext) k Hi Hr Hs Ho) as (_ & _ & _ & H).
  cbn zeta in H. rewrite H.
  destruct (Nat.ltb_spec k n), (Nat.leb_spec n k); try lia; reflexivity.
Qed.

(** From power-on with the source at its asserting level, no clock
    edge releases the output. *)
Lemma AF_power_on_asserted (ext : Env) clks :
  ext (LSig (uid (af_i a))) = af_assert_level a ->
  run D (ticks clks) (power_on D ext) out = 1%Z.
Proof.
  intros Hext. destruct (AF_power_on ext) as (Hi & Hr & Hs & Ho).
  apply AF_asserted_run; [|exact Ho]. now rewrite Hi.
Qed.

End AsyncFFDesign.



(** ** [PulseSynchronizer]: elaboration and inlining *)

Lemma PulseSynchronizer_elaborate_built {Custom : Type}
    (self : PulseSynchronizer) (platform : Platform Custom) (next : nat)
    (z : Z) :
  ps_sync_stages self = PyInt z -> (2 <= z)%Z ->
  PulseSynchronizer_elaborate self platform next =
  Built (ps_module self next z) (S (S (S next))).
Proof.
  intros Hs Hz. unfold PulseSynchronizer_elaborate, FFSynchronizer_init.
  rewrite Hs. cbn [default_Signal new_Signal].
  rewrite (proj2 (check_stages_accepts (PyInt z))) by (now exists z).
  reflexivity.
Qed.

Lemma Fragment_get_pulse {Custom : Type} (self : PulseSynchronizer)
    (platform : Platform Custom) (next fuel : nat) (z : Z) :
  ps_sync_stages self = PyInt z -> (2 <= z)%Z ->
  get_ff_sync platform = None ->
  Fragment_get (S (S fuel)) (EPulseSynchronizer self) platform next =
  Built (ps_design self next z) (S (S (S next)) + Z.to_nat z).
Proof.
  intros Hs Hz Hhook. cbn [Fragment_get].
  rewrite (PulseSynchronizer_elaborate_built self platform next z Hs Hz).
  cbn [ps_module submodules fold_left snd].
  rewrite FFSynchronizer_elaborate_default by (auto; cbn; lia).
  reflexivity.
Qed.

(** ** The [PulseSynchronizer] design, clocked *)

Ltac nat_eqb :=
  repeat match goal with
  | |- context [Nat.eqb ?x ?y] =>
      destruct (Nat.eqb_spec x y); try lia; try congruence
  end.

Section PulseDesign.

Variables (ps : PulseSynchronizer) (c : nat) (z : Z) (ctx : list ClockDomain).

Let n := Z.to_nat z.
Let F := ps_ff_sync ps c z.
Let c3 := S (S (S c)).
Let D := in_context ctx (ps_design ps c z).
Let idom := ps_i_domain ps.
Let odom := ps_o_domain ps.
Let Li := LSig (uid (ps_i ps)).
Let Lo := LSig (uid (ps_o ps)).
Let Lit := LSig c.
Let Lot := LSig (S c).
Let Lpv := LSig (S (S c)).
Let final := LSig (c3 + (n - 1)).

Hypothesis stages_pos : 1 <= n.
Hypothesis i_outside : uid (ps_i ps) < c.
Hypothesis o_outside : uid (ps_o ps) < c.
Hypothesis i_not_o : uid (ps_i ps) <> uid (ps_o ps).
Hypothesis o_shape : sig_shape (ps_o ps) = unsigned 1.
Hypothesis i_clocked : is_comb idom = false.
Hypothesis o_clocked : is_comb odom = false.

Lemma PS_stmts :
  stmts D =
  [(idom, Assign (Sig (ps_itoggle c))
                 (Xor (Sig (ps_itoggle c)) (Sig (ps_i ps))));
   (odom, Assign (Sig (ps_otoggle_prev c)) (Sig (ps_otoggle c)));
   ("comb", Assign (Sig (ps_o ps))
                   (Xor (Sig (ps_otoggle c)) (Sig (ps_otoggle_prev c))))] ++
  (chain odom (Sig (ps_itoggle c)) (ff_stage F c3) n ++
   [("comb", Assign (Sig (ps_otoggle c)) (Sig (ff_stage F c3 (n - 1))))]).
Proof. reflexivity. Qed.

Lemma PS_stage_uid k : uid (ff_stage F c3 k) = c3 + k.
Proof. reflexivity. Qed.

Lemma PS_no_clock_driver dom' :
  driver is_comb (LClk dom') (stmts D) = None.
Proof.
  apply driver_undriven. intros st Hst. rewrite PS_stmts in Hst.
  rewrite !in_app_iff in Hst. cbn [In] in Hst.
  destruct Hst as [[<-|[<-|[<-|[]]]]|[Hst|[<-|[]]]]; try reflexivity.
  apply in_chain in Hst. now destruct Hst as (k & _ & ->).
Qed.

Lemma PS_clocked clk dom' :
  clocked_by D clk dom' = negb (is_comb dom') && String.eqb dom' clk.
Proof.
  unfold clocked_by. f_equal. cbn [clock_root].
  now rewrite PS_no_clock_driver.
Qed.

(** What a clock edge does to each register; [rst_i] and [rst_o] are
    the reset wires of the two domains. *)
Lemma PS_clock_edge env clk :
  env (LRst idom) = 0%Z -> env (LRst odom) = 0%Z ->
  clock_edge D clk env Lit =
    (if String.eqb idom clk
     then wrap (unsigned 1) (Z.lxor (env Lit) (env Li)) else env Lit) /\
  clock_edge D clk env Lpv =
    (if String.eqb odom clk then wrap (unsigned 1) (env Lot) else env Lpv) /\
  (forall k, k < n ->
     clock_edge D clk env (LSig (c3 + k)) =
     if String.eqb odom clk
     then wrap (unsigned 1) (env match k with
                                 | 0 => Lit
                                 | S j => LSig (c3 + j)
                                 end)
     else env (LSig (c3 + k))) /\
  (forall l, l <> Lit -> l <> Lpv -> (forall k, k < n -> l <> LSig (c3 + k)) ->
     clock_edge D clk env l = env l).
Proof.
  intros Hri Hro.
  assert (Hsi : clocked_by D clk idom = String.eqb idom clk)
    by (rewrite PS_clocked; fold idom; now rewrite i_clocked).
  assert (Hso : clocked_by D clk odom = String.eqb odom clk)
    by (rewrite PS_clocked; fold odom; now rewrite o_clocked).
  unfold clock_edge. rewrite PS_stmts. repeat split.
  - rewrite driver_app, driver_app, driver_single. cbn [fst snd].
    rewrite clocked_by_comb. cbn [andb].
    rewrite (driver_chain_miss odom _ _ c3 PS_stage_uid) by
      (intros; unfold Lit, c3; loc_neq).
    cbn [driver fst snd drives target uid ps_itoggle ps_otoggle_prev Loc_eqb].
    rewrite clocked_by_comb, Hsi. cbn [andb]. unfold Lit.
    nat_eqb. cbn [andb]. rewrite ?andb_false_r, ?andb_true_r.
    destruct (String.eqb idom clk); [|reflexivity].
    cbn [in_reset ps_itoggle sig_reset_less negb andb]. fold idom.
    rewrite Hri. reflexivity.
  - rewrite driver_app, driver_app, driver_single. cbn [fst snd].
    rewrite clocked_by_comb. cbn [andb].
    rewrite (driver_chain_miss odom _ _ c3 PS_stage_uid) by
      (intros; unfold Lpv, c3; loc_neq).
    cbn [driver fst snd drives target uid ps_itoggle ps_otoggle_prev Loc_eqb].
    rewrite clocked_by_comb, Hso. cbn [andb]. unfold Lpv.
    nat_eqb. cbn [andb]. rewrite ?andb_false_r, ?andb_true_r.
    destruct (String.eqb odom clk); [|reflexivity].
    cbn [in_reset ps_otoggle_prev sig_reset_less negb andb]. fold odom.
    rewrite Hro. reflexivity.
  - intros k Hk. rewrite driver_app, driver_app, driver_single. cbn [fst snd].
    rewrite clocked_by_comb. cbn [andb].
    destruct (String.eqb odom clk) eqn:Eo.
    + rewrite (driver_chain_hit odom _ _ c3 PS_stage_uid) by
        (try rewrite Hso; auto).
      destruct k; reflexivity.
    + rewrite (driver_chain_unselected odom) by now rewrite Hso.
      cbn [driver fst snd drives target uid ps_itoggle ps_otoggle_prev Loc_eqb].
      rewrite clocked_by_comb, Hso. cbn [andb]. unfold c3.
      nat_eqb. now rewrite ?andb_false_r.
  - intros l H1 H2 H3. rewrite driver_app, driver_app, driver_single.
    cbn [fst snd]. rewrite clocked_by_comb. cbn [andb].
    rewrite (driver_chain_miss odom _ _ c3 PS_stage_uid) by assumption.
    cbn [driver fst snd drives target uid ps_itoggle ps_otoggle_prev].
    rewrite clocked_by_comb. cbn [andb].
    rewrite (Loc_eqb_neq (LSig (S (S c))) l) by (fold Lpv; congruence).
    rewrite (Loc_eqb_neq (LSig c) l) by (fold Lit; congruence).
    now rewrite !andb_false_r.
Qed.

Lemma driver_In sel l (sts : list (string * Statement)) st :
  driver sel l sts = Some st -> In st sts /\ sel (fst st) = true.
Proof.
  induction sts as [|s0 sts IH]; cbn [driver]; [discriminate|].
  destruct (driver sel l sts) as [found|].
  - intros E. injection E as ->. destruct (IH Logic.eq_refl). split; auto.
    now right.
  - destruct (sel (fst s0)) eqn:Es; cbn [andb]; [|discriminate].
    destruct (drives l (snd s0)); [|discriminate].
    intros E. injection E as ->. split; auto. now left.
Qed.

Lemma PS_async_reset env l :
  env (LRst idom) = 0%Z -> env (LRst odom) = 0%Z ->
  async_reset D env l = env l.
Proof.
  intros Hri Hro. unfold async_reset.
  destruct (driver _ l (stmts D)) as [[dom [lhs rhs]]|] eqn:Ed; [|reflexivity].
  apply driver_In in Ed. destruct Ed as (Hin & Hsel). cbn [fst] in Hsel.
  rewrite PS_stmts in Hin. rewrite !in_app_iff in Hin. cbn [In] in Hin.
  destruct Hin as [[E|[E|[E|[]]]]|[Hin|[E|[]]]];
    try (injection E as <- <- <-).
  - cbn [in_reset ps_itoggle sig_reset_less negb andb]. fold idom.
    now rewrite Hri.
  - cbn [in_reset ps_otoggle_prev sig_reset_less negb andb]. fold odom.
    now rewrite Hro.
  - discriminate Hsel.
  - apply in_chain in Hin. destruct Hin as (k & _ & E).
    injection E as -> -> ->. reflexivity.
  - discriminate Hsel.
Qed.

Lemma PS_comb_pass env :
  comb_pass D env =
  let e1 := upd env Lo (wrap (unsigned 1) (Z.lxor (env Lot) (env Lpv))) in
  upd e1 Lot (wrap (unsigned 1) (e1 final)).
Proof.
  unfold comb_pass. rewrite PS_stmts, fold_left_app.
  cbn [fold_left comb_step]. fold idom odom.
  rewrite i_clocked, o_clocked. change (is_comb "comb") with true.
  cbn iota. rewrite fold_left_app, comb_chain by assumption.
  cbn [target]. rewrite o_shape. reflexivity.
Qed.

Lemma PS_settle env :
  settle D env Lot = wrap (unsigned 1) (env final) /\
  settle D env Lo =
    wrap (unsigned 1) (Z.lxor (wrap (unsigned 1) (env final)) (env Lpv)) /\
  (forall l, l <> Lo -> l <> Lot -> settle D env l = env l).
Proof.
  assert (Hfo : final <> Lo) by (unfold final, Lo, c3; loc_neq).
  assert (Hft : final <> Lot) by (unfold final, Lot, c3; loc_neq).
  assert (Hpo : Lpv <> Lo) by (unfold Lpv, Lo; loc_neq).
  assert (Hpt : Lpv <> Lot) by (unfold Lpv, Lot; loc_neq).
  assert (Hto : Lot <> Lo) by (unfold Lot, Lo; loc_neq).
  assert (P1 : forall e, (forall l, l <> Lo -> l <> Lot -> e l = env l) ->
    comb_pass D e Lot = wrap (unsigned 1) (env final) /\
    (forall l, l <> Lo -> l <> Lot -> comb_pass D e l = env l)).
  { intros e He. rewrite PS_comb_pass. cbn zeta. split.
    - rewrite upd_same, upd_other by congruence. now rewrite He.
    - intros l H1 H2. rewrite !upd_other by congruence. now apply He. }
  assert (P2 : forall e, e Lot = wrap (unsigned 1) (env final) ->
    (forall l, l <> Lo -> l <> Lot -> e l = env l) ->
    comb_pass D e Lo =
    wrap (unsigned 1) (Z.lxor (wrap (unsigned 1) (env final)) (env Lpv))).
  { intros e Ht He. rewrite PS_comb_pass. cbn zeta.
    rewrite upd_other, upd_same by congruence.
    now rewrite Ht, He. }
  unfold settle. rewrite PS_stmts, !length_app, chain_length.
  cbn [List.length]. replace (3 + (n + 1)) with (S (S (n + 2))) by lia.
  generalize (n + 2). intros k.
  assert (Q : forall j, Nat.iter (S j) (comb_pass D) env Lot =
                        wrap (unsigned 1) (env final) /\
    (forall l, l <> Lo -> l <> Lot ->
       Nat.iter (S j) (comb_pass D) env l = env l)).
  { induction j as [|j IH].
    - apply P1. reflexivity.
    - change (Nat.iter (S (S j)) (comb_pass D) env)
        with (comb_pass D (Nat.iter (S j) (comb_pass D) env)).
      apply P1, IH. }
  destruct (Q (S k)) as (Q1 & Q2). destruct (Q k) as (Q3 & Q4).
  repeat split; auto.
  change (Nat.iter (S (S k)) (comb_pass D) env)
    with (comb_pass D (Nat.iter (S k) (comb_pass D) env)).
  now apply P2.
Qed.

(** The state once an event has been absorbed, no reset asserted. *)
Lemma PS_react env :
  env (LRst idom) = 0%Z -> env (LRst odom) = 0%Z ->
  react D env Lot = wrap (unsigned 1) (env final) /\
  react D env Lo =
    wrap (unsigned 1) (Z.lxor (react D env Lot) (env Lpv)) /\
  (forall l, l <> Lo -> l <> Lot -> react D env l = env l).
Proof.
  intros Hri Hro. unfold react.
  destruct (PS_settle env) as (S1t & S1o & S1x).
  destruct (PS_settle (async_reset D (settle D env))) as (S3t & S3o & S3x).
  assert (Ha : forall l, l <> Lo -> l <> Lot ->
            async_reset D (settle D env) l = env l).
  { intros l H1 H2. rewrite PS_async_reset.
    - now apply S1x.
    - rewrite S1x by (unfold Lo, Lot; discriminate). exact Hri.
    - rewrite S1x by (unfold Lo, Lot; discriminate). exact Hro. }
  assert (Hf : async_reset D (settle D env) final = env final)
    by (apply Ha; unfold final, Lo, Lot, c3; loc_neq).
  assert (Hp : async_reset D (settle D env) Lpv = env Lpv)
    by (apply Ha; unfold Lpv, Lo, Lot; loc_neq).
  repeat split.
  - now rewrite S3t, Hf.
  - now rewrite S3o, S3t, Hf, Hp.
  - intros l H1 H2. rewrite S3x by assumption. now apply Ha.
Qed.

(** One clock edge, no reset asserted. *)
Lemma PS_tick env clk :
  env (LRst idom) = 0%Z -> env (LRst odom) = 0%Z ->
  let env' := step D env (Tick clk) in
  env' Li = env Li /\
  env' (LRst idom) = 0%Z /\ env' (LRst odom) = 0%Z /\
  env' Lit =
    (if String.eqb idom clk
     then wrap (unsigned 1) (Z.lxor (env Lit) (env Li)) else env Lit) /\
  (forall k, k < n ->
     env' (LSig (c3 + k)) =
     if String.eqb odom clk
     then wrap (unsigned 1) (env match k with
                                 | 0 => Lit
                                 | S j => LSig (c3 + j)
                                 end)
     else env (LSig (c3 + k))) /\
  env' Lpv =
    (if String.eqb odom clk then wrap (unsigned 1) (env Lot) else env Lpv) /\
  env' Lot = wrap (unsigned 1) (env' final) /\
  env' Lo = wrap (unsigned 1) (Z.lxor (env' Lot) (env' Lpv)).
Proof.
  intros Hri Hro. cbn zeta. cbn [step].
  destruct (PS_clock_edge env clk Hri Hro) as (Cit & Cpv & Cst & Cx).
  assert (Eri : clock_edge D clk env (LRst idom) = 0%Z)
    by (rewrite Cx by (intros; discriminate); exact Hri).
  assert (Ero : clock_edge D clk env (LRst odom) = 0%Z)
    by (rewrite Cx by (intros; discriminate); exact Hro).
  destruct (PS_react (clock_edge D clk env) Eri Ero) as (Rt & Ro & Rx).
  assert (Hfin : react D (clock_edge D clk env) final =
                 clock_edge D clk env final)
    by (apply Rx; unfold final, Lo, Lot, c3; loc_neq).
  assert (Hpv : react D (clock_edge D clk env) Lpv =
                clock_edge D clk env Lpv)
    by (apply Rx; unfold Lpv, Lo, Lot; loc_neq).
  repeat split.
  - rewrite Rx by (unfold Li, Lo, Lot; loc_neq).
    apply Cx; intros; unfold Li, Lit, Lpv, c3; loc_neq.
  - now rewrite Rx by (unfold Lo, Lot; discriminate).
  - now rewrite Rx by (unfold Lo, Lot; discriminate).
  - rewrite Rx by (unfold Lit, Lo, Lot; loc_neq). exact Cit.
  - intros k Hk. rewrite Rx by (unfold Lo, Lot, c3; loc_neq). now apply Cst.
  - rewrite Hpv. exact Cpv.
  - now rewrite Hfin.
  - now rewrite Hpv.
Qed.

(** A change of the input, no reset asserted. *)
Lemma PS_drive env v :
  env (LRst idom) = 0%Z -> env (LRst odom) = 0%Z ->
  let env' := step D env (Drive Li v) in
  env' Li = v /\
  env' (LRst idom) = 0%Z /\ env' (LRst odom) = 0%Z /\
  env' Lit = env Lit /\
  (forall k, k < n -> env' (LSig (c3 + k)) = env (LSig (c3 + k))) /\
  env' Lpv = env Lpv /\
  env' Lot = wrap (unsigned 1) (env' final) /\
  env' Lo = wrap (unsigned 1) (Z.lxor (env' Lot) (env' Lpv)).
Proof.
  intros Hri Hro. cbn zeta. cbn [step].
  assert (Eri : upd env Li v (LRst idom) = 0%Z)
    by (rewrite upd_other by discriminate; exact Hri).
  assert (Ero : upd env Li v (LRst odom) = 0%Z)
    by (rewrite upd_other by discriminate; exact Hro).
  destruct (PS_react (upd env Li v) Eri Ero) as (Rt & Ro & Rx).
  assert (Hfin : react D (upd env Li v) final = upd env Li v final)
    by (apply Rx; unfold final, Lo, Lot, c3; loc_neq).
  assert (Hpv : react D (upd env Li v) Lpv = upd env Li v Lpv)
    by (apply Rx; unfold Lpv, Lo, Lot; loc_neq).
  repeat split.
  - rewrite Rx by (unfold Li, Lo, Lot; loc_neq). apply upd_same.
  - now rewrite Rx by (unfold Lo, Lot; discriminate).
  - now rewrite Rx by (unfold Lo, Lot; discriminate).
  - rewrite Rx by (unfold Lit, Lo, Lot; loc_neq).
    apply upd_other. unfold Li, Lit. loc_neq.
  - intros k Hk. rewrite Rx by (unfold Lo, Lot, c3; loc_neq).
    apply upd_other. unfold Li, c3. loc_neq.
  - rewrite Hpv. apply upd_other. unfold Li, Lpv. loc_neq.
  - now rewrite Hfin.
  - now rewrite Hpv.
Qed.

Lemma bit_wrap (t : Z) : t = 0%Z \/ t = 1%Z -> wrap (unsigned 1) t = t.
Proof. now intros [->| ->]. Qed.

Lemma PS_state_final iv told tnew k env :
  ps_state ps c n iv told tnew k env ->
  env final = if Nat.leb n k then tnew else told.
Proof.
  intros (_ & _ & _ & _ & Hs & _). unfold final, c3.
  rewrite (Hs (n - 1)) by lia.
  destruct (Nat.ltb_spec (n - 1) k), (Nat.leb_spec n k); try lia; reflexivity.
Qed.

Lemma PS_state_drive iv v told tnew k env :
  told = 0%Z \/ told = 1%Z -> tnew = 0%Z \/ tnew = 1%Z ->
  ps_state ps c n iv told tnew k env ->
  ps_state ps c n v told tnew k (step D env (Drive Li v)).
Proof.
  intros Hto Htn Hst.
  pose proof (PS_state_final _ _ _ _ _ Hst) as Hf.
  destruct Hst as (Hi & Hri & Hro & Hit & Hs & Hpv & Hot & Ho).
  destruct (PS_drive env v Hri Hro) as (Di & Dri & Dro & Dit & Ds & Dpv & Dot & Do).
  cbn zeta in *. unfold ps_state.
  unfold Li, Lit, Lot, Lpv, Lo, final, c3, idom, odom in *.
  repeat split; auto.
  - now rewrite Dit.
  - intros j Hj. rewrite Ds by assumption. now apply Hs.
  - now rewrite Dpv.
  - rewrite Dot, Ds by lia.
    rewrite Hf. destruct (Nat.leb n k); now apply bit_wrap.
Qed.

(** A clock edge that does not sample an asserted input: the toggle
    keeps its value, and a destination edge moves it one stage on. *)
Lemma PS_state_tick iv told tnew k env clk :
  iv = 0%Z \/ String.eqb idom clk = false ->
  told = 0%Z \/ told = 1%Z -> tnew = 0%Z \/ tnew = 1%Z ->
  ps_state ps c n iv told tnew k env ->
  ps_state ps c n iv told tnew
    (k + if String.eqb odom clk then 1 else 0) (step D env (Tick clk)).
Proof.
  intros Hiv Hto Htn Hst.
  pose proof (PS_state_final _ _ _ _ _ Hst) as Hf.
  destruct Hst as (Hi & Hri & Hro & Hit & Hs & Hpv & Hot & Ho).
  destruct (PS_tick env clk Hri Hro) as (Ti & Tri & Tro & Tit & Ts & Tpv & Tot & To).
  cbn zeta in *. unfold ps_state.
  unfold Li, Lit, Lot, Lpv, Lo, final, c3, idom, odom in *.
  set (b := if String.eqb (ps_o_domain ps) clk then 1 else 0) in *.
  assert (Hs' : forall j, j < n ->
    step D env (Tick clk) (LSig (S (S (S c)) + j)) =
    if Nat.ltb j (k + b) then tnew else told).
  { intros j Hj. rewrite Ts by assumption. unfold b.
    destruct (String.eqb (ps_o_domain ps) clk).
    - destruct j as [|j].
      + rewrite Hit.
        destruct (Nat.ltb_spec 0 (k + 1)); [now apply bit_wrap|lia].
      + rewrite Hs by lia.
        destruct (Nat.ltb_spec j k), (Nat.ltb_spec (S j) (k + 1)); try lia;
          now apply bit_wrap.
    - rewrite Nat.add_0_r. now apply Hs. }
  repeat split; auto.
  - rewrite Ti. exact Hi.
  - rewrite Tit, Hit, Hi. destruct Hiv as [->|E]; [|now rewrite E].
    rewrite Z.lxor_0_r.
    destruct (String.eqb (ps_i_domain ps) clk); [now apply bit_wrap|reflexivity].
  - rewrite Tpv, Hpv, Hot. unfold b.
    destruct (String.eqb (ps_o_domain ps) clk).
    + destruct (Nat.leb_spec n k), (Nat.ltb_spec n (k + 1)); try lia;
        now apply bit_wrap.
    + now rewrite Nat.add_0_r.
  - rewrite Tot, Hs' by lia.
    destruct (Nat.ltb_spec (n - 1) (k + b)), (Nat.leb_spec n (k + b));
      try lia; now apply bit_wrap.
Qed.

(** The source edge that samples the asserted input flips the toggle
    and changes nothing else. *)
Lemma PS_state_pulse t env :
  t = 0%Z \/ t = 1%Z ->
  ps_state ps c n 1 t t 0 env ->
  ps_state ps c n 1 t (1 - t) 0 (step D env (Tick idom)).
Proof.
  intros Ht Hst.
  pose proof (PS_state_final _ _ _ _ _ Hst) as Hf.
  destruct Hst as (Hi & Hri & Hro & Hit & Hs & Hpv & Hot & Ho).
  destruct (PS_tick env idom Hri Hro) as (Ti & Tri & Tro & Tit & Ts & Tpv & Tot & To).
  cbn zeta in *. unfold ps_state.
  unfold Li, Lit, Lot, Lpv, Lo, final, c3, idom, odom in *.
  assert (Hs' : forall j, j < n ->
    step D env (Tick (ps_i_domain ps)) (LSig (S (S (S c)) + j)) = t).
  { intros j Hj. rewrite Ts by assumption.
    assert (Hold : forall i, i < n -> env (LSig (S (S (S c)) + i)) = t).
    { intros i Hi'. rewrite Hs by assumption. now destruct (Nat.ltb i 0). }
    destruct (String.eqb (ps_o_domain ps) (ps_i_domain ps)); [|now apply Hold].
    destruct j as [|j].
    - rewrite Hit. now apply bit_wrap.
    - rewrite Hold by lia. now apply bit_wrap. }
  repeat split; auto.
  - rewrite Ti. exact Hi.
  - rewrite Tit, String.eqb_refl, Hit, Hi.
    now destruct Ht as [->| ->].
  - rewrite Tpv, Hpv, Hot.
    destruct (Nat.ltb_spec n 0); [lia|].
    destruct (Nat.leb_spec n 0); [lia|].
    destruct (String.eqb (ps_o_domain ps) (ps_i_domain ps));
      [now apply bit_wrap|reflexivity].
  - rewrite Tot, Hs' by lia.
    destruct (Nat.leb_spec n 0); [lia|]. now apply bit_wrap.
Qed.

Lemma edges_of_cons clk' clk clks :
  edges_of clk' (clk :: clks) =
  (if String.eqb clk' clk then 1 else 0) + edges_of clk' clks.
Proof.
  unfold edges_of. cbn [filter]. now destruct (String.eqb clk' clk).
Qed.

Lemma edges_of_app clk' clks clks' :
  edges_of clk' (clks ++ clks') = edges_of clk' clks + edges_of clk' clks'.
Proof. unfold edges_of. now rewrite filter_app, length_app. Qed.

Lemma PS_state_run iv told tnew clks : forall k env,
  iv = 0%Z \/ edges_of idom clks = 0 ->
  told = 0%Z \/ told = 1%Z -> tnew = 0%Z \/ tnew = 1%Z ->
  ps_state ps c n iv told tnew k env ->
  ps_state ps c n iv told tnew (k + edges_of odom clks)
    (run D (ticks clks) env).
Proof.
  induction clks as [|clk clks IH]; intros k env Hiv Hto Htn Hst.
  - cbn. now rewrite Nat.add_0_r.
  - cbn [ticks map run fold_left]. rewrite edges_of_cons in Hiv.
    assert (Hiv1 : iv = 0%Z \/ String.eqb idom clk = false)
      by (destruct Hiv as [?|Hiv]; [now left|right];
          destruct (String.eqb idom clk); [discriminate|reflexivity]).
    assert (Hiv2 : iv = 0%Z \/ edges_of idom clks = 0)
      by (destruct Hiv as [?|Hiv]; [now left|right]; lia).
    apply (PS_state_tick _ _ _ _ _ clk Hiv1 Hto Htn) in Hst.
    apply (IH _ _ Hiv2 Hto Htn) in Hst.
    rewrite edges_of_cons, Nat.add_assoc. exact Hst.
Qed.

(** As long as the toggle has not changed, how many destination edges
    have passed makes no difference. *)
Lemma PS_state_same iv t k k' env :
  ps_state ps c n iv t t k env -> ps_state ps c n iv t t k' env.
Proof.
  intros (Hi & Hri & Hro & Hit & Hs & Hpv & Hot & Ho).
  unfold ps_state. repeat split; auto.
  - intros j Hj. rewrite Hs by assumption.
    now destruct (Nat.ltb j k), (Nat.ltb j k').
  - rewrite Hpv. now destruct (Nat.ltb n k), (Nat.ltb n k').
  - rewrite Hot. now destruct (Nat.leb n k), (Nat.leb n k').
Qed.

Lemma run_cons (G : Design) ev evs env :
  run G (ev :: evs) env = run G evs (step G env ev).
Proof. reflexivity. Qed.

(** A pulse of one source cycle, from a quiescent design: while the
    input waits for its source edge nothing moves; the edge flips the
    toggle; from then on every destination edge moves the new value one
    stage on, whether the input is still high or not. *)
Lemma PS_pulse_states t env pre mid post :
  t = 0%Z \/ t = 1%Z ->
  ps_idle ps c n t env ->
  edges_of idom pre = 0 -> edges_of idom mid = 0 ->
  ps_state ps c n 1 t t 0 (run D (Drive Li 1 :: ticks pre) env) /\
  ps_state ps c n 1 t (1 - t) (edges_of odom mid)
    (run D (Drive Li 1 :: ticks pre ++ Tick idom :: ticks mid) env) /\
  ps_state ps c n 0 t (1 - t) (edges_of odom mid + edges_of odom post)
    (run D (pulse ps pre mid post) env).
Proof.
  intros Ht Hidle Hpre Hmid. unfold ps_idle in Hidle.
  assert (Ht' : (1 - t = 0 \/ 1 - t = 1)%Z) by (destruct Ht as [->| ->]; auto).
  apply (PS_state_drive 0 1 _ _ _ _ Ht Ht) in Hidle.
  apply (PS_state_run _ _ _ pre _ _ (or_intror Hpre) Ht Ht) in Hidle.
  apply (PS_state_same _ _ _ 0) in Hidle.
  split; [exact Hidle|].
  apply (PS_state_pulse _ _ Ht) in Hidle.
  apply (PS_state_run _ _ _ mid _ _ (or_intror Hmid) Ht Ht') in Hidle.
  cbn [Nat.add] in Hidle.
  split.
  - rewrite run_cons, run_app, run_cons. exact Hidle.
  - apply (PS_state_drive 1 0 _ _ _ _ Ht Ht') in Hidle.
    apply (PS_state_run _ _ _ post _ _ (or_introl Logic.eq_refl) Ht Ht')
      in Hidle.
    unfold pulse. fold Li idom.
    rewrite run_cons, run_app, run_cons, run_app, run_cons. exact Hidle.
Qed.

(** The output during a destination cycle is the exclusive or of the
    resynchronized toggle in this cycle and in the cycle before. *)
Lemma PS_edge_detect env :
  env (LRst idom) = 0%Z -> env (LRst odom) = 0%Z ->
  let env1 := step D env (Tick odom) in
  let env2 := step D env1 (Tick odom) in
  env2 Lo = Z.lxor (env2 Lot) (env1 Lot).
Proof.
  intros Hri Hro. cbn zeta.
  destruct (PS_tick env odom Hri Hro) as (_ & Tri & Tro & _ & _ & _ & Tot & _).
  cbn zeta in *.
  destruct (PS_tick _ odom Tri Tro) as (_ & _ & _ & _ & _ & Upv & Uot & Uo).
  cbn zeta in *. rewrite Uo, Upv, String.eqb_refl, Uot, Tot.
  rewrite !wrap_bit.
  set (x := step D (step D env (Tick odom)) (Tick odom) final).
  set (y := step D env (Tick odom) final).
  rewrite Z.mod_mod by lia.
  pose proof (Z.mod_pos_bound x 2 ltac:(lia)) as Hx.
  pose proof (Z.mod_pos_bound y 2 ltac:(lia)) as Hy.
  assert (Ex : (x mod 2 = 0 \/ x mod 2 = 1)%Z) by lia.
  assert (Ey : (y mod 2 = 0 \/ y mod 2 = 1)%Z) by lia.
  destruct Ex as [-> | ->], Ey as [-> | ->]; reflexivity.
Qed.

(** A further source edge with the input still high flips the toggle
    back, when the destination runs on another clock. *)
Lemma PS_state_flip told tnew env :
  String.eqb odom idom = false ->
  told = 0%Z \/ told = 1%Z -> tnew = 0%Z \/ tnew = 1%Z ->
  ps_state ps c n 1 told tnew 0 env ->
  ps_state ps c n 1 told (1 - tnew) 0 (step D env (Tick idom)).
Proof.
  intros Hne Hto Htn Hst.
  pose proof (PS_state_final _ _ _ _ _ Hst) as Hf.
  destruct Hst as (Hi & Hri & Hro & Hit & Hs & Hpv & Hot & Ho).
  destruct (PS_tick env idom Hri Hro) as (Ti & Tri & Tro & Tit & Ts & Tpv & Tot & To).
  cbn zeta in *. unfold ps_state.
  unfold Li, Lit, Lot, Lpv, Lo, final, c3, idom, odom in *.
  rewrite Hne in *.
  assert (Hs' : forall j, j < n ->
    step D env (Tick (ps_i_domain ps)) (LSig (S (S (S c)) + j)) = told).
  { intros j Hj. rewrite Ts, Hs by assumption. reflexivity. }
  repeat split; auto.
  - rewrite Ti. exact Hi.
  - rewrite Tit, String.eqb_refl, Hit, Hi.
    now destruct Htn as [->| ->].
  - rewrite Tpv, Hpv. reflexivity.
  - rewrite Tot, Hs' by lia.
    destruct (Nat.leb_spec n 0); [lia|]. now apply bit_wrap.
Qed.

(** Once the new toggle value has passed the delayed copy the design
    is quiescent again. *)
Lemma PS_state_rearmed told tnew k env :
  n < k ->
  ps_state ps c n 0 told tnew k env -> ps_idle ps c n tnew env.
Proof.
  intros Hk (Hi & Hri & Hro & Hit & Hs & Hpv & Hot & Ho).
  unfold ps_idle, ps_state. repeat split; auto.
  - intros j Hj. rewrite Hs by assumption.
    destruct (Nat.ltb_spec j k); [|lia]. now destruct (Nat.ltb j 0).
  - rewrite Hpv. destruct (Nat.ltb_spec n k); [|lia].
    now destruct (Nat.ltb n 0).
  - rewrite Hot. destruct (Nat.leb_spec n k); [|lia].
    now destruct (Nat.leb n 0).
Qed.

Lemma PS_state_out iv told tnew k env :
  told = 0%Z \/ told = 1%Z -> tnew = 0%Z \/ tnew = 1%Z ->
  ps_state ps c n iv told tnew k env ->
  env Lo = if Nat.eqb k n then Z.lxor told tnew else 0%Z.
Proof.
  intros Hto Htn (_ & _ & _ & _ & _ & Hpv & Hot & Ho).
  unfold Lo. rewrite Ho, Hpv, Hot.
  destruct (Nat.leb_spec n k), (Nat.ltb_spec n k), (Nat.eqb_spec k n);
    try lia; destruct Hto as [->| ->], Htn as [->| ->]; reflexivity.
Qed.

(** The output over a pulse of one source cycle: low while the input
    waits for its source edge, then high exactly when [n] destination
    edges have passed since that edge. *)
Lemma PS_pulse t env pre mid post :
  t = 0%Z \/ t = 1%Z ->
  ps_idle ps c n t env ->
  edges_of idom pre = 0 -> edges_of idom mid = 0 ->
  run D (Drive Li 1 :: ticks pre) env Lo = 0%Z /\
  run D (Drive Li 1 :: ticks pre ++ Tick idom :: ticks mid) env Lo =
    (if Nat.eqb (edges_of odom mid) n then 1%Z else 0%Z) /\
  run D (pulse ps pre mid post) env Lo =
    (if Nat.eqb (edges_of odom (mid ++ post)) n then 1%Z else 0%Z).
Proof.
  intros Ht Hidle Hpre Hmid.
  assert (Ht' : (1 - t = 0 \/ 1 - t = 1)%Z) by (destruct Ht as [->| ->]; auto).
  destruct (PS_pulse_states t env pre mid post Ht Hidle Hpre Hmid)
    as (H1 & H2 & H3).
  repeat split.
  - rewrite (PS_state_out _ _ _ _ _ Ht Ht H1).
    destruct (Nat.eqb 0 n); [|reflexivity]. now destruct Ht as [->| ->].
  - rewrite (PS_state_out _ _ _ _ _ Ht Ht' H2).
    destruct (Nat.eqb _ n); [|reflexivity]. now destruct Ht as [->| ->].
  - rewrite (PS_state_out _ _ _ _ _ Ht Ht' H3), edges_of_app.
    destruct (Nat.eqb _ n); [|reflexivity]. now destruct Ht as [->| ->].
Qed.

(** A pulse leaves the design quiescent with the toggle flipped as soon
    as more than [n] destination edges have passed since its source
    edge. *)
Lemma PS_pulse_rearms t env pre mid post :
  t = 0%Z \/ t = 1%Z ->
  ps_idle ps c n t env ->
  edges_of idom pre = 0 -> edges_of idom mid = 0 ->
  n < edges_of odom (mid ++ post) ->
  ps_idle ps c n (1 - t) (run D (pulse ps pre mid post) env).
Proof.
  intros Ht Hidle Hpre Hmid Hk. rewrite edges_of_app in Hk.
  destruct (PS_pulse_states t env pre mid post Ht Hidle Hpre Hmid)
    as (_ & _ & H3).
  now apply (PS_state_rearmed t _ _ _ Hk).
Qed.

(** Two assertions sampled by consecutive source edges, with no
    destination edge between them, cancel: the design is quiescent
    with the old toggle value, and the output stays low whatever edges
    follow. *)
Lemma PS_double_pulse t env clks :
  String.eqb odom idom = false ->
  t = 0%Z \/ t = 1%Z ->
  ps_idle ps c n t env ->
  ps_idle ps c n t (run D (double_pulse ps) env) /\
  run D (double_pulse ps ++ ticks clks) env Lo = 0%Z.
Proof.
  intros Hne Ht Hidle. unfold ps_idle in Hidle.
  assert (Ht' : (1 - t = 0 \/ 1 - t = 1)%Z) by (destruct Ht as [->| ->]; auto).
  apply (PS_state_drive 0 1 _ _ _ _ Ht Ht) in Hidle.
  apply (PS_state_pulse _ _ Ht) in Hidle.
  apply (PS_state_flip _ _ _ Hne Ht Ht') in Hidle.
  replace (1 - (1 - t))%Z with t in Hidle by lia.
  apply (PS_state_drive 1 0 _ _ _ _ Ht Ht) in Hidle.
  split; [exact Hidle|].
  apply (PS_state_run _ _ _ clks _ _ (or_introl Logic.eq_refl) Ht Ht)
    in Hidle.
  rewrite run_app.
  etransitivity; [exact (PS_state_out _ _ _ _ _ Ht Ht Hidle)|].
  destruct (Nat.eqb _ n); [|reflexivity]. now destruct Ht as [->| ->].
Qed.

End PulseDesign.


(** ** What the constructors accept *)

Lemma FFSynchronizer_init_inv i o o_domain reset reset_less stages mid self :
  FFSynchronizer_init i o o_domain reset reset_less stages mid = Return self ->
  exists z, stages = PyInt z /\ (2 <= z)%Z /\
    self = mkFFSynchronizer i o reset reset_less o_domain z mid.
Proof.
  unfold FFSynchronizer_init. destruct (_check_stages stages) as [[]|e] eqn:E;
    cbn [bind]; [|discriminate].
  apply check_stages_accepts in E. destruct E as (z & -> & Hz).
  intros H. injection H as <-. now exists z.
Qed.

Lemma AsyncFFSynchronizer_init_inv i o domain stages async_edge mid self :
  AsyncFFSynchronizer_init i o domain stages async_edge mid = Return self ->
  exists z, stages = PyInt z /\ (2 <= z)%Z /\
    (async_edge = "pos" \/ async_edge = "neg") /\
    self = mkAsyncFFSynchronizer i o domain z async_edge mid.
Proof.
  unfold AsyncFFSynchronizer_init.
  destruct (_check_stages stages) as [[]|e] eqn:E; cbn [bind]; [|discriminate].
  apply check_stages_accepts in E. destruct E as (z & -> & Hz).
  destruct (String.eqb_spec async_edge "pos") as [Ep|Ep]; cbn [orb negb].
  - intros H. injection H as <-. exists z. auto.
  - destruct (String.eqb_spec async_edge "neg") as [En|En]; cbn [negb];
      [|discriminate].
    intros H. injection H as <-. exists z. auto.
Qed.

Lemma ResetSynchronizer_init_inv arst domain stages mid self :
  ResetSynchronizer_init arst domain stages mid = Return self ->
  exists z, stages = PyInt z /\ (2 <= z)%Z /\
    self = mkResetSynchronizer arst domain z mid.
Proof.
  unfold ResetSynchronizer_init. destruct (_check_stages stages) as [[]|e] eqn:E;
    cbn [bind]; [|discriminate].
  apply check_stages_accepts in E. destruct E as (z & -> & Hz).
  intros H. injection H as <-. now exists z.
Qed.

Lemma nth_error_chain dom first stage n rest k :
  k < n ->
  nth_error (chain dom first stage n ++ rest) k =
  Some (dom, Assign (Sig (stage k))
               match k with 0 => first | S j => Sig (stage j) end).
Proof.
  intros Hk. rewrite nth_error_app1 by now rewrite chain_length.
  unfold chain. rewrite nth_error_map.
  rewrite (nth_error_nth' _ 0) by now rewrite length_seq.
  now rewrite seq_nth.
Qed.

Lemma stage_count (z : Z) :
  (2 <= z)%Z -> z = Z.of_nat (Z.to_nat z) /\ 2 <= Z.to_nat z.
Proof. intros H. split; lia. Qed.

(** * The claims *)

(** C1.  For a destination domain that has a clock (any but
    ["comb"]), the default elaboration of an [AsyncFFSynchronizer]
    declares one private, local clock domain ["async_ff"] with an
    asynchronous reset, whose clock and reset signals are the first two
    signals it creates.  Its clock is tied combinationally to the
    destination domain's clock and its reset is driven combinationally
    by the source [i], by [~i] when the edge is ["neg"].  In that domain
    lies a chain of [stages] one-bit registers, created next, each
    initialised to 1, the leading one fed the constant 0 and every later
    one fed the stage before it, and the output [o] is combinationally
    the final stage. *)
Theorem C1_async_ff_default_structure {Custom : Type}
    (i : Signal) (o : Value) (domain : string) (stages : PyVal)
    (async_edge : string) (self : AsyncFFSynchronizer)
    (platform : Platform Custom) (next : nat) :
  AsyncFFSynchronizer_init i o domain stages async_edge PyNone = Return self ->
  get_async_ff_sync platform = None ->
  domain <> "comb" ->
  exists (n : nat) (m : Module) (cd : ClockDomain) (trigger : Value),
    stages = PyInt (Z.of_nat n) /\ 2 <= n /\
    AsyncFFSynchronizer_elaborate self platform next =
      Built m (next + 2 + n) /\
    domains m = [cd] /\
    cd_name cd = "async_ff" /\
    cd_local cd = true /\
    cd_async_reset cd = true /\
    uid (cd_clk cd) = next /\
    uid (cd_rst cd) = next + 1 /\
    submodules m = [] /\
    d m = chain "async_ff" (Const 0) (af_stage (next + 2)) n ++
          [("comb", Assign (ResetSignal "async_ff") trigger);
           ("comb", Assign (ClockSignal "async_ff") (ClockSignal domain));
           ("comb", Assign o (Sig (af_stage (next + 2) (n - 1))))] /\
    (async_edge = "pos" /\ trigger = Sig i \/
     async_edge = "neg" /\ trigger = Not (Sig i)) /\
    (forall k, uid (af_stage (next + 2) k) = next + 2 + k /\
               sig_shape (af_stage (next + 2) k) = unsigned 1 /\
               sig_reset (af_stage (next + 2) k) = 1%Z) /\
    (forall k, k < n ->
       nth_error (d m) k =
       Some ("async_ff",
             Assign (Sig (af_stage (next + 2) k))
                    match k with
                    | 0 => Const 0
                    | S j => Sig (af_stage (next + 2) j)
                    end)).
Proof.
  intros Hinit Hhook Hdom.
  apply AsyncFFSynchronizer_init_inv in Hinit.
  destruct Hinit as (z & -> & Hz & Hedge & ->).
  destruct (stage_count z Hz) as (Ez & Hn).
  exists (Z.to_nat z),
    (af_module (mkAsyncFFSynchronizer i o domain z async_edge PyNone) next),
    (af_domain_decl next),
    (af_trigger (mkAsyncFFSynchronizer i o domain z async_edge PyNone)).
  replace (next + 2) with (S (S next)) by lia.
  replace (next + 1) with (S next) by lia.
  repeat split; try reflexivity; try assumption.
  - now rewrite <- Ez.
  - apply AsyncFFSynchronizer_elaborate_default; auto. cbn. lia.
  - unfold af_trigger. cbn [af_edge af_i].
    destruct Hedge as [-> | ->]; [left|right]; split; reflexivity.
  - intros k Hk. cbn [af_module d af_stages]. now apply nth_error_chain.
Qed.

(** C2.  The default elaboration of an [FFSynchronizer] holds exactly
    [stages] cascaded registers in the destination domain, stage 0 fed
    by the source [i] and every later stage by the one before it, and
    the output [o] is combinationally the final stage.  Hence, with the
    input held at [v] over [k] destination edges, the output is [v]
    once [k] reaches [stages], and before that it still shows what the
    chain held [k] stages upstream of the final one. *)
Theorem C2_ff_chain_and_delay {Custom : Type}
    (i o : Signal) (o_domain : string) (reset : Z) (reset_less : bool)
    (stages : PyVal) (self : FFSynchronizer) (platform : Platform Custom)
    (next : nat) (ctx : list ClockDomain) (env : Env) (v : Z) (k : nat) :
  FFSynchronizer_init i o o_domain reset reset_less stages PyNone = Return self ->
  get_ff_sync platform = None ->
  uid i < next -> uid o < next -> uid i <> uid o ->
  o_domain <> "comb" ->
  sig_shape o = sig_shape i ->
  ff_resetting self env = false ->
  env (LSig (uid i)) = v ->
  wrap (sig_shape i) v = v ->
  1 <= k ->
  exists (n : nat) (m : Module),
    stages = PyInt (Z.of_nat n) /\ 2 <= n /\
    FFSynchronizer_elaborate self platform next = Built m (next + n) /\
    domains m = [] /\ submodules m = [] /\
    d m = chain o_domain (Sig i) (ff_stage self next) n ++
          [("comb", Assign (Sig o) (Sig (ff_stage self next (n - 1))))] /\
    List.length (d m) = n + 1 /\
    run (in_context ctx (design_of m)) (repeat (Tick o_domain) k) env
        (LSig (uid o)) =
    if Nat.leb n k then v
    else wrap (sig_shape i) (env (LSig (next + (n - 1 - k)))).
Proof.
  intros Hinit Hhook Hi Ho Hio Hdom Hsh Hres Hv Hfit Hk.
  apply FFSynchronizer_init_inv in Hinit.
  destruct Hinit as (z & -> & Hz & ->).
  destruct (stage_count z Hz) as (Ez & Hn).
  set (self := mkFFSynchronizer i o reset reset_less o_domain z PyNone) in *.
  exists (Z.to_nat z), (ff_module self next).
  repeat split; try reflexivity.
  - now rewrite <- Ez.
  - assumption.
  - apply FFSynchronizer_elaborate_default; auto. cbn. lia.
  - cbn [ff_module d]. rewrite length_app, chain_length. reflexivity.
  - assert (Hcomb : is_comb (ff_o_domain self) = false)
      by (apply String.eqb_neq; exact Hdom).
    pose proof (FF_delay self next ctx ltac:(cbn; lia) Hi Ho Hcomb env v k
                  Hio Hres Hv Hk) as Hrun.
    cbn [ff_o_domain ff_o ff_i ff_stages self] in Hrun. rewrite Hrun.
    rewrite Hsh, wrap_idem.
    destruct (Nat.leb (Z.to_nat z) k); [exact Hfit|reflexivity].
Qed.

(** C8.  Every register stage of the default [FFSynchronizer]
    structure has the shape of the input [i], the configured reset
    value and the configured reset-exemption flag.  On a destination
    edge with the domain's reset asserted, every stage of a non-exempt
    chain takes the reset value (one the register can hold), while an
    exempt chain shifts as if no reset were asserted. *)
Theorem C8_ff_stage_shape_and_reset {Custom : Type}
    (i o : Signal) (o_domain : string) (reset : Z) (reset_less : bool)
    (stages : PyVal) (self : FFSynchronizer) (platform : Platform Custom)
    (next : nat) (ctx : list ClockDomain) (env : Env) (k : nat) :
  FFSynchronizer_init i o o_domain reset reset_less stages PyNone = Return self ->
  get_ff_sync platform = None ->
  uid i < next -> uid o < next ->
  o_domain <> "comb" ->
  env (LRst o_domain) <> 0%Z ->
  wrap (sig_shape i) reset = reset ->
  k < Z.to_nat (int_value stages) ->
  exists (m : Module) (s : Signal) (src : Value),
    FFSynchronizer_elaborate self platform next =
      Built m (next + Z.to_nat (int_value stages)) /\
    nth_error (d m) k = Some (o_domain, Assign (Sig s) src) /\
    src = match k with
          | 0 => Sig i
          | S j => Sig (ff_stage self next j)
          end /\
    uid s = next + k /\
    sig_shape s = sig_shape i /\
    sig_reset s = reset /\
    sig_reset_less s = reset_less /\
    step (in_context ctx (design_of m)) env (Tick o_domain) (LSig (uid s)) =
      if reset_less then wrap (sig_shape i) (eval env src) else reset.
Proof.
  intros Hinit Hhook Hi Ho Hdom Hrst Hfit Hk.
  apply FFSynchronizer_init_inv in Hinit.
  destruct Hinit as (z & -> & Hz & ->). cbn [int_value] in *.
  set (self := mkFFSynchronizer i o reset reset_less o_domain z PyNone) in *.
  exists (ff_module self next), (ff_stage self next k),
    (match k with 0 => Sig i | S j => Sig (ff_stage self next j) end).
  repeat split; try reflexivity.
  - apply FFSynchronizer_elaborate_default; auto. cbn. lia.
  - cbn [ff_module d]. now apply nth_error_chain.
  - assert (Hcomb : is_comb (ff_o_domain self) = false)
      by (apply String.eqb_neq; exact Hdom).
    pose proof (FF_tick_stage self next ctx ltac:(cbn; lia) Hi Ho Hcomb env k
                  Hk) as Htick.
    cbn [ff_o_domain ff_i ff_reset self] in Htick.
    cbn [uid ff_stage]. rewrite Htick.
    unfold ff_resetting. cbn [ff_reset_less ff_o_domain self].
    destruct reset_less; cbn [negb andb]; [now destruct k|].
    destruct (Z.eqb_spec (env (LRst o_domain)) 0); [contradiction|].
    exact Hfit.
Qed.

(** C5.  For a destination domain that has a clock of its own (any
    but ["comb"] and the private ["async_ff"]): with the edge ["pos"]
    (respectively ["neg"]) driving the source high (low) forces the
    output to 1 in that very event, and no number of clock edges changes
    it while the source stays there.  Once the source is released the
    output stays at 1 for fewer than [stages] destination edges and is 0
    from the [stages]-th edge on. *)
Theorem C5_async_assert_sync_deassert {Custom : Type}
    (i : Signal) (o : Value) (domain : string) (stages : PyVal)
    (async_edge : string) (self : AsyncFFSynchronizer)
    (platform : Platform Custom) (next : nat) (ctx : list ClockDomain)
    (out : Loc) (env : Env) (clks : list string) (k : nat) :
  AsyncFFSynchronizer_init i o domain stages async_edge PyNone = Return self ->
  get_async_ff_sync platform = None ->
  domain <> "comb" ->
  domain <> "async_ff" ->
  uid i < next ->
  target o = Some (out, unsigned 1) ->
  (forall u, out = LSig u -> u < next) ->
  out <> LSig (uid i) ->
  out <> LRst "async_ff" ->
  out <> LClk "async_ff" ->
  out <> LClk domain ->
  exists (n : nat) (m : Module) (asserted released : Z),
    stages = PyInt (Z.of_nat n) /\
    AsyncFFSynchronizer_elaborate self platform next =
      Built m (next + 2 + n) /\
    (async_edge = "pos" /\ asserted = 1%Z /\ released = 0%Z \/
     async_edge = "neg" /\ asserted = 0%Z /\ released = 1%Z) /\
    let D := in_context ctx (design_of m) in
    let env1 := step D env (Drive (LSig (uid i)) asserted) in
    let env2 := step D env1 (Drive (LSig (uid i)) released) in
    env1 out = 1%Z /\
    run D (ticks clks) env1 out = 1%Z /\
    run D (repeat (Tick domain) k) env2 out =
      if Nat.ltb k n then 1%Z else 0%Z.
Proof.
  intros Hinit Hhook Hdc Hda Hi Ht Hout Hoi Hor Hoc Hod.
  apply AsyncFFSynchronizer_init_inv in Hinit.
  destruct Hinit as (z & -> & Hz & Hedge & ->).
  destruct (stage_count z Hz) as (Ez & Hn).
  set (self := mkAsyncFFSynchronizer i o domain z async_edge PyNone) in *.
  exists (Z.to_nat z), (af_module self next),
    (af_assert_level self), (af_release_level self).
  assert (Hpos : 1 <= Z.to_nat (af_stages self)) by (cbn; lia).
  assert (Hi' : uid (af_i self) < S (S next)) by (cbn; lia).
  assert (Hout' : forall u, out = LSig u -> u < S (S next))
    by (intros u E; apply Hout in E; lia).
  replace (next + 2) with (S (S next)) by lia.
  split; [now rewrite <- Ez|].
  split; [apply AsyncFFSynchronizer_elaborate_default; auto; cbn; lia|].
  split.
  { unfold af_assert_level, af_release_level. cbn [af_edge self].
    destruct Hedge as [-> | ->]; [left|right]; repeat split; reflexivity. }
  cbn zeta.
  destruct (AF_assert_release self next ctx out Hpos Hi' Ht Hout' Hoi Hor Hoc
              Hda Hod env k) as (H1 & Hs & H2).
  cbn [af_i af_domain af_stages self] in *.
  split; [exact H1|]. split; [|exact H2].
  apply (AF_asserted_run self next ctx out Hpos Hi' Ht Hout' Hoi Hor).
  - apply (AF_drive_i self next ctx out Hpos Hi' Ht Hout' Hoi Hor).
  - exact H1.
Qed.

(** C7.  For a domain that has a reset (any but ["comb"]),
    [ResetSynchronizer.elaborate] returns exactly the
    [AsyncFFSynchronizer] built from the [arst] input, the named
    domain's reset signal as output, and the same domain name, stage
    count and max-input-delay; the framework's elaboration of the one
    is that of the other.  On the default path, for a domain other than
    the private ["async_ff"], the domain's reset is therefore asserted
    in the event that raises [arst] and released at the [stages]-th edge
    of the domain's clock after [arst] falls. *)
Theorem C7_reset_synchronizer_delegates {Custom : Type}
    (arst : Signal) (domain : string) (stages max_input_delay : PyVal)
    (self : ResetSynchronizer) (platform : Platform Custom)
    (next fuel : nat) (ctx : list ClockDomain) (env : Env) (k : nat) :
  ResetSynchronizer_init arst domain stages max_input_delay = Return self ->
  domain <> "comb" ->
  exists (a : AsyncFFSynchronizer),
    ResetSynchronizer_elaborate self platform = Return a /\
    AsyncFFSynchronizer_init arst (ResetSignal domain) domain stages "pos"
      max_input_delay = Return a /\
    af_i a = arst /\
    af_o a = ResetSignal domain /\
    af_domain a = domain /\
    PyInt (af_stages a) = stages /\
    af_max_input_delay a = max_input_delay /\
    Fragment_get (S fuel) (EResetSynchronizer self) platform next =
      Fragment_get fuel (EAsyncFFSynchronizer a) platform next /\
    (max_input_delay = PyNone ->
     get_async_ff_sync platform = None ->
     domain <> "async_ff" ->
     uid arst < next ->
     exists D : Design,
       Fragment_get (S (S fuel)) (EResetSynchronizer self) platform next =
         Built D (next + 2 + Z.to_nat (af_stages a)) /\
       overridden D = [] /\
       In ("comb",
           Assign (ResetSignal domain)
                  (Sig (af_stage (next + 2) (Z.to_nat (af_stages a) - 1))))
          (stmts D) /\
       let G := in_context ctx D in
       let env1 := step G env (Drive (LSig (uid arst)) 1) in
       let env2 := step G env1 (Drive (LSig (uid arst)) 0) in
       env1 (LRst domain) = 1%Z /\
       run G (repeat (Tick domain) k) env2 (LRst domain) =
         if Nat.ltb k (Z.to_nat (af_stages a)) then 1%Z else 0%Z).
Proof.
  intros Hinit Hdc. apply ResetSynchronizer_init_inv in Hinit.
  destruct Hinit as (z & -> & Hz & ->).
  set (a := mkAsyncFFSynchronizer arst (ResetSignal domain) domain z "pos"
              max_input_delay).
  assert (Ha : AsyncFFSynchronizer_init arst (ResetSignal domain) domain
                 (PyInt z) "pos" max_input_delay = Return a).
  { unfold AsyncFFSynchronizer_init.
    rewrite (proj2 (check_stages_accepts (PyInt z))) by (now exists z).
    reflexivity. }
  assert (He : forall p : Platform Custom,
    ResetSynchronizer_elaborate
      (mkResetSynchronizer arst domain z max_input_delay) p = Return a).
  { intros p. unfold ResetSynchronizer_elaborate, ResetSignal_init.
    cbn [rs_arst rs_domain rs_stages rs_max_input_delay].
    destruct (String.eqb_spec domain "comb") as [E|_]; [contradiction|].
    cbn [bind]. exact Ha. }
  exists a. split; [apply He|]. split; [exact Ha|].
  do 5 (split; [reflexivity|]).
  split.
  { cbn [Fragment_get]. now rewrite He. }
  intros -> Hhook Hdom Hi.
  assert (Hpos : 1 <= Z.to_nat (af_stages a)) by (cbn; lia).
  replace (next + 2) with (S (S next)) by lia.
  exists (design_of (af_module a next)). split.
  { cbn [Fragment_get]. rewrite He.
    rewrite AsyncFFSynchronizer_elaborate_default by (auto; cbn; lia).
    reflexivity. }
  split; [reflexivity|].
  split.
  { cbn [design_of stmts af_module d af_o af_stages a]. apply in_or_app.
    right. cbn [In]. auto. }
  cbn zeta.
  assert (Hor : LRst domain <> LRst "async_ff") by congruence.
  assert (Hi' : uid (af_i a) < S (S next)) by (cbn; lia).
  destruct (AF_assert_release a next ctx (LRst domain) Hpos Hi' Logic.eq_refl
              ltac:(intros; discriminate) ltac:(discriminate) Hor
              ltac:(discriminate) Hdom ltac:(discriminate) env k)
    as (H1 & _ & H2).
  split; [exact H1|exact H2].
Qed.

(** C4.  A [PulseSynchronizer] keeps a toggle register in the source
    domain that is XORed with the input on every source edge, passes it
    through an internal [FFSynchronizer] of [sync_stages] stages into
    the destination domain, and drives the output combinationally with
    the XOR of the resynchronized toggle and a copy of it delayed by one
    destination edge.  The output during a destination cycle is thus
    the XOR of the resynchronized toggle in this cycle and in the one
    before.  An isolated input pulse of one source cycle (raised,
    sampled by exactly one source edge, lowered, with destination edges
    falling anywhere before, during and after, as under a faster
    destination clock) leaves the output low until that source edge,
    and from then on the output is high exactly while the number of
    destination edges since that edge is [sync_stages]: one output
    pulse, one destination cycle long. *)
Theorem C4_pulse_synchronizer {Custom : Type}
    (i_domain o_domain : string) (z : Z) (next0 next1 : nat)
    (self : PulseSynchronizer) (platform : Platform Custom)
    (next fuel : nat) (ctx : list ClockDomain) (env e0 : Env) (t : Z)
    (pre mid post : list string) :
  PulseSynchronizer_init i_domain o_domain (PyInt z) next0 =
    Return (self, next1) ->
  (2 <= z)%Z ->
  get_ff_sync platform = None ->
  next1 <= next ->
  i_domain <> "comb" -> o_domain <> "comb" ->
  e0 (LRst i_domain) = 0%Z -> e0 (LRst o_domain) = 0%Z ->
  t = 0%Z \/ t = 1%Z ->
  ps_idle self next (Z.to_nat z) t env ->
  edges_of i_domain pre = 0 -> edges_of i_domain mid = 0 ->
  exists (m : Module) (ff_sync : FFSynchronizer) (D : Design),
    PulseSynchronizer_elaborate self platform next =
      Built m (S (S (S next))) /\
    d m =
      [(i_domain, Assign (Sig (ps_itoggle next))
                         (Xor (Sig (ps_itoggle next)) (Sig (ps_i self))));
       (o_domain, Assign (Sig (ps_otoggle_prev next)) (Sig (ps_otoggle next)));
       ("comb", Assign (Sig (ps_o self))
                       (Xor (Sig (ps_otoggle next))
                            (Sig (ps_otoggle_prev next))))] /\
    submodules m = [("ff_sync", EFFSynchronizer ff_sync)] /\
    FFSynchronizer_init (ps_itoggle next) (ps_otoggle next) o_domain 0 true
      (PyInt z) PyNone = Return ff_sync /\
    Fragment_get (S (S fuel)) (EPulseSynchronizer self) platform next =
      Built D (S (S (S next)) + Z.to_nat z) /\
    stmts D = d m ++ d (ff_module ff_sync (S (S (S next)))) /\
    overridden D = [] /\
    let G := in_context ctx D in
    let e1 := step G e0 (Tick o_domain) in
    let e2 := step G e1 (Tick o_domain) in
    let i := LSig (uid (ps_i self)) in
    let o := LSig (uid (ps_o self)) in
    e2 o = Z.lxor (e2 (LSig (uid (ps_otoggle next))))
                  (e1 (LSig (uid (ps_otoggle next)))) /\
    run G (Drive i 1 :: ticks pre) env o = 0%Z /\
    run G (Drive i 1 :: ticks pre ++ Tick i_domain :: ticks mid) env o =
      (if Nat.eqb (edges_of o_domain mid) (Z.to_nat z) then 1%Z else 0%Z) /\
    run G (pulse self pre mid post) env o =
      (if Nat.eqb (edges_of o_domain (mid ++ post)) (Z.to_nat z)
       then 1%Z else 0%Z).
Proof.
  intros Hinit Hz Hhook Hnext Hid Hod Hri Hro Ht Hidle Hpre Hmid.
  unfold PulseSynchronizer_init in Hinit. cbn [isinstance_int negb orb int_value] in Hinit.
  destruct (Z.ltb_spec z 1) as [|_]; [lia|].
  cbn [default_Signal new_Signal] in Hinit. injection Hinit as <- <-.
  set (self := mkPulseSynchronizer _ _ i_domain o_domain (PyInt z)) in *.
  exists (ps_module self next z), (ps_ff_sync self next z),
    (ps_design self next z).
  assert (Hic : is_comb (ps_i_domain self) = false)
    by (apply String.eqb_neq; exact Hid).
  assert (Hoc : is_comb (ps_o_domain self) = false)
    by (apply String.eqb_neq; exact Hod).
  assert (Hpos : 1 <= Z.to_nat z) by lia.
  assert (Hui : uid (ps_i self) < next) by (cbn; lia).
  assert (Huo : uid (ps_o self) < next) by (cbn; lia).
  assert (Hio : uid (ps_i self) <> uid (ps_o self)) by (cbn; lia).
  split; [now apply PulseSynchronizer_elaborate_built|].
  split; [reflexivity|]. split; [reflexivity|].
  split.
  { unfold FFSynchronizer_init.
    rewrite (proj2 (check_stages_accepts (PyInt z))) by (now exists z).
    reflexivity. }
  split; [now apply Fragment_get_pulse|].
  split; [reflexivity|]. split; [reflexivity|].
  cbn zeta. split.
  - exact (PS_edge_detect self next z ctx Hpos Hui Huo Hio Logic.eq_refl
             Hic Hoc e0 Hri Hro).
  - exact (PS_pulse self next z ctx Hpos Hui Huo Hio Logic.eq_refl Hic Hoc
             t env pre mid post Ht Hidle Hpre Hmid).
Qed.

(** C3.  [_check_stages], which the constructors of [FFSynchronizer],
    [AsyncFFSynchronizer] and [ResetSynchronizer] call, rejects the
    stage count 1 as unsafe, but the constructor of [PulseSynchronizer]
    accepts it; the rejection only comes when that generator is
    elaborated. *)
Theorem C3_pulse_synchronizer_accepts_one_stage {Custom : Type}
    (i_domain o_domain : string) (platform : Platform Custom)
    (next next' : nat) :
  _check_stages (PyInt 1) =
    Raise (mkExc ValueError
             "Synchronization stage count may not safely be less than 2" []) /\
  exists self : PulseSynchronizer,
    PulseSynchronizer_init i_domain o_domain (PyInt 1) next =
      Return (self, S (S next)) /\
    ps_sync_stages self = PyInt 1 /\
    PulseSynchronizer_elaborate self platform next' =
      Failed (mkExc ValueError
                "Synchronization stage count may not safely be less than 2" []).
Proof.
  split; [reflexivity|]. eexists. split; [reflexivity|].
  split; reflexivity.
Qed.

(** The three constructors that call [_check_stages] do follow the
    contract: [TypeError] unless the count is an [int] of at least 1,
    [ValueError] for the count 1, success from 2 on. *)
Lemma check_stages_contract (stages : PyVal) :
  match _check_stages stages with
  | Return _ => exists z, stages = PyInt z /\ (2 <= z)%Z
  | Raise e =>
      (exc_class e = TypeError /\
       (isinstance_int stages = false \/ (int_value stages < 1)%Z)) \/
      (exc_class e = ValueError /\
       isinstance_int stages = true /\ int_value stages = 1%Z)
  end.
Proof.
  destruct (_check_stages stages) as [[]|e] eqn:E.
  - now apply check_stages_accepts.
  - unfold _check_stages in E.
    destruct (isinstance_int stages) eqn:Ei; cbn [negb orb] in E.
    + destruct (Z.ltb_spec (int_value stages) 1).
      * injection E as <-. left. auto.
      * destruct (Z.ltb_spec (int_value stages) 2); [|discriminate].
        injection E as <-. right. repeat split. lia.
    + injection E as <-. left. auto.
Qed.

Lemma constructors_reject_like_check_stages i o dom r rl stages mid arst e :
  _check_stages stages = Raise e ->
  FFSynchronizer_init i o dom r rl stages mid = Raise e /\
  (forall ov edge, AsyncFFSynchronizer_init i ov dom stages edge mid = Raise e) /\
  ResetSynchronizer_init arst dom stages mid = Raise e.
Proof.
  intros E. unfold FFSynchronizer_init, AsyncFFSynchronizer_init,
    ResetSynchronizer_init. rewrite E. repeat split.
Qed.

(** C6.  When a max-input-delay was requested and the platform does
    not expose the generator's own override hook ([get_ff_sync] for an
    [FFSynchronizer], [get_async_ff_sync] for an [AsyncFFSynchronizer];
    whatever else the platform exposes), elaboration fails with
    [NotImplementedError]; nothing is built and no fallback is taken. *)
Theorem C6_unsupported_input_delay {Custom : Type}
    (platform_f platform_a : Platform Custom) (f : FFSynchronizer)
    (a : AsyncFFSynchronizer) (next : nat) :
  get_ff_sync platform_f = None ->
  get_async_ff_sync platform_a = None ->
  ff_max_input_delay f <> PyNone ->
  af_max_input_delay a <> PyNone ->
  FFSynchronizer_elaborate f platform_f next =
    Failed (mkExc NotImplementedError
      "Platform '{}' does not support constraining input delay for FFSynchronizer"
      [PyStr (type_name platform_f)]) /\
  AsyncFFSynchronizer_elaborate a platform_a next =
    Failed (mkExc NotImplementedError
      "Platform '{}' does not support constraining input delay for AsyncFFSynchronizer"
      [PyStr (type_name platform_a)]).
Proof.
  intros Hf Ha Hdf Hda.
  unfold FFSynchronizer_elaborate, AsyncFFSynchronizer_elaborate.
  rewrite Hf, Ha.
  destruct (ff_max_input_delay f); try contradiction;
    destruct (af_max_input_delay a); try contradiction; split; reflexivity.
Qed.

(** C9.  When the platform exposes [get_ff_sync], elaborating an
    [FFSynchronizer] is that hook applied to the generator itself,
    whatever its parameters and whatever else the platform exposes, and
    no default structure is built; likewise [get_async_ff_sync] for an
    [AsyncFFSynchronizer]. *)
Theorem C9_platform_override {Custom : Type}
    (platform_f platform_a : Platform Custom)
    (ff_hook : FFSynchronizer -> Custom)
    (af_hook : AsyncFFSynchronizer -> Custom)
    (f : FFSynchronizer) (a : AsyncFFSynchronizer) (next : nat) :
  get_ff_sync platform_f = Some ff_hook ->
  get_async_ff_sync platform_a = Some af_hook ->
  FFSynchronizer_elaborate f platform_f next = Override (ff_hook f) /\
  AsyncFFSynchronizer_elaborate a platform_a next = Override (af_hook a) /\
  (forall m n, FFSynchronizer_elaborate f platform_f next <> Built m n) /\
  (forall m n, AsyncFFSynchronizer_elaborate a platform_a next <> Built m n).
Proof.
  intros Hf Ha. unfold FFSynchronizer_elaborate, AsyncFFSynchronizer_elaborate.
  rewrite Hf, Ha. repeat split; discriminate.
Qed.

(** C10.  The hook lookup comes before the max-input-delay check: on
    a platform with the hook elaboration is the hook applied to the
    generator and raises nothing of its own, even with a max-input-delay
    requested; and whenever elaboration of any generator raises its
    [NotImplementedError], the platform has no hook and a
    max-input-delay was requested. *)
Theorem C10_hook_precedes_delay_check {Custom : Type}
    (platform hooked : Platform Custom)
    (ff_hook : FFSynchronizer -> Custom)
    (af_hook : AsyncFFSynchronizer -> Custom)
    (f : FFSynchronizer) (a : AsyncFFSynchronizer) (next : nat) :
  get_ff_sync hooked = Some ff_hook ->
  get_async_ff_sync hooked = Some af_hook ->
  ff_max_input_delay f <> PyNone ->
  af_max_input_delay a <> PyNone ->
  FFSynchronizer_elaborate f hooked next = Override (ff_hook f) /\
  AsyncFFSynchronizer_elaborate a hooked next = Override (af_hook a) /\
  (forall e, FFSynchronizer_elaborate f hooked next <> Failed e) /\
  (forall e, AsyncFFSynchronizer_elaborate a hooked next <> Failed e) /\
  (forall g e, FFSynchronizer_elaborate g platform next = Failed e ->
     exc_class e = NotImplementedError ->
     get_ff_sync platform = None /\ ff_max_input_delay g <> PyNone) /\
  (forall g e, AsyncFFSynchronizer_elaborate g platform next = Failed e ->
     exc_class e = NotImplementedError ->
     get_async_ff_sync platform = None /\ af_max_input_delay g <> PyNone).
Proof.
  intros Hf Ha Hdf Hda.
  unfold FFSynchronizer_elaborate, AsyncFFSynchronizer_elaborate.
  rewrite Hf, Ha. do 4 (split; [reflexivity || discriminate|]).
  split.
  - intros g e. destruct (get_ff_sync platform); [discriminate|].
    destruct (ff_max_input_delay g); cbn [is_None negb];
      try (intros _ _; split; [reflexivity|discriminate]).
    destruct (comprehension _ _ _) as [flops next1].
    unfold last_item. destruct (rev flops); [|discriminate].
    intros H. injection H as <-. discriminate.
  - intros g e. destruct (get_async_ff_sync platform); [discriminate|].
    destruct (af_max_input_delay g); cbn [is_None negb];
      try (intros _ _; split; [reflexivity|discriminate]).
    destruct (new_ClockDomain _ _ _ _) as [cd next0].
    destruct (comprehension _ _ _) as [flops next1].
    unfold ClockSignal_init.
    destruct (String.eqb (af_domain g) "comb").
    + intros H. injection H as <-. discriminate.
    + unfold last_item. destruct (rev flops); [|discriminate].
      intros H. injection H as <-. discriminate.
Qed.

(** ** The claims at concrete inputs *)

Lemma C1_witness :
  exists m : Module,
    AsyncFFSynchronizer_elaborate sample_af no_platform 2 = Built m 7 /\
    map cd_name (domains m) = ["async_ff"] /\
    map (fun cd => uid (cd_clk cd)) (domains m) = [2] /\
    map (fun cd => uid (cd_rst cd)) (domains m) = [3] /\
    nth_error (d m) 0 = Some ("async_ff", Assign (Sig (af_stage 4 0)) (Const 0)).
Proof.
  destruct (C1_async_ff_default_structure sample_i (Sig sample_o) "sync"
              (PyInt 3) "pos" sample_af no_platform 2
              Logic.eq_refl Logic.eq_refl ltac:(discriminate))
    as (n & m & cd & tr & Hs & Hn & He & Hd & Hnm & _ & _ & Hclk & Hrst & _ &
        _ & _ & _ & Hk).
  injection Hs as Hs. assert (n = 3) by lia. subst n.
  exists m. rewrite Hd. cbn [map]. rewrite Hnm, Hclk, Hrst.
  repeat split; [exact He|apply (Hk 0); lia].
Defined.

Lemma C2_witness :
  exists m : Module,
    FFSynchronizer_elaborate sample_ff no_platform 2 = Built m 5 /\
    run (in_context [] (design_of m)) (repeat (Tick "sync") 3) charged
        (LSig 1) = 0%Z.
Proof.
  destruct (C2_ff_chain_and_delay sample_i sample_o "sync" 1 false (PyInt 3)
              sample_ff no_platform 2 [] charged 0 3
              Logic.eq_refl Logic.eq_refl ltac:(cbn; lia) ltac:(cbn; lia)
              ltac:(cbn; lia) ltac:(discriminate) Logic.eq_refl Logic.eq_refl
              Logic.eq_refl Logic.eq_refl ltac:(lia))
    as (n & m & Hs & Hn & He & _ & _ & _ & _ & Hrun).
  injection Hs as Hs. assert (n = 3) by lia. subst n.
  exists m. split; [exact He|exact Hrun].
Defined.

Lemma C4_witness :
  exists D : Design,
    Fragment_get 2 (EPulseSynchronizer sample_ps) no_platform 2 = Built D 7 /\
    run (in_context [] D)
        (Drive (LSig 0) 1 :: ticks ["b"; "b"; "b"] ++
         Tick "a" :: ticks ["b"]) quiet (LSig 1) = 0%Z /\
    run (in_context [] D)
        (pulse sample_ps ["b"; "b"; "b"] ["b"] ["b"]) quiet (LSig 1) = 1%Z.
Proof.
  destruct (C4_pulse_synchronizer "a" "b" 2 0 2 sample_ps no_platform 2 0 []
              quiet quiet 0 ["b"; "b"; "b"] ["b"] ["b"]
              Logic.eq_refl ltac:(lia) Logic.eq_refl ltac:(lia)
              ltac:(discriminate) ltac:(discriminate)
              Logic.eq_refl Logic.eq_refl (or_introl Logic.eq_refl)
              ltac:(repeat split; intros; reflexivity)
              Logic.eq_refl Logic.eq_refl)
    as (m & ff & D & _ & _ & _ & _ & Hf & _ & _ & _ & _ & Hmid & Hrun).
  exists D. split; [exact Hf|]. split; [exact Hmid|exact Hrun].
Defined.

Lemma C5_witness :
  exists m : Module,
    AsyncFFSynchronizer_elaborate sample_af no_platform 2 = Built m 7 /\
    let D := in_context [] (design_of m) in
    let env1 := step D quiet (Drive (LSig 0) 1) in
    let env2 := step D env1 (Drive (LSig 0) 0) in
    env1 (LSig 1) = 1%Z /\
    run D (ticks ["sync"; "sync"]) env1 (LSig 1) = 1%Z /\
    run D (repeat (Tick "sync") 3) env2 (LSig 1) = 0%Z.
Proof.
  destruct (C5_async_assert_sync_deassert sample_i (Sig sample_o) "sync"
              (PyInt 3) "pos" sample_af no_platform 2 [] (LSig 1) quiet
              ["sync"; "sync"] 3
              Logic.eq_refl Logic.eq_refl ltac:(discriminate)
              ltac:(discriminate) ltac:(cbn; lia) Logic.eq_refl
              ltac:(intros u E; injection E as <-; lia)
              ltac:(discriminate) ltac:(discriminate) ltac:(discriminate)
              ltac:(discriminate))
    as (n & m & hi & lo & Hs & He & Hlev & Hrun).
  injection Hs as Hs. assert (n = 3) by lia. subst n.
  destruct Hlev as [(_ & -> & ->)|(E & _)]; [|discriminate E].
  exists m. split; [exact He|exact Hrun].
Defined.

Lemma C6_witness :
  exists e e' : Exception,
    FFSynchronizer_elaborate delayed_ff async_only_platform 2 = Failed e /\
    exc_class e = NotImplementedError /\
    AsyncFFSynchronizer_elaborate delayed_af ff_only_platform 2 = Failed e' /\
    exc_class e' = NotImplementedError.
Proof.
  destruct (C6_unsupported_input_delay async_only_platform ff_only_platform
              delayed_ff delayed_af 2
              Logic.eq_refl Logic.eq_refl ltac:(discriminate)
              ltac:(discriminate)) as (Hf & Ha).
  do 2 eexists. split; [exact Hf|]. split; [reflexivity|].
  split; [exact Ha|reflexivity].
Defined.

Lemma C7_witness :
  exists (a : AsyncFFSynchronizer) (D : Design),
    ResetSynchronizer_elaborate sample_rs no_platform = Return a /\
    af_o a = ResetSignal "sync" /\
    Fragment_get 3 (EResetSynchronizer sample_rs) no_platform 2 = Built D 6 /\
    let G := in_context [] D in
    let env1 := step G quiet (Drive (LSig 0) 1) in
    let env2 := step G env1 (Drive (LSig 0) 0) in
    env1 (LRst "sync") = 1%Z /\
    run G (repeat (Tick "sync") 2) env2 (LRst "sync") = 0%Z.
Proof.
  destruct (C7_reset_synchronizer_delegates sample_i "sync" (PyInt 2) PyNone
              sample_rs no_platform 2 1 [] quiet 2 Logic.eq_refl
              ltac:(discriminate))
    as (a & He & _ & _ & Ho & _ & Hst & _ & _ & Hb).
  destruct (Hb Logic.eq_refl Logic.eq_refl ltac:(discriminate) ltac:(cbn; lia))
    as (D & Hf & _ & _ & Hrun).
  injection Hst as Hst. rewrite Hst in *.
  exists a, D. repeat split; [exact He|exact Ho|exact Hf|apply Hrun|apply Hrun].
Defined.

Lemma C8_witness :
  exists (m : Module) (s : Signal),
    FFSynchronizer_elaborate sample_ff no_platform 2 = Built m 5 /\
    nth_error (d m) 1 =
      Some ("sync", Assign (Sig s) (Sig (ff_stage sample_ff 2 0))) /\
    sig_shape s = unsigned 1 /\ sig_reset s = 1%Z /\
    sig_reset_less s = false /\
    step (in_context [] (design_of m)) (upd charged (LRst "sync") 1)
         (Tick "sync") (LSig (uid s)) = 1%Z.
Proof.
  destruct (C8_ff_stage_shape_and_reset sample_i sample_o "sync" 1 false
              (PyInt 3) sample_ff no_platform 2 []
              (upd charged (LRst "sync") 1) 1
              Logic.eq_refl Logic.eq_refl ltac:(cbn; lia) ltac:(cbn; lia)
              ltac:(discriminate) ltac:(discriminate) Logic.eq_refl
              ltac:(cbn; lia))
    as (m & s & src & He & Hnth & -> & _ & Hsh & Hr & Hrl & Hstep).
  exists m, s. repeat split; assumption.
Defined.

Lemma C9_witness :
  FFSynchronizer_elaborate sample_ff ff_only_platform 2 =
    Override "ff_sync cell" /\
  AsyncFFSynchronizer_elaborate sample_af async_only_platform 2 =
    Override "async_ff_sync cell".
Proof.
  destruct (C9_platform_override ff_only_platform async_only_platform
              (fun _ => "ff_sync cell")
              (fun _ => "async_ff_sync cell") sample_ff sample_af 2
              Logic.eq_refl Logic.eq_refl) as (Hf & Ha & _).
  split; [exact Hf|exact Ha].
Defined.

Lemma C10_witness :
  FFSynchronizer_elaborate delayed_ff vendor_platform 2 =
    Override "vendor ff_sync cell" /\
  AsyncFFSynchronizer_elaborate delayed_af vendor_platform 2 =
    Override "vendor async_ff_sync cell".
Proof.
  destruct (C10_hook_precedes_delay_check
              (mkPlatform "Plain" None None None) vendor_platform
              (fun _ => "vendor ff_sync cell")
              (fun _ => "vendor async_ff_sync cell") delayed_ff delayed_af 2
              Logic.eq_refl Logic.eq_refl ltac:(discriminate)
              ltac:(discriminate)) as (Hf & Ha & _).
  split; [exact Hf|exact Ha].
Defined.

(** * Further properties of the code *)

(** ** Validation *)

Lemma check_stages_ok (stages : PyVal) :
  isinstance_int stages = true -> (2 <= int_value stages)%Z ->
  _check_stages stages = Return tt.
Proof.
  intros Hi Hz. unfold _check_stages. rewrite Hi. cbn [negb orb].
  destruct (Z.ltb_spec (int_value stages) 1); [lia|].
  destruct (Z.ltb_spec (int_value stages) 2); [lia|reflexivity].
Qed.

Lemma PulseSynchronizer_init_eq (i_domain o_domain : string)
    (sync_stages : PyVal) (next : nat) :
  PulseSynchronizer_init i_domain o_domain sync_stages next =
  if isinstance_int sync_stages && (1 <=? int_value sync_stages)%Z
  then Return (mkPulseSynchronizer
                 (mkSignal next (unsigned 1) "i" 0 false)
                 (mkSignal (S next) (unsigned 1) "o" 0 false)
                 i_domain o_domain sync_stages, S (S next))
  else Raise (mkExc TypeError
                "sync_stages must be a positive integer, not '{!r}'"
                [sync_stages]).
Proof.
  unfold PulseSynchronizer_init.
  destruct (isinstance_int sync_stages); cbn [negb orb andb]; [|reflexivity].
  destruct (Z.ltb_spec (int_value sync_stages) 1),
           (Z.leb_spec 1 (int_value sync_stages)); try lia; reflexivity.
Qed.

Lemma PulseSynchronizer_elaborate_eq {Custom : Type}
    (i_domain o_domain : string) (sync_stages : PyVal) (next0 next1 : nat)
    (self : PulseSynchronizer) (platform : Platform Custom) (next : nat) :
  PulseSynchronizer_init i_domain o_domain sync_stages next0 =
    Return (self, next1) ->
  PulseSynchronizer_elaborate self platform next =
  if (2 <=? int_value sync_stages)%Z
  then Built (ps_module self next (int_value sync_stages)) (S (S (S next)))
  else Failed (mkExc ValueError
                 "Synchronization stage count may not safely be less than 2" []).
Proof.
  rewrite PulseSynchronizer_init_eq.
  destruct (isinstance_int sync_stages) eqn:Ei; cbn [andb]; [|discriminate].
  destruct (Z.leb_spec 1 (int_value sync_stages)) as [H1|]; [|discriminate].
  intros H. injection H as <- <-.
  unfold PulseSynchronizer_elaborate, FFSynchronizer_init, _check_stages.
  cbn [ps_sync_stages default_Signal new_Signal]. rewrite Ei. cbn [negb orb].
  destruct (Z.ltb_spec (int_value sync_stages) 1); [lia|].
  destruct (Z.ltb_spec (int_value sync_stages) 2),
           (Z.leb_spec 2 (int_value sync_stages)); try lia; reflexivity.
Qed.

Lemma AsyncFFSynchronizer_elaborate_eq {Custom : Type}
    (a : AsyncFFSynchronizer) (platform : Platform Custom) (next : nat) :
  (1 <= af_stages a)%Z ->
  AsyncFFSynchronizer_elaborate a platform next =
    match get_async_ff_sync platform with
    | Some hook => Override (hook a)
    | None =>
        if is_None (af_max_input_delay a)
        then if String.eqb (af_domain a) "comb"
             then Failed (mkExc ValueError "Domain '{}' does not have a clock"
                                [PyStr (af_domain a)])
             else Built (af_module a next)
                        (S (S next) + Z.to_nat (af_stages a))
        else Failed (mkExc NotImplementedError
          "Platform '{}' does not support constraining input delay for AsyncFFSynchronizer"
          [PyStr (type_name platform)])
    end.
Proof.
  intros Hz. destruct (get_async_ff_sync platform) as [hook|] eqn:Eh.
  - unfold AsyncFFSynchronizer_elaborate. now rewrite Eh.
  - destruct (is_None (af_max_input_delay a)) eqn:En.
    + destruct (String.eqb_spec (af_domain a) "comb") as [Ec|Ec].
      * unfold AsyncFFSynchronizer_elaborate, ClockSignal_init.
        rewrite Eh, En, Ec. cbn [negb String.eqb Ascii.eqb Bool.eqb].
        destruct (new_ClockDomain _ _ _ _) as [cd next0].
        now destruct (comprehension _ _ _) as [flops next1].
      * apply AsyncFFSynchronizer_elaborate_default; auto.
        now destruct (af_max_input_delay a).
    + unfold AsyncFFSynchronizer_elaborate. now rewrite Eh, En.
Qed.

(** [ResetSynchronizer.elaborate], in closed form. *)
Lemma ResetSynchronizer_elaborate_eq {Custom : Type}
    (arst : Signal) (domain : string) (z : Z) (mid : PyVal)
    (platform : Platform Custom) :
  (2 <= z)%Z ->
  ResetSynchronizer_elaborate (mkResetSynchronizer arst domain z mid) platform =
  if String.eqb domain "comb"
  then Raise (mkExc ValueError "Domain '{}' does not have a reset"
                    [PyStr domain])
  else Return (mkAsyncFFSynchronizer arst (ResetSignal domain) domain z "pos"
                                     mid).
Proof.
  intros Hz. unfold ResetSynchronizer_elaborate, ResetSignal_init.
  cbn [rs_arst rs_domain rs_stages rs_max_input_delay].
  destruct (String.eqb domain "comb"); [reflexivity|]. cbn [bind].
  unfold AsyncFFSynchronizer_init.
  rewrite (proj2 (check_stages_accepts (PyInt z))) by (now exists z).
  reflexivity.
Qed.

Lemma FFSynchronizer_elaborate_eq {Custom : Type}
    (f : FFSynchronizer) (platform : Platform Custom) (next : nat) :
  (1 <= ff_stages f)%Z ->
  FFSynchronizer_elaborate f platform next =
    match get_ff_sync platform with
    | Some hook => Override (hook f)
    | None =>
        if is_None (ff_max_input_delay f)
        then Built (ff_module f next) (next + Z.to_nat (ff_stages f))
        else Failed (mkExc NotImplementedError
          "Platform '{}' does not support constraining input delay for FFSynchronizer"
          [PyStr (type_name platform)])
    end.
Proof.
  intros Hz. destruct (get_ff_sync platform) as [hook|] eqn:Eh.
  - unfold FFSynchronizer_elaborate. now rewrite Eh.
  - destruct (is_None (ff_max_input_delay f)) eqn:En.
    + apply FFSynchronizer_elaborate_default; auto.
      now destruct (ff_max_input_delay f).
    + unfold FFSynchronizer_elaborate. now rewrite Eh, En.
Qed.

(** X1.  [_check_stages] sorts every value into one of three
    outcomes: it returns exactly for an [int] of at least 2, raises
    [ValueError] exactly for an [int] equal to 1 (which includes
    [True]), and raises [TypeError], carrying the offending value,
    exactly for anything that is not an [int] or is below 1 (which
    includes [False]). *)
Theorem check_stages_cases (stages : PyVal) :
  (_check_stages stages = Return tt <->
   isinstance_int stages = true /\ (2 <= int_value stages)%Z) /\
  (_check_stages stages =
     Raise (mkExc ValueError
              "Synchronization stage count may not safely be less than 2" []) <->
   isinstance_int stages = true /\ int_value stages = 1%Z) /\
  (_check_stages stages =
     Raise (mkExc TypeError
              "Synchronization stage count must be a positive integer, not {!r}"
              [stages]) <->
   isinstance_int stages = false \/ (int_value stages < 1)%Z) /\
  _check_stages (PyBool true) =
    Raise (mkExc ValueError
             "Synchronization stage count may not safely be less than 2" []) /\
  _check_stages (PyBool false) =
    Raise (mkExc TypeError
             "Synchronization stage count must be a positive integer, not {!r}"
             [PyBool false]).
Proof.
  unfold _check_stages.
  destruct (isinstance_int stages); cbn [negb orb].
  - destruct (Z.ltb_spec (int_value stages) 1);
      [|destruct (Z.ltb_spec (int_value stages) 2)];
      repeat split; try discriminate; try (intros; lia);
      try (intros [? ?]; (discriminate || lia));
      try (intros [?|?]; (discriminate || lia)); auto.
  - repeat split; try discriminate; try (intros [? ?]; discriminate); auto.
Qed.

(** X2.  [AsyncFFSynchronizer.__init__] checks the stage count before
    the edge: a stage count [_check_stages] rejects fails with that
    exception whatever the edge is; with an accepted stage count any
    edge other than the exact strings ["pos"] and ["neg"] fails with
    the [ValueError] that carries the edge; and otherwise the
    generator holds the arguments unchanged. *)
Theorem AsyncFFSynchronizer_init_cases (i : Signal) (o : Value)
    (domain : string) (stages : PyVal) (async_edge : string)
    (max_input_delay : PyVal) :
  AsyncFFSynchronizer_init i o domain stages async_edge max_input_delay =
  match _check_stages stages with
  | Raise e => Raise e
  | Return _ =>
      if String.eqb async_edge "pos" || String.eqb async_edge "neg"
      then Return (mkAsyncFFSynchronizer i o domain (int_value stages)
                     async_edge max_input_delay)
      else Raise (mkExc ValueError
        "AsyncFFSynchronizer async edge must be one of 'pos' or 'neg', not {!r}"
        [PyStr async_edge])
  end /\
  (forall self,
     AsyncFFSynchronizer_init i o domain stages async_edge max_input_delay =
       Return self <->
     isinstance_int stages = true /\ (2 <= int_value stages)%Z /\
     (async_edge = "pos" \/ async_edge = "neg") /\
     self = mkAsyncFFSynchronizer i o domain (int_value stages) async_edge
              max_input_delay).
Proof.
  split.
  - unfold AsyncFFSynchronizer_init.
    destruct (_check_stages stages); cbn [bind]; [|reflexivity].
    now destruct (String.eqb async_edge "pos" || String.eqb async_edge "neg").
  - intros self. split.
    + intros H. apply AsyncFFSynchronizer_init_inv in H.
      destruct H as (z & -> & Hz & He & ->). cbn. auto.
    + intros (Hi & Hz & He & ->). unfold AsyncFFSynchronizer_init.
      rewrite check_stages_ok by auto.
      cbn [bind]. destruct He as [-> | ->]; reflexivity.
Qed.

(** X3.  [PulseSynchronizer.__init__] accepts exactly the [int]
    values of at least 1, [True] among them, and then creates two new
    one-bit signals [i] and [o], distinct from each other, advancing
    the signal counter by two; any other value raises [TypeError] with
    the value. *)
Theorem PulseSynchronizer_init_cases (i_domain o_domain : string)
    (sync_stages : PyVal) (next : nat) :
  (forall self next',
     PulseSynchronizer_init i_domain o_domain sync_stages next =
       Return (self, next') <->
     isinstance_int sync_stages = true /\ (1 <= int_value sync_stages)%Z /\
     next' = S (S next) /\
     self = mkPulseSynchronizer
              (mkSignal next (unsigned 1) "i" 0 false)
              (mkSignal (S next) (unsigned 1) "o" 0 false)
              i_domain o_domain sync_stages) /\
  (PulseSynchronizer_init i_domain o_domain sync_stages next =
     Raise (mkExc TypeError
              "sync_stages must be a positive integer, not '{!r}'"
              [sync_stages]) <->
   isinstance_int sync_stages = false \/ (int_value sync_stages < 1)%Z) /\
  (exists self,
     PulseSynchronizer_init i_domain o_domain (PyBool true) next =
       Return (self, S (S next)) /\
     uid (ps_i self) <> uid (ps_o self)).
Proof.
  rewrite PulseSynchronizer_init_eq.
  split; [|split].
  - intros self next'. destruct (isinstance_int sync_stages); cbn [andb].
    + destruct (Z.leb_spec 1 (int_value sync_stages)) as [Hge|Hlt]; split.
      * intros E. injection E as <- <-. auto.
      * intros (_ & _ & -> & ->). reflexivity.
      * discriminate.
      * intros (_ & H1 & _). lia.
    + split; [discriminate|]. intros (H & _). discriminate.
  - destruct (isinstance_int sync_stages); cbn [andb].
    + destruct (Z.leb_spec 1 (int_value sync_stages)) as [Hge|Hlt]; split;
        try discriminate; auto.
      intros [H1|H1]; [discriminate|lia].
    + split; auto.
  - eexists. split; [reflexivity|]. cbn. lia.
Qed.

(** X4.  A [PulseSynchronizer] the constructor accepted elaborates,
    on any platform, exactly when its stage count is at least 2; with
    the accepted count 1 (or [True]) elaboration fails with the
    [ValueError] of the internal [FFSynchronizer]'s constructor. *)
Theorem PulseSynchronizer_elaborate_cases {Custom : Type}
    (i_domain o_domain : string) (sync_stages : PyVal) (next0 next1 : nat)
    (self : PulseSynchronizer) (platform : Platform Custom) (next : nat) :
  PulseSynchronizer_init i_domain o_domain sync_stages next0 =
    Return (self, next1) ->
  PulseSynchronizer_elaborate self platform next =
  if (2 <=? int_value sync_stages)%Z
  then Built (ps_module self next (int_value sync_stages)) (S (S (S next)))
  else Failed (mkExc ValueError
                 "Synchronization stage count may not safely be less than 2" []).
Proof. apply PulseSynchronizer_elaborate_eq. Qed.

Lemma PulseSynchronizer_elaborate_cases_witness :
  PulseSynchronizer_elaborate sample_ps no_platform 2 =
    Built (ps_module sample_ps 2 2) 5.
Proof.
  exact (PulseSynchronizer_elaborate_cases "a" "b" (PyInt 2) 0 2 sample_ps
           no_platform 2 Logic.eq_refl).
Defined.

(** ** Elaboration *)

(** X5.  For generators the constructors accepted, [elaborate] has
    these outcomes and no other: the hook's outcome when the platform
    has the generator's hook; the [NotImplementedError] when it has
    none and a max-input-delay was requested; for an
    [AsyncFFSynchronizer] whose domain is ["comb"], the [ValueError]
    of [ClockSignal]; and otherwise the default module, with the
    signal counter advanced by the stage count for an
    [FFSynchronizer], and by two more, for the signals of the private
    domain, for an [AsyncFFSynchronizer].  In particular [flops[-1]]
    never raises. *)
Theorem elaborate_cases {Custom : Type}
    (i o : Signal) (ov : Value) (o_domain : string) (reset : Z)
    (reset_less : bool) (stages : PyVal) (async_edge : string)
    (max_input_delay : PyVal) (f : FFSynchronizer)
    (a : AsyncFFSynchronizer) (platform : Platform Custom) (next : nat) :
  FFSynchronizer_init i o o_domain reset reset_less stages max_input_delay =
    Return f ->
  AsyncFFSynchronizer_init i ov o_domain stages async_edge max_input_delay =
    Return a ->
  FFSynchronizer_elaborate f platform next =
    match get_ff_sync platform with
    | Some hook => Override (hook f)
    | None =>
        if is_None max_input_delay
        then Built (ff_module f next) (next + Z.to_nat (int_value stages))
        else Failed (mkExc NotImplementedError
          "Platform '{}' does not support constraining input delay for FFSynchronizer"
          [PyStr (type_name platform)])
    end /\
  AsyncFFSynchronizer_elaborate a platform next =
    match get_async_ff_sync platform with
    | Some hook => Override (hook a)
    | None =>
        if is_None max_input_delay
        then if String.eqb o_domain "comb"
             then Failed (mkExc ValueError "Domain '{}' does not have a clock"
                                [PyStr o_domain])
             else Built (af_module a next)
                        (next + 2 + Z.to_nat (int_value stages))
        else Failed (mkExc NotImplementedError
          "Platform '{}' does not support constraining input delay for AsyncFFSynchronizer"
          [PyStr (type_name platform)])
    end.
Proof.
  intros Hf Ha.
  apply FFSynchronizer_init_inv in Hf. destruct Hf as (z & -> & Hz & ->).
  apply AsyncFFSynchronizer_init_inv in Ha.
  destruct Ha as (z' & Ez & _ & _ & ->). injection Ez as <-.
  cbn [int_value]. split.
  - rewrite FFSynchronizer_elaborate_eq by (cbn; lia). reflexivity.
  - rewrite AsyncFFSynchronizer_elaborate_eq by (cbn; lia).
    replace (next + 2) with (S (S next)) by lia. reflexivity.
Qed.

Lemma elaborate_cases_witness :
  FFSynchronizer_elaborate sample_ff no_platform 2 =
    Built (ff_module sample_ff 2) 5 /\
  AsyncFFSynchronizer_elaborate sample_af no_platform 2 =
    Built (af_module sample_af 2) 7.
Proof.
  exact (elaborate_cases sample_i sample_o (Sig sample_o) "sync" 1 false
           (PyInt 3) "pos" PyNone sample_ff sample_af no_platform 2
           Logic.eq_refl Logic.eq_refl).
Defined.

(** X6.  Through the framework's elaboration loop a
    [ResetSynchronizer] is a plain [AsyncFFSynchronizer], the one built
    from [arst] and the domain's reset signal.  For the domain ["comb"]
    the [ValueError] of [ResetSignal] comes first, whatever the
    platform.  Otherwise a platform overrides the generator through
    [get_async_ff_sync], which receives that [AsyncFFSynchronizer]; an
    unsupported max-input-delay is reported by the
    [NotImplementedError] of [AsyncFFSynchronizer]; and the default
    design is built else.  The outcome does not depend on the
    platform's [get_reset_sync]: the hook exists or not, it is never
    looked up. *)
Theorem ResetSynchronizer_through_framework {Custom : Type}
    (arst : Signal) (domain : string) (stages max_input_delay : PyVal)
    (self : ResetSynchronizer) (platform : Platform Custom)
    (next fuel : nat) :
  ResetSynchronizer_init arst domain stages max_input_delay = Return self ->
  let a := mkAsyncFFSynchronizer arst (ResetSignal domain) domain
             (int_value stages) "pos" max_input_delay in
  Fragment_get (S (S fuel)) (EResetSynchronizer self) platform next =
  (if String.eqb domain "comb"
   then Failed (mkExc ValueError "Domain '{}' does not have a reset"
                      [PyStr domain])
   else
     match get_async_ff_sync platform with
     | Some hook => Built (mkDesign [] [] [EAsyncFFSynchronizer a]) next
     | None =>
         if is_None max_input_delay
         then Built (design_of (af_module a next))
                    (next + 2 + Z.to_nat (int_value stages))
         else Failed (mkExc NotImplementedError
           "Platform '{}' does not support constraining input delay for AsyncFFSynchronizer"
           [PyStr (type_name platform)])
     end) /\
  (forall hook, get_async_ff_sync platform = Some hook ->
     AsyncFFSynchronizer_elaborate a platform next = Override (hook a)) /\
  (forall reset_hook,
     Fragment_get (S (S fuel)) (EResetSynchronizer self)
       (mkPlatform (type_name platform) (get_ff_sync platform)
                   (get_async_ff_sync platform) reset_hook) next =
     Fragment_get (S (S fuel)) (EResetSynchronizer self) platform next).
Proof.
  intros Hinit. apply ResetSynchronizer_init_inv in Hinit.
  destruct Hinit as (z & -> & Hz & ->). cbn [int_value]. cbn zeta.
  set (a := mkAsyncFFSynchronizer arst (ResetSignal domain) domain z "pos"
              max_input_delay).
  assert (G : forall p : Platform Custom,
    Fragment_get (S (S fuel))
      (EResetSynchronizer (mkResetSynchronizer arst domain z max_input_delay))
      p next =
    if String.eqb domain "comb"
    then Failed (mkExc ValueError "Domain '{}' does not have a reset"
                       [PyStr domain])
    else
      match get_async_ff_sync p with
      | Some hook => Built (mkDesign [] [] [EAsyncFFSynchronizer a]) next
      | None =>
          if is_None max_input_delay
          then Built (design_of (af_module a next))
                     (next + 2 + Z.to_nat z)
          else Failed (mkExc NotImplementedError
            "Platform '{}' does not support constraining input delay for AsyncFFSynchronizer"
            [PyStr (type_name p)])
      end).
  { intros p. cbn [Fragment_get].
    rewrite ResetSynchronizer_elaborate_eq by assumption.
    destruct (String.eqb_spec domain "comb") as [Ec|Ec]; [reflexivity|].
    fold a. rewrite AsyncFFSynchronizer_elaborate_eq by (cbn; lia).
    cbn [af_max_input_delay af_stages af_domain a].
    destruct (get_async_ff_sync p); [reflexivity|].
    destruct (is_None max_input_delay); [|reflexivity].
    destruct (String.eqb_spec domain "comb"); [contradiction|].
    replace (next + 2) with (S (S next)) by lia. reflexivity. }
  split; [apply G|]. split.
  - intros hook Hh. unfold AsyncFFSynchronizer_elaborate. now rewrite Hh.
  - intros reset_hook. rewrite !G. reflexivity.
Qed.

Lemma ResetSynchronizer_through_framework_witness :
  Fragment_get 2 (EResetSynchronizer sample_rs) reset_only_platform 2 =
    Built (design_of
             (af_module (mkAsyncFFSynchronizer sample_i (ResetSignal "sync")
                           "sync" 2 "pos" PyNone) 2)) 6.
Proof.
  exact (proj1 (ResetSynchronizer_through_framework sample_i "sync" (PyInt 2)
                  PyNone sample_rs reset_only_platform 2 0 Logic.eq_refl)).
Defined.

(** X7.  Through the framework's elaboration loop a
    [PulseSynchronizer] of at least 2 stages never fails, since its
    internal synchronizer requests no max-input-delay.  Its own three
    statements are always part of the design.  When the platform has
    the [get_ff_sync] hook the internal [FFSynchronizer] is left to it
    (its [elaborate] is the hook applied to it) and no register of the
    default chain is created; otherwise the default chain is inlined
    after the three statements. *)
Theorem PulseSynchronizer_through_framework {Custom : Type}
    (i_domain o_domain : string) (z : Z) (next0 next1 : nat)
    (self : PulseSynchronizer) (platform : Platform Custom)
    (next fuel : nat) :
  PulseSynchronizer_init i_domain o_domain (PyInt z) next0 =
    Return (self, next1) ->
  (2 <= z)%Z ->
  Fragment_get (S (S fuel)) (EPulseSynchronizer self) platform next =
  match get_ff_sync platform with
  | Some hook =>
      Built (mkDesign [] (d (ps_module self next z))
                      [EFFSynchronizer (ps_ff_sync self next z)])
            (S (S (S next)))
  | None => Built (ps_design self next z) (S (S (S next)) + Z.to_nat z)
  end /\
  (forall hook, get_ff_sync platform = Some hook ->
     FFSynchronizer_elaborate (ps_ff_sync self next z) platform
       (S (S (S next))) = Override (hook (ps_ff_sync self next z))) /\
  stmts (ps_design self next z) =
    d (ps_module self next z) ++
    d (ff_module (ps_ff_sync self next z) (S (S (S next)))) /\
  overridden (ps_design self next z) = [].
Proof.
  intros Hinit Hz.
  pose proof (PulseSynchronizer_elaborate_eq i_domain o_domain (PyInt z)
                next0 next1 self platform next Hinit) as He.
  cbn [int_value] in He. destruct (Z.leb_spec 2 z); [|lia].
  rewrite PulseSynchronizer_init_eq in Hinit. cbn in Hinit.
  destruct (Z.leb_spec 1 z); [|lia]. injection Hinit as <- <-.
  split; [|split; [|split; reflexivity]].
  - destruct (get_ff_sync platform) as [hook|] eqn:Eh.
    + cbn [Fragment_get]. rewrite He.
      cbn [ps_module submodules fold_left snd Fragment_get].
      unfold FFSynchronizer_elaborate. rewrite Eh. reflexivity.
    + apply Fragment_get_pulse; auto.
  - intros hook Eh. unfold FFSynchronizer_elaborate. now rewrite Eh.
Qed.

Lemma PulseSynchronizer_through_framework_witness :
  exists D : Design,
    Fragment_get 2 (EPulseSynchronizer sample_ps) vendor_platform 2 =
      Built D 5 /\
    List.length (stmts D) = 3 /\
    overridden D = [EFFSynchronizer (ps_ff_sync sample_ps 2 2)].
Proof.
  eexists. split.
  - exact (proj1 (PulseSynchronizer_through_framework "a" "b" 2 0 2 sample_ps
                    vendor_platform 2 0 Logic.eq_refl ltac:(lia))).
  - split; reflexivity.
Defined.

(** ** The registers a default elaboration creates *)

Lemma stage_name_inj (j k : nat) : stage_name j = stage_name k -> j = k.
Proof.
  unfold stage_name. intros E. cbn [String.append] in E.
  injection E as E.
  assert (Hnn : forall n, Nat.to_uint n <> Decimal.Nil).
  { intros n Hn. pose proof (Unsigned.of_to n) as Hof. rewrite Hn in Hof.
    cbn in Hof. subst n. discriminate Hn. }
  apply (f_equal NilZero.uint_of_string) in E.
  rewrite !NilZero.usu in E by apply Hnn.
  injection E as E. now apply Unsigned.to_uint_inj.
Qed.

Lemma registers_chain dom first stage n tail :
  is_comb dom = false ->
  flat_map (fun st : string * Statement =>
              match st with
              | (dom0, Assign (Sig s) _) => if is_comb dom0 then [] else [s]
              | _ => []
              end)
           (chain dom first stage n ++ map (fun s => ("comb", s)) tail) =
  map stage (seq 0 n).
Proof.
  intros Hd. rewrite flat_map_app.
  assert (Ht : flat_map (fun st : string * Statement =>
              match st with
              | (dom0, Assign (Sig s) _) => if is_comb dom0 then [] else [s]
              | _ => []
              end) (map (fun s => ("comb", s)) tail) = []).
  { induction tail as [|[lhs rhs] tail IH]; [reflexivity|].
    cbn [map flat_map]. rewrite IH. change (is_comb "comb") with true.
    now destruct lhs. }
  rewrite Ht, app_nil_r. induction n as [|n IH]; [reflexivity|].
  rewrite chain_S, flat_map_app, IH, seq_S, map_app.
  cbn [flat_map]. now rewrite Hd.
Qed.

Lemma map_add_seq (c n : nat) : map (fun k => c + k) (seq 0 n) = seq c n.
Proof.
  induction n as [|n IH]; [reflexivity|].
  now rewrite !seq_S, map_app, IH.
Qed.

(** X8.  The default elaborations create exactly [stages] registers
    each, with consecutive new identities and with pairwise distinct
    names [stage0], [stage1], ...  The registers of an
    [FFSynchronizer] start at the signal counter; those of an
    [AsyncFFSynchronizer] start two past it, behind the clock and the
    reset signal of its private domain.  The counter returned lies past
    all of them, so a generator elaborated next shares no signal with
    the one before. *)
Theorem default_registers_fresh {Custom : Type}
    (i o : Signal) (ov : Value) (o_domain : string) (reset : Z)
    (reset_less : bool) (stages : PyVal) (async_edge : string)
    (f : FFSynchronizer) (a : AsyncFFSynchronizer)
    (platform : Platform Custom) (next : nat) :
  FFSynchronizer_init i o o_domain reset reset_less stages PyNone = Return f ->
  AsyncFFSynchronizer_init i ov o_domain stages async_edge PyNone = Return a ->
  get_ff_sync platform = None ->
  get_async_ff_sync platform = None ->
  o_domain <> "comb" ->
  exists (n : nat) (m1 m2 : Module),
    stages = PyInt (Z.of_nat n) /\
    FFSynchronizer_elaborate f platform next = Built m1 (next + n) /\
    AsyncFFSynchronizer_elaborate a platform (next + n) =
      Built m2 (next + n + 2 + n) /\
    map uid (registers m1) = seq next n /\
    map (fun cd => uid (cd_clk cd)) (domains m2) = [next + n] /\
    map (fun cd => uid (cd_rst cd)) (domains m2) = [next + n + 1] /\
    map uid (registers m2) = seq (next + n + 2) n /\
    map sig_name (registers m1) = map stage_name (seq 0 n) /\
    map sig_name (registers m2) = map stage_name (seq 0 n) /\
    NoDup (map sig_name (registers m1)) /\
    (forall s1 s2, In s1 (registers m1) -> In s2 (registers m2) ->
       uid s1 <> uid s2).
Proof.
  intros Hf Ha Hhf Hha Hdom.
  apply FFSynchronizer_init_inv in Hf. destruct Hf as (z & -> & Hz & ->).
  apply AsyncFFSynchronizer_init_inv in Ha.
  destruct Ha as (z' & Ez & _ & _ & ->). injection Ez as <-.
  destruct (stage_count z Hz) as (Ez & Hn).
  set (f := mkFFSynchronizer i o reset reset_less o_domain z PyNone).
  set (a := mkAsyncFFSynchronizer i ov o_domain z async_edge PyNone).
  exists (Z.to_nat z), (ff_module f next), (af_module a (next + Z.to_nat z)).
  replace (next + Z.to_nat z + 2) with (S (S (next + Z.to_nat z))) by lia.
  replace (next + Z.to_nat z + 1) with (S (next + Z.to_nat z)) by lia.
  assert (R1 : registers (ff_module f next) =
               map (ff_stage f next) (seq 0 (Z.to_nat z))).
  { unfold registers. cbn [ff_module d ff_stages ff_o_domain f].
    apply (registers_chain o_domain _ _ _ [Assign (Sig o) _]).
    now apply String.eqb_neq. }
  assert (R2 : registers (af_module a (next + Z.to_nat z)) =
               map (af_stage (S (S (next + Z.to_nat z)))) (seq 0 (Z.to_nat z))).
  { unfold registers. cbn [af_module d af_stages a].
    apply (registers_chain "async_ff" _ _ _ [Assign _ _; Assign _ _; Assign _ _]).
    reflexivity. }
  assert (U1 : map uid (registers (ff_module f next)) = seq next (Z.to_nat z)).
  { rewrite R1, map_map. apply map_add_seq. }
  assert (U2 : map uid (registers (af_module a (next + Z.to_nat z))) =
               seq (S (S (next + Z.to_nat z))) (Z.to_nat z)).
  { rewrite R2, map_map. apply map_add_seq. }
  assert (N1 : map sig_name (registers (ff_module f next)) =
               map stage_name (seq 0 (Z.to_nat z)))
    by (rewrite R1, map_map; reflexivity).
  split; [now rewrite <- Ez|].
  split; [apply FFSynchronizer_elaborate_default; auto; cbn; lia|].
  split; [apply AsyncFFSynchronizer_elaborate_default; auto; cbn; lia|].
  split; [exact U1|]. split; [reflexivity|]. split; [reflexivity|].
  split; [exact U2|]. split; [exact N1|].
  split; [rewrite R2, map_map; reflexivity|].
  split.
  - rewrite N1. apply NoDup_map_NoDup_ForallPairs; [|apply seq_NoDup].
    intros x y _ _. apply stage_name_inj.
  - intros s1 s2 H1 H2 E.
    apply (in_map uid) in H1, H2. rewrite U1 in H1. rewrite U2 in H2.
    apply in_seq in H1, H2. lia.
Qed.

Lemma default_registers_fresh_witness :
  exists m1 m2 : Module,
    FFSynchronizer_elaborate sample_ff no_platform 2 = Built m1 5 /\
    AsyncFFSynchronizer_elaborate sample_af no_platform 5 = Built m2 10 /\
    map uid (registers m1) = [2; 3; 4] /\
    map (fun cd => uid (cd_clk cd)) (domains m2) = [5] /\
    map (fun cd => uid (cd_rst cd)) (domains m2) = [6] /\
    map uid (registers m2) = [7; 8; 9] /\
    map sig_name (registers m1) = ["stage0"; "stage1"; "stage2"].
Proof.
  destruct (default_registers_fresh sample_i sample_o (Sig sample_o) "sync"
              1 false (PyInt 3) "pos" sample_ff sample_af no_platform 2
              Logic.eq_refl Logic.eq_refl Logic.eq_refl Logic.eq_refl
              ltac:(discriminate))
    as (n & m1 & m2 & Hs & H1 & H2 & U1 & C2 & T2 & U2 & N1 & _).
  injection Hs as Hs. assert (n = 3) by lia. subst n.
  exists m1, m2. repeat split; assumption.
Defined.

(** ** Behaviour of the default structures *)

(** X9.  The default [FFSynchronizer] structure is a delay line for
    any input sequence, constant or not: once at least [stages] values
    have been sampled by destination edges with no reset asserted, the
    output is the value sampled [stages] edges before, counting the
    last edge. *)
Theorem FFSynchronizer_delay_line {Custom : Type}
    (i o : Signal) (o_domain : string) (reset : Z) (reset_less : bool)
    (stages : PyVal) (self : FFSynchronizer) (platform : Platform Custom)
    (next : nat) (ctx : list ClockDomain) (env : Env) (vs : list Z) :
  FFSynchronizer_init i o o_domain reset reset_less stages PyNone = Return self ->
  get_ff_sync platform = None ->
  uid i < next -> uid o < next -> uid i <> uid o ->
  o_domain <> "comb" ->
  sig_shape o = sig_shape i ->
  ff_resetting self env = false ->
  Z.to_nat (int_value stages) <= List.length vs ->
  exists m : Module,
    FFSynchronizer_elaborate self platform next =
      Built m (next + Z.to_nat (int_value stages)) /\
    run (in_context ctx (design_of m)) (sampled i o_domain vs) env
        (LSig (uid o)) =
    wrap (sig_shape i)
         (nth (List.length vs - Z.to_nat (int_value stages)) vs 0%Z).
Proof.
  intros Hinit Hhook Hi Ho Hio Hdom Hsh Hres Hlen.
  apply FFSynchronizer_init_inv in Hinit.
  destruct Hinit as (z & -> & Hz & ->). cbn [int_value] in *.
  set (self := mkFFSynchronizer i o reset reset_less o_domain z PyNone) in *.
  exists (ff_module self next).
  split; [apply FFSynchronizer_elaborate_default; auto; cbn; lia|].
  assert (Hcomb : is_comb (ff_o_domain self) = false)
    by (apply String.eqb_neq; exact Hdom).
  destruct (FF_delay_line self next ctx ltac:(cbn; lia) Hi Ho Hcomb env Hio
              Hres vs) as (_ & Hs & Hout).
  cbn [ff_i ff_o ff_o_domain ff_stages self] in *.
  rewrite Hout by (destruct vs; [cbn in Hlen; lia|discriminate]).
  rewrite Hs by lia. rewrite Hsh, wrap_idem. f_equal.
  rewrite rev_nth by lia. f_equal. lia.
Qed.

Lemma FFSynchronizer_delay_line_witness :
  exists m : Module,
    FFSynchronizer_elaborate sample_ff no_platform 2 = Built m 5 /\
    run (in_context [] (design_of m)) (sampled sample_i "sync" [1; 0; 1; 1]%Z)
        charged (LSig 1) = 0%Z.
Proof.
  exact (FFSynchronizer_delay_line sample_i sample_o "sync" 1 false (PyInt 3)
           sample_ff no_platform 2 [] charged [1; 0; 1; 1]%Z
           Logic.eq_refl Logic.eq_refl ltac:(cbn; lia) ltac:(cbn; lia)
           ltac:(cbn; lia) ltac:(discriminate) Logic.eq_refl Logic.eq_refl
           ltac:(cbn; lia)).
Defined.

(** X10.  From power-on, with the input and the reset wire low, the
    output of the default [FFSynchronizer] structure shows the
    configured reset value for the first [stages] destination edges
    and the input from then on, whether or not the chain is
    reset-exempt, and whatever the other wires of the surrounding
    design hold. *)
Theorem FFSynchronizer_power_on {Custom : Type}
    (i o : Signal) (o_domain : string) (reset : Z) (reset_less : bool)
    (stages : PyVal) (self : FFSynchronizer) (platform : Platform Custom)
    (next : nat) (ctx : list ClockDomain) (ext : Env) (k : nat) :
  FFSynchronizer_init i o o_domain reset reset_less stages PyNone = Return self ->
  get_ff_sync platform = None ->
  uid i < next -> uid o < next -> uid i <> uid o ->
  o_domain <> "comb" ->
  sig_shape o = sig_shape i ->
  ext (LSig (uid i)) = 0%Z ->
  ext (LRst o_domain) = 0%Z ->
  exists m : Module,
    FFSynchronizer_elaborate self platform next =
      Built m (next + Z.to_nat (int_value stages)) /\
    let D := in_context ctx (design_of m) in
    run D (repeat (Tick o_domain) k) (power_on D ext) (LSig (uid o)) =
    wrap (sig_shape i)
         (if Nat.leb (Z.to_nat (int_value stages)) k then 0%Z else reset).
Proof.
  intros Hinit Hhook Hi Ho Hio Hdom Hsh Hext Hrst.
  apply FFSynchronizer_init_inv in Hinit.
  destruct Hinit as (z & -> & Hz & ->). cbn [int_value] in *.
  set (self := mkFFSynchronizer i o reset reset_less o_domain z PyNone) in *.
  exists (ff_module self next).
  split; [apply FFSynchronizer_elaborate_default; auto; cbn; lia|].
  cbn zeta.
  assert (Hcomb : is_comb (ff_o_domain self) = false)
    by (apply String.eqb_neq; exact Hdom).
  assert (Hpos : 1 <= Z.to_nat (ff_stages self)) by (cbn; lia).
  destruct (FF_power_on self next ctx Hpos Hi Ho Hcomb ext) as (Px & Ps & Po).
  cbn [ff_i ff_o ff_o_domain ff_stages ff_reset self] in *.
  assert (Pr : power_on (in_context ctx (design_of (ff_module self next))) ext
                 (LRst o_domain) = 0%Z).
  { rewrite Px by (intros; discriminate). exact Hrst. }
  assert (Pi : power_on (in_context ctx (design_of (ff_module self next))) ext
                 (LSig (uid i)) = 0%Z).
  { rewrite Px; [exact Hext| |intros E; injection E; lia].
    intros j Hj E. injection E. lia. }
  destruct k as [|k].
  - cbn [repeat run fold_left]. rewrite Po, Hsh, wrap_idem.
    destruct (Nat.leb_spec (Z.to_nat z) 0); [lia|reflexivity].
  - assert (Hres : ff_resetting self
             (power_on (in_context ctx (design_of (ff_module self next))) ext) =
             false).
    { unfold ff_resetting. cbn [ff_o_domain self]. rewrite Pr.
      apply andb_false_r. }
    pose proof (FF_delay self next ctx Hpos Hi Ho Hcomb _ 0%Z (S k) Hio Hres
                  Pi ltac:(lia)) as Hrun.
    cbn [ff_i ff_o ff_o_domain ff_stages self] in Hrun. rewrite Hrun.
    rewrite Hsh, wrap_idem.
    destruct (Nat.leb_spec (Z.to_nat z) (S k)); [reflexivity|].
    rewrite Ps by lia. apply wrap_idem.
Qed.

Lemma FFSynchronizer_power_on_witness :
  exists m : Module,
    FFSynchronizer_elaborate sample_ff no_platform 2 = Built m 5 /\
    let D := in_context [] (design_of m) in
    run D (repeat (Tick "sync") 2) (power_on D quiet) (LSig 1) = 1%Z.
Proof.
  exact (FFSynchronizer_power_on sample_i sample_o "sync" 1 false (PyInt 3)
           sample_ff no_platform 2 [] quiet 2
           Logic.eq_refl Logic.eq_refl ltac:(cbn; lia) ltac:(cbn; lia)
           ltac:(cbn; lia) ltac:(discriminate) Logic.eq_refl
           Logic.eq_refl Logic.eq_refl).
Defined.

(** At rest a one-bit signal is low or high. *)
Lemma at_rest_bit (s : Signal) :
  sig_shape s = unsigned 1 -> at_rest s = 0%Z \/ at_rest s = 1%Z.
Proof.
  intros E. unfold at_rest. rewrite E, wrap_bit.
  pose proof (Z.mod_pos_bound (sig_reset s) 2 ltac:(lia)). lia.
Qed.

(** X11.  From power-on, for a destination domain with a clock of its
    own and a one-bit source that nothing drives, so that it holds its
    own reset value: when that value is the releasing level (low for
    the edge ["pos"], high for ["neg"]) the default
    [AsyncFFSynchronizer] structure holds its output at 1 for the
    first [stages] destination edges and at 0 from then on; when it is
    the asserting level the output stays at 1 for good. *)
Theorem AsyncFFSynchronizer_power_on {Custom : Type}
    (i : Signal) (o : Value) (domain : string) (stages : PyVal)
    (async_edge : string) (self : AsyncFFSynchronizer)
    (platform : Platform Custom) (next : nat) (ctx : list ClockDomain)
    (out : Loc) (ext : Env) (k : nat) :
  AsyncFFSynchronizer_init i o domain stages async_edge PyNone = Return self ->
  get_async_ff_sync platform = None ->
  domain <> "comb" ->
  domain <> "async_ff" ->
  uid i < next ->
  sig_shape i = unsigned 1 ->
  target o = Some (out, unsigned 1) ->
  (forall u, out = LSig u -> u < next) ->
  out <> LSig (uid i) ->
  out <> LRst "async_ff" ->
  out <> LClk "async_ff" ->
  out <> LClk domain ->
  ext (LSig (uid i)) = at_rest i ->
  exists m : Module,
    AsyncFFSynchronizer_elaborate self platform next =
      Built m (next + 2 + Z.to_nat (int_value stages)) /\
    let D := in_context ctx (design_of m) in
    run D (repeat (Tick domain) k) (power_on D ext) out =
    if (at_rest i =? af_release_level self)%Z &&
       Nat.leb (Z.to_nat (int_value stages)) k
    then 0%Z else 1%Z.
Proof.
  intros Hinit Hhook Hdc Hda Hi Hsh Ht Hout Hoi Hor Hoc Hod Hext.
  apply AsyncFFSynchronizer_init_inv in Hinit.
  destruct Hinit as (z & -> & Hz & Hedge & ->). cbn [int_value].
  set (self := mkAsyncFFSynchronizer i o domain z async_edge PyNone) in *.
  exists (af_module self next).
  replace (next + 2) with (S (S next)) by lia.
  split; [apply AsyncFFSynchronizer_elaborate_default; auto; cbn; lia|].
  cbn zeta.
  assert (Hpos : 1 <= Z.to_nat (af_stages self)) by (cbn; lia).
  assert (Hi' : uid (af_i self) < S (S next)) by (cbn; lia).
  assert (Hout' : forall u, out = LSig u -> u < S (S next))
    by (intros u E; apply Hout in E; lia).
  destruct (Z.eqb_spec (at_rest i) (af_release_level self)) as [Er|Er];
    cbn [andb].
  - rewrite <- Hext in Er.
    exact (AF_power_on_released self next ctx out Hpos Hi' Ht Hout' Hoi Hor
             Hoc Hda Hod ext k Er).
  - assert (Ea : ext (LSig (uid (af_i self))) = af_assert_level self).
    { cbn [af_i self]. rewrite Hext.
      unfold af_release_level, af_assert_level in *.
      destruct (at_rest_bit i Hsh) as [E|E]; rewrite E in *;
        destruct (String.eqb (af_edge self) "pos"); congruence. }
    replace (repeat (Tick domain) k)
      with (ticks (repeat domain k)) by apply map_repeat.
    exact (AF_power_on_asserted self next ctx out Hpos Hi' Ht Hout' Hoi Hor
             ext (repeat domain k) Ea).
Qed.

Lemma AsyncFFSynchronizer_power_on_witness :
  (exists m : Module,
     AsyncFFSynchronizer_elaborate sample_af no_platform 2 = Built m 7 /\
     let D := in_context [] (design_of m) in
     run D (repeat (Tick "sync") 3) (power_on D quiet) (LSig 1) = 0%Z) /\
  (exists m : Module,
     AsyncFFSynchronizer_elaborate high_af no_platform 2 = Built m 7 /\
     let D := in_context [] (design_of m) in
     run D (repeat (Tick "sync") 3) (power_on D source_high) (LSig 1) = 1%Z).
Proof.
  split.
  - exact (AsyncFFSynchronizer_power_on sample_i (Sig sample_o) "sync"
             (PyInt 3) "pos" sample_af no_platform 2 [] (LSig 1) quiet 3
             Logic.eq_refl Logic.eq_refl ltac:(discriminate)
             ltac:(discriminate) ltac:(cbn; lia) Logic.eq_refl Logic.eq_refl
             ltac:(intros u E; injection E as <-; lia)
             ltac:(discriminate) ltac:(discriminate) ltac:(discriminate)
             ltac:(discriminate) Logic.eq_refl).
  - exact (AsyncFFSynchronizer_power_on sample_high (Sig sample_o) "sync"
             (PyInt 3) "pos" high_af no_platform 2 [] (LSig 1) source_high 3
             Logic.eq_refl Logic.eq_refl ltac:(discriminate)
             ltac:(discriminate) ltac:(cbn; lia) Logic.eq_refl Logic.eq_refl
             ltac:(intros u E; injection E as <-; lia)
             ltac:(discriminate) ltac:(discriminate) ltac:(discriminate)
             ltac:(discriminate) Logic.eq_refl).
Defined.



(** X12.  Once more than [sync_stages] destination edges have
    followed the source edge of an isolated pulse of one source cycle,
    the [PulseSynchronizer] design is quiescent again with the toggle
    flipped, and a second such pulse is transferred exactly like the
    first, wherever the destination edges fall in either pulse: the
    output is high exactly when [sync_stages] destination edges have
    passed since the second source edge. *)
Theorem PulseSynchronizer_rearms {Custom : Type}
    (i_domain o_domain : string) (z : Z) (next0 next1 : nat)
    (self : PulseSynchronizer) (platform : Platform Custom)
    (next fuel : nat) (ctx : list ClockDomain) (env : Env) (t : Z)
    (pre mid post pre' mid' post' : list string) :
  PulseSynchronizer_init i_domain o_domain (PyInt z) next0 =
    Return (self, next1) ->
  (2 <= z)%Z ->
  get_ff_sync platform = None ->
  next1 <= next ->
  i_domain <> "comb" -> o_domain <> "comb" ->
  t = 0%Z \/ t = 1%Z ->
  ps_idle self next (Z.to_nat z) t env ->
  edges_of i_domain pre = 0 -> edges_of i_domain mid = 0 ->
  edges_of i_domain pre' = 0 -> edges_of i_domain mid' = 0 ->
  Z.to_nat z < edges_of o_domain (mid ++ post) ->
  exists D : Design,
    Fragment_get (S (S fuel)) (EPulseSynchronizer self) platform next =
      Built D (S (S (S next)) + Z.to_nat z) /\
    let G := in_context ctx D in
    ps_idle self next (Z.to_nat z) (1 - t)
      (run G (pulse self pre mid post) env) /\
    run G (pulse self pre mid post ++ pulse self pre' mid' post') env
        (LSig (uid (ps_o self))) =
    if Nat.eqb (edges_of o_domain (mid' ++ post')) (Z.to_nat z)
    then 1%Z else 0%Z.
Proof.
  intros Hinit Hz Hhook Hnext Hid Hod Ht Hidle Hpre Hmid Hpre' Hmid' Hk.
  rewrite PulseSynchronizer_init_eq in Hinit. cbn in Hinit.
  destruct (Z.leb_spec 1 z); [|lia]. injection Hinit as <- <-.
  set (self := mkPulseSynchronizer _ _ i_domain o_domain (PyInt z)) in *.
  exists (ps_design self next z).
  assert (Hic : is_comb (ps_i_domain self) = false)
    by (apply String.eqb_neq; exact Hid).
  assert (Hoc : is_comb (ps_o_domain self) = false)
    by (apply String.eqb_neq; exact Hod).
  assert (Hpos : 1 <= Z.to_nat z) by lia.
  assert (Hui : uid (ps_i self) < next) by (cbn; lia).
  assert (Huo : uid (ps_o self) < next) by (cbn; lia).
  assert (Hio : uid (ps_i self) <> uid (ps_o self)) by (cbn; lia).
  split; [now apply Fragment_get_pulse|]. cbn zeta.
  pose proof (PS_pulse_rearms self next z ctx Hpos Hui Huo Hio Logic.eq_refl
                Hic Hoc t env pre mid post Ht Hidle Hpre Hmid Hk) as Hre.
  split; [exact Hre|].
  rewrite run_app.
  assert (Ht' : (1 - t = 0 \/ 1 - t = 1)%Z) by (destruct Ht as [->| ->]; auto).
  exact (proj2 (proj2 (PS_pulse self next z ctx Hpos Hui Huo Hio Logic.eq_refl
                         Hic Hoc (1 - t)%Z _ pre' mid' post' Ht' Hre
                         Hpre' Hmid'))).
Qed.

Lemma PulseSynchronizer_rearms_witness :
  exists D : Design,
    Fragment_get 2 (EPulseSynchronizer sample_ps) no_platform 2 = Built D 7 /\
    run (in_context [] D)
        (pulse sample_ps ["b"; "b"] ["b"] ["b"; "b"; "b"; "a"] ++
         pulse sample_ps ["b"; "b"; "b"] [] ["b"; "a"; "b"])
        quiet (LSig 1) = 1%Z.
Proof.
  destruct (PulseSynchronizer_rearms "a" "b" 2 0 2 sample_ps no_platform 2 0
              [] quiet 0 ["b"; "b"] ["b"] ["b"; "b"; "b"; "a"]
              ["b"; "b"; "b"] [] ["b"; "a"; "b"]
              Logic.eq_refl ltac:(lia) Logic.eq_refl ltac:(lia)
              ltac:(discriminate) ltac:(discriminate)
              (or_introl Logic.eq_refl)
              ltac:(repeat split; intros; reflexivity)
              Logic.eq_refl Logic.eq_refl Logic.eq_refl Logic.eq_refl
              ltac:(cbn; lia))
    as (D & Hf & _ & Hrun).
  exists D. split; [exact Hf|exact Hrun].
Defined.

(** X13.  Pulses can be dropped: when the destination runs on another
    clock and the input is sampled high by two source edges in a row
    with no destination edge between them, the toggle is back at its
    old value, the design is quiescent as before, and the output stays
    low whatever clock edges follow. *)
Theorem PulseSynchronizer_drops_back_to_back_pulses {Custom : Type}
    (i_domain o_domain : string) (z : Z) (next0 next1 : nat)
    (self : PulseSynchronizer) (platform : Platform Custom)
    (next fuel : nat) (ctx : list ClockDomain) (env : Env) (t : Z)
    (clks : list string) :
  PulseSynchronizer_init i_domain o_domain (PyInt z) next0 =
    Return (self, next1) ->
  (2 <= z)%Z ->
  get_ff_sync platform = None ->
  next1 <= next ->
  i_domain <> "comb" -> o_domain <> "comb" ->
  o_domain <> i_domain ->
  t = 0%Z \/ t = 1%Z ->
  ps_idle self next (Z.to_nat z) t env ->
  exists D : Design,
    Fragment_get (S (S fuel)) (EPulseSynchronizer self) platform next =
      Built D (S (S (S next)) + Z.to_nat z) /\
    let G := in_context ctx D in
    ps_idle self next (Z.to_nat z) t (run G (double_pulse self) env) /\
    run G (double_pulse self ++ ticks clks) env (LSig (uid (ps_o self))) =
      0%Z.
Proof.
  intros Hinit Hz Hhook Hnext Hid Hod Hne Ht Hidle.
  rewrite PulseSynchronizer_init_eq in Hinit. cbn in Hinit.
  destruct (Z.leb_spec 1 z); [|lia]. injection Hinit as <- <-.
  set (self := mkPulseSynchronizer _ _ i_domain o_domain (PyInt z)) in *.
  exists (ps_design self next z).
  split; [now apply Fragment_get_pulse|]. cbn zeta.
  apply (PS_double_pulse self next z ctx); auto; try (cbn; lia).
  - apply String.eqb_neq. exact Hid.
  - apply String.eqb_neq. exact Hod.
  - apply String.eqb_neq. exact Hne.
Qed.

Lemma PulseSynchronizer_drops_back_to_back_pulses_witness :
  exists D : Design,
    Fragment_get 2 (EPulseSynchronizer sample_ps) no_platform 2 = Built D 7 /\
    run (in_context [] D)
        (double_pulse sample_ps ++ ticks ["b"; "b"; "a"; "b"; "b"])
        quiet (LSig 1) = 0%Z.
Proof.
  destruct (PulseSynchronizer_drops_back_to_back_pulses "a" "b" 2 0 2
              sample_ps no_platform 2 0 [] quiet 0
              ["b"; "b"; "a"; "b"; "b"]
              Logic.eq_refl ltac:(lia) Logic.eq_refl ltac:(lia)
              ltac:(discriminate) ltac:(discriminate) ltac:(discriminate)
              (or_introl Logic.eq_refl)
              ltac:(repeat split; intros; reflexivity))
    as (D & Hf & _ & Hrun).
  exists D. split; [exact Hf|exact Hrun].
Defined.

(** X14.  A [ResetSynchronizer] gives its domain a power-on reset.
    Elaborated by the framework on the default path, for a domain with
    a clock of its own, and started from power-on with a one-bit [arst]
    that nothing drives, so that it holds its own reset value: when
    [arst] rests low the domain's reset wire is at 1 for the first
    [stages] edges of the domain's clock and at 0 from then on; when
    [arst] rests high the domain stays in reset. *)
Theorem ResetSynchronizer_power_on {Custom : Type}
    (arst : Signal) (domain : string) (stages : PyVal)
    (self : ResetSynchronizer) (platform : Platform Custom)
    (next fuel : nat) (ctx : list ClockDomain) (ext : Env) (k : nat) :
  ResetSynchronizer_init arst domain stages PyNone = Return self ->
  get_async_ff_sync platform = None ->
  domain <> "comb" ->
  domain <> "async_ff" ->
  uid arst < next ->
  sig_shape arst = unsigned 1 ->
  ext (LSig (uid arst)) = at_rest arst ->
  exists D : Design,
    Fragment_get (S (S fuel)) (EResetSynchronizer self) platform next =
      Built D (next + 2 + Z.to_nat (int_value stages)) /\
    let G := in_context ctx D in
    run G (repeat (Tick domain) k) (power_on G ext) (LRst domain) =
    if (at_rest arst =? 0)%Z && Nat.leb (Z.to_nat (int_value stages)) k
    then 0%Z else 1%Z.
Proof.
  intros Hinit Hhook Hdc Hdom Hi Hsh Hext.
  apply ResetSynchronizer_init_inv in Hinit.
  destruct Hinit as (z & -> & Hz & ->). cbn [int_value].
  set (a := mkAsyncFFSynchronizer arst (ResetSignal domain) domain z "pos"
              PyNone).
  exists (design_of (af_module a next)). split.
  - cbn [Fragment_get]. rewrite ResetSynchronizer_elaborate_eq by assumption.
    destruct (String.eqb_spec domain "comb"); [contradiction|]. fold a.
    rewrite AsyncFFSynchronizer_elaborate_default by (auto; cbn; lia).
    replace (next + 2) with (S (S next)) by lia. reflexivity.
  - cbn zeta.
    assert (Hor : LRst domain <> LRst "async_ff") by congruence.
    assert (Hpos : 1 <= Z.to_nat (af_stages a)) by (cbn; lia).
    assert (Hi' : uid (af_i a) < S (S next)) by (cbn; lia).
    destruct (Z.eqb_spec (at_rest arst) 0) as [Er|Er]; cbn [andb].
    + rewrite <- Hext in Er.
      exact (AF_power_on_released a next ctx (LRst domain) Hpos Hi'
               Logic.eq_refl ltac:(intros; discriminate) ltac:(discriminate)
               Hor ltac:(discriminate) Hdom ltac:(discriminate) ext k Er).
    + assert (Ea : ext (LSig (uid (af_i a))) = af_assert_level a).
      { cbn [af_i a]. rewrite Hext.
        destruct (at_rest_bit arst Hsh) as [E|E]; [contradiction|exact E]. }
      replace (repeat (Tick domain) k)
        with (ticks (repeat domain k)) by apply map_repeat.
      exact (AF_power_on_asserted a next ctx (LRst domain) Hpos Hi'
               Logic.eq_refl ltac:(intros; discriminate) ltac:(discriminate)
               Hor ext (repeat domain k) Ea).
Qed.

Lemma ResetSynchronizer_power_on_witness :
  (exists D : Design,
     Fragment_get 2 (EResetSynchronizer sample_rs) no_platform 2 =
       Built D 6 /\
     let G := in_context [] D in
     run G (repeat (Tick "sync") 2) (power_on G quiet) (LRst "sync") = 0%Z) /\
  (exists D : Design,
     Fragment_get 2 (EResetSynchronizer high_rs) no_platform 2 =
       Built D 6 /\
     let G := in_context [] D in
     run G (repeat (Tick "sync") 2) (power_on G source_high) (LRst "sync") =
       1%Z).
Proof.
  split.
  - exact (ResetSynchronizer_power_on sample_i "sync" (PyInt 2) sample_rs
             no_platform 2 0 [] quiet 2 Logic.eq_refl Logic.eq_refl
             ltac:(discriminate) ltac:(discriminate) ltac:(cbn; lia)
             Logic.eq_refl Logic.eq_refl).
  - exact (ResetSynchronizer_power_on sample_high "sync" (PyInt 2) high_rs
             no_platform 2 0 [] source_high 2 Logic.eq_refl Logic.eq_refl
             ltac:(discriminate) ltac:(discriminate) ltac:(cbn; lia)
             Logic.eq_refl Logic.eq_refl).
Defined.
